(** * Auto-Timestamp: the frontmatter editor of [src/main.ts]

    A shallow embedding of the plugin's editor logic ([formatDate],
    [shouldIgnoreFile], [addFrontmatter], [updateModifiedTime]) and of its two
    event handlers, together with the part of the JavaScript run-time the
    code relies on: [String.prototype.replace] with its [$]-substitution
    patterns, [padStart], and a backtracking [RegExp] matcher that follows the
    continuation-passing semantics of the ECMAScript specification.

    Strings are lists of code units; the model keeps to the code units
    U+0000..U+00FF ([ascii]), which covers the ASCII wire format of the
    frontmatter block. *)

From Stdlib Require Import Strings.Ascii Strings.String Lists.List ZArith Lia Bool.
From stdpp Require Import base list gmap strings.

(* ===================================================================== *)
(** ** Strings *)
(* ===================================================================== *)

(** A JavaScript string: a finite sequence of code units. *)
Definition str := list ascii.

Inductive lit := LNil | LCons (a : ascii) (l : lit).

Fixpoint lit_of_bytes (l : list Byte.byte) : lit :=
  match l with
  | [] => LNil
  | b :: l => LCons (ascii_of_byte b) (lit_of_bytes l)
  end.

Fixpoint bytes_of_lit (l : lit) : list Byte.byte :=
  match l with
  | LNil => []
  | LCons a l => byte_of_ascii a :: bytes_of_lit l
  end.

Declare Scope str_scope.
Delimit Scope str_scope with str.
Bind Scope str_scope with str.
#[warnings="-via-type-remapping,-via-type-mismatch"]
String Notation str lit_of_bytes bytes_of_lit
  (via lit mapping [[nil] => LNil, [cons] => LCons]) : str_scope.
Open Scope str_scope.
Open Scope list_scope.

(** The line feed, written [\n] in the source's string and template
    literals. *)
Definition LF : ascii := "010"%char.
Definition CR : ascii := "013"%char.
Definition nl : str := [LF].

(** Lines joined by line feeds: [joinLines ["a"; "b"]] is ["a\nb"]. *)
Fixpoint joinLines (ls : list str) : str :=
  match ls with
  | [] => []
  | [l] => l
  | l :: ls => l ++ nl ++ joinLines ls
  end.

(** [String.prototype.split("\n")]: the lines of a text. *)
Fixpoint splitLines (s : str) : list str :=
  match s with
  | [] => [[]]
  | c :: s' =>
      if Ascii.eqb c LF then [] :: splitLines s'
      else match splitLines s' with
           | [] => [[c]]
           | l :: ls => (c :: l) :: ls
           end
  end.

(** [String.prototype.startsWith]. *)
Fixpoint startsWith (p s : str) : bool :=
  match p, s with
  | [], _ => true
  | _ :: _, [] => false
  | x :: p', y :: s' => Ascii.eqb x y && startsWith p' s'
  end.

(** [String.prototype.indexOf]: the least index at which [p] occurs in [s],
    returned as the text before the occurrence and the text after it. *)
Fixpoint splitAtFirst (p s : str) : option (str * str) :=
  if startsWith p s then Some ([], drop (length p) s)
  else match s with
       | [] => None
       | c :: s' =>
           match splitAtFirst p s' with
           | Some (pre, post) => Some (c :: pre, post)
           | None => None
           end
       end.

Definition isDigit (c : ascii) : bool :=
  (48 <=? nat_of_ascii c)%nat && (nat_of_ascii c <=? 57)%nat.

(** Line terminators among the modelled code units: LF and CR. *)
Definition isLineTerminator (c : ascii) : bool :=
  Ascii.eqb c LF || Ascii.eqb c CR.

(** White space and line terminators ([\s]): TAB, LF, VT, FF, CR, SP, NBSP. *)
Definition isSpace (c : ascii) : bool :=
  let n := nat_of_ascii c in
  ((9 <=? n) && (n <=? 13) || (n =? 32) || (n =? 160))%nat.

(** Word characters ([\w]): [A-Za-z0-9_]. *)
Definition isWordChar (c : ascii) : bool :=
  let n := nat_of_ascii c in
  ((65 <=? n) && (n <=? 90) || (97 <=? n) && (n <=? 122)
   || (48 <=? n) && (n <=? 57) || (n =? 95))%nat.

(* ===================================================================== *)
(** ** Regular expressions: abstract syntax and matcher *)
(* ===================================================================== *)

Inductive ClassItem :=
| CiChar (c : ascii)
| CiRange (lo hi : ascii)
| CiDigit (positive : bool)
| CiSpace (positive : bool)
| CiWord (positive : bool).

Inductive Regex :=
| REmpty
| RChar (c : ascii)
| RDot
| RClass (negated : bool) (items : list ClassItem)
| RBol
| REol
| RSeq (r1 r2 : Regex)
| RAlt (r1 r2 : Regex)
| RRepeat (min : nat) (max : option nat) (greedy : bool) (r : Regex)
| RGroup (i : nat) (r : Regex).

Definition classItemMatches (it : ClassItem) (c : ascii) : bool :=
  match it with
  | CiChar x => Ascii.eqb x c
  | CiRange lo hi =>
      (nat_of_ascii lo <=? nat_of_ascii c)%nat && (nat_of_ascii c <=? nat_of_ascii hi)%nat
  | CiDigit p => Bool.eqb p (isDigit c)
  | CiSpace p => Bool.eqb p (isSpace c)
  | CiWord p => Bool.eqb p (isWordChar c)
  end.

Definition classMatches (negated : bool) (items : list ClassItem) (c : ascii) : bool :=
  xorb negated (existsb (fun it => classItemMatches it c) items).

(** The capture groups a pattern contains (by index, from 0). *)
Fixpoint groupsOf (r : Regex) : list nat :=
  match r with
  | RSeq r1 r2 | RAlt r1 r2 => groupsOf r1 ++ groupsOf r2
  | RRepeat _ _ _ r1 => groupsOf r1
  | RGroup i r1 => i :: groupsOf r1
  | _ => []
  end.

(** Captures: entry [i] is the text of group [i + 1], [None] while the
    group is undefined. *)
Definition Captures := list (option str).

Definition resetCaptures (gs : list nat) (cs : Captures) : Captures :=
  fold_right (fun i acc => <[i := None]> acc) cs gs.

(** A match state is the text before the current position (reversed: the
    first element is the code unit just before the position), the text from
    the position on, and the captures. A continuation takes a state and
    returns the end of the match and the final captures, or fails. *)
Definition MatchEnd : Type := str * Captures.
Definition Continuation : Type := str -> str -> Captures -> option MatchEnd.

Definition orElse {A} (x : option A) (y : option A) : option A :=
  match x with
  | Some _ => x
  | None => y
  end.

Definition decMax (max : option nat) : option nat :=
  match max with
  | Some n => Some (pred n)
  | None => None
  end.

(** The matcher of a pattern (22.2.2 of the ECMAScript specification,
    forward direction). [RRepeat] is RepeatMatcher: an iteration that
    matches the empty text once [min] is exhausted is rejected, captures of
    the repeated atom are reset at the start of each iteration, and the
    greedy variant tries the atom before the continuation. Its fuel
    [min + length a + 1] is never used up, since every iteration lowers
    [min] or consumes a code unit. *)
Fixpoint matcher (multiline : bool) (r : Regex) (b a : str) (cs : Captures)
    (k : Continuation) {struct r} : option MatchEnd :=
  match r with
  | REmpty => k b a cs
  | RChar c =>
      match a with
      | x :: a' => if Ascii.eqb x c then k (x :: b) a' cs else None
      | [] => None
      end
  | RDot =>
      match a with
      | x :: a' => if isLineTerminator x then None else k (x :: b) a' cs
      | [] => None
      end
  | RClass neg items =>
      match a with
      | x :: a' => if classMatches neg items x then k (x :: b) a' cs else None
      | [] => None
      end
  | RBol =>
      match b with
      | [] => k b a cs
      | x :: _ => if multiline && isLineTerminator x then k b a cs else None
      end
  | REol =>
      match a with
      | [] => k b a cs
      | x :: _ => if multiline && isLineTerminator x then k b a cs else None
      end
  | RSeq r1 r2 =>
      matcher multiline r1 b a cs (fun b' a' cs' => matcher multiline r2 b' a' cs' k)
  | RAlt r1 r2 =>
      orElse (matcher multiline r1 b a cs k) (matcher multiline r2 b a cs k)
  | RGroup i r1 =>
      matcher multiline r1 b a cs
        (fun b' a' cs' => k b' a' (<[i := Some (take (length a - length a') a)]> cs'))
  | RRepeat min max greedy r1 =>
      (fix repeatMatcher (fuel min : nat) (max : option nat) (b a : str) (cs : Captures)
           {struct fuel} : option MatchEnd :=
         match fuel with
         | O => None
         | S fuel' =>
             match max with
             | Some O => k b a cs
             | _ =>
                 let d : Continuation := fun b' a' cs' =>
                   if (min =? 0)%nat && (length a' =? length a)%nat then None
                   else repeatMatcher fuel' (pred min) (decMax max) b' a' cs' in
                 let cs_r := resetCaptures (groupsOf r1) cs in
                 if (min =? 0)%nat then
                   if greedy then
                     orElse (matcher multiline r1 b a cs_r d) (k b a cs)
                   else
                     orElse (k b a cs) (matcher multiline r1 b a cs_r d)
                 else matcher multiline r1 b a cs_r d
             end
         end) (min + length a + 1)%nat min max b a cs
  end.

(** A compiled pattern: the syntax tree and its number of capture groups;
    a [RegExp] object adds the [m] flag. *)
Record RegExp := mkRegExp {
  re_pattern : Regex;
  re_groups : nat;
  re_multiline : bool
}.

(** The result of a successful [exec]: the text before the match
    ([index] is its length), the matched text, the text after it, and the
    captures. *)
Record MatchResult := mkMatch {
  m_before : str;
  m_matched : str;
  m_after : str;
  m_captures : Captures
}.

Definition finalContinuation : Continuation := fun _ a cs => Some (a, cs).

(** RegExpBuiltinExec for a pattern without the [g] and [y] flags: the
    matcher is tried at index 0, 1, ... up to the length of the input. *)
Fixpoint execFrom (re : RegExp) (b a : str) : option MatchResult :=
  match matcher (re_multiline re) (re_pattern re) b a
          (replicate (re_groups re) None) finalContinuation with
  | Some (a_end, cs) =>
      Some (mkMatch (rev b) (take (length a - length a_end) a) a_end cs)
  | None =>
      match a with
      | [] => None
      | x :: a' => execFrom re (x :: b) a'
      end
  end.

(** [RegExp.prototype.exec], which [String.prototype.match] returns for a
    pattern without the [g] flag. *)
Definition exec (re : RegExp) (s : str) : option MatchResult := execFrom re [] s.

(** [RegExp.prototype.test]. *)
Definition test (re : RegExp) (s : str) : bool :=
  match exec re s with
  | Some _ => true
  | None => false
  end.

(** Whether the matcher of the pattern succeeds at index [i] of [s]. *)
Definition matchesAt (re : RegExp) (s : str) (i : nat) : bool :=
  match matcher (re_multiline re) (re_pattern re) (rev (take i s)) (drop i s)
          (replicate (re_groups re) None) finalContinuation with
  | Some _ => true
  | None => false
  end.

(** [RegExp.prototype.test] over the regular expressions of any engine, of
    which [matcherAt regex s i] tells whether the matcher of [regex]
    succeeds at index [i] of [s]: without the [g] and [y] flags,
    RegExpBuiltinExec tries the indices 0, 1, ... up to the length of
    [s]. *)
Definition testWith {R : Type} (matcherAt : R -> str -> nat -> bool) (regex : R)
    (s : str) : bool :=
  existsb (matcherAt regex s) (seq 0 (S (length s))).

(* ===================================================================== *)
(** ** Regular expressions: the pattern parser *)
(* ===================================================================== *)

(** The parser covers the pattern grammar of the specification's main body
    (without the [u] flag): disjunction, [^] and [$], the quantifiers [*],
    [+], [?] and their lazy forms, [.], capturing and [(?:] groups,
    character classes, the class escapes [\d \D \s \S \w \W], the control
    escapes [\n \r \t \f \v] and identity escapes of non-word characters.
    A pattern the grammar rejects with certainty is a [PSyntaxError];
    every other construct (braces, look-around, back-references, [\b], the
    lenient forms of Annex B) is left [PUnmodelled]. *)
Inductive ParseResult (A : Type) :=
| POk (x : A) (rest : str) (g : nat)
| PSyntaxError
| PUnmodelled.
Arguments POk {A} x rest g.
Arguments PSyntaxError {A}.
Arguments PUnmodelled {A}.

(** SyntaxCharacter of the pattern grammar. *)
Definition isSyntaxCharacter (c : ascii) : bool :=
  existsb (Ascii.eqb c) "^$\.*+?()[]{}|".

Inductive Escape :=
| EscSet (it : ClassItem)
| EscChar (c : ascii)
| EscUnmodelled.

(** The escape [\c]. *)
Definition parseEscape (c : ascii) : Escape :=
  match c with
  | "d"%char => EscSet (CiDigit true)
  | "D"%char => EscSet (CiDigit false)
  | "s"%char => EscSet (CiSpace true)
  | "S"%char => EscSet (CiSpace false)
  | "w"%char => EscSet (CiWord true)
  | "W"%char => EscSet (CiWord false)
  | "t"%char => EscChar "009"%char
  | "n"%char => EscChar LF
  | "v"%char => EscChar "011"%char
  | "f"%char => EscChar "012"%char
  | "r"%char => EscChar CR
  | _ => if isWordChar c || (128 <=? nat_of_ascii c)%nat then EscUnmodelled
         else EscChar c
  end.

(** ClassAtom: one element of a character class. *)
Definition parseClassAtom (s : str) : ParseResult Escape :=
  match s with
  | [] => PSyntaxError
  | "\"%char :: [] => PSyntaxError
  | "\"%char :: c :: s' =>
      match parseEscape c with
      | EscUnmodelled => PUnmodelled
      | e => POk e s' 0
      end
  | c :: s' => POk (EscChar c) s' 0
  end.

Definition escapeItem (e : Escape) : list ClassItem :=
  match e with
  | EscSet it => [it]
  | EscChar c => [CiChar c]
  | EscUnmodelled => []
  end.

(** ClassRanges up to the closing bracket. *)
Fixpoint parseClassRanges (fuel : nat) (s : str) (acc : list ClassItem)
    : ParseResult (list ClassItem) :=
  match fuel with
  | O => PUnmodelled
  | S fuel' =>
      match s with
      | [] => PSyntaxError
      | "]"%char :: s' => POk (rev acc) s' 0
      | _ =>
          match parseClassAtom s with
          | POk a1 s1 _ =>
              match s1 with
              | "-"%char :: "]"%char :: _ =>
                  parseClassRanges fuel' s1 (escapeItem a1 ++ acc)
              | "-"%char :: (_ :: _) as s2 =>
                  match parseClassAtom s2 with
                  | POk a2 s3 _ =>
                      match a1, a2 with
                      | EscChar lo, EscChar hi =>
                          if (nat_of_ascii lo <=? nat_of_ascii hi)%nat
                          then parseClassRanges fuel' s3 (CiRange lo hi :: acc)
                          else PSyntaxError
                      | _, _ => PUnmodelled
                      end
                  | PSyntaxError => PSyntaxError
                  | PUnmodelled => PUnmodelled
                  end
              | _ => parseClassRanges fuel' s1 (escapeItem a1 ++ acc)
              end
          | PSyntaxError => PSyntaxError
          | PUnmodelled => PUnmodelled
          end
      end
  end.

(** CharacterClass, after its opening bracket. *)
Definition parseClass (s : str) : ParseResult Regex :=
  let '(negated, s0) :=
    match s with
    | "^"%char :: s' => (true, s')
    | _ => (false, s)
    end in
  match parseClassRanges (S (length s0)) s0 [] with
  | POk items rest _ => POk (RClass negated items) rest 0
  | PSyntaxError => PSyntaxError
  | PUnmodelled => PUnmodelled
  end.

Definition lazySuffix (s : str) : bool * str :=
  match s with
  | "?"%char :: s' => (false, s')
  | _ => (true, s)
  end.

(** An optional Quantifier after the atom [r]. *)
Definition parseQuantifier (r : Regex) (s : str) (g : nat) : ParseResult Regex :=
  match s with
  | "*"%char :: s' => let '(gr, s'') := lazySuffix s' in POk (RRepeat 0 None gr r) s'' g
  | "+"%char :: s' => let '(gr, s'') := lazySuffix s' in POk (RRepeat 1 None gr r) s'' g
  | "?"%char :: s' => let '(gr, s'') := lazySuffix s' in POk (RRepeat 0 (Some 1) gr r) s'' g
  | "{"%char :: _ => PUnmodelled
  | _ => POk r s g
  end.

(** Disjunction, Alternative and Term. [g] is the index of the next
    capture group, numbered by opening parenthesis from left to right. *)
Fixpoint parseDisjunction (fuel : nat) (s : str) (g : nat) {struct fuel}
    : ParseResult Regex :=
  match fuel with
  | O => PUnmodelled
  | S fuel' =>
      match parseAlternative fuel' s g with
      | POk r1 ("|"%char :: s') g' =>
          match parseDisjunction fuel' s' g' with
          | POk r2 s'' g'' => POk (RAlt r1 r2) s'' g''
          | e => e
          end
      | res => res
      end
  end
with parseAlternative (fuel : nat) (s : str) (g : nat) {struct fuel}
    : ParseResult Regex :=
  match fuel with
  | O => PUnmodelled
  | S fuel' =>
      match s with
      | [] => POk REmpty s g
      | "|"%char :: _ => POk REmpty s g
      | ")"%char :: _ => POk REmpty s g
      | _ =>
          match parseTerm fuel' s g with
          | POk t s' g' =>
              match parseAlternative fuel' s' g' with
              | POk r s'' g'' => POk (RSeq t r) s'' g''
              | e => e
              end
          | e => e
          end
      end
  end
with parseTerm (fuel : nat) (s : str) (g : nat) {struct fuel}
    : ParseResult Regex :=
  match fuel with
  | O => PUnmodelled
  | S fuel' =>
      match s with
      | [] => POk REmpty s g
      | "^"%char :: s' => POk RBol s' g
      | "$"%char :: s' => POk REol s' g
      | "*"%char :: _ => PSyntaxError
      | "+"%char :: _ => PSyntaxError
      | "?"%char :: _ => PSyntaxError
      | "{"%char :: _ => PUnmodelled
      | "}"%char :: _ => PUnmodelled
      | "]"%char :: _ => PUnmodelled
      | "("%char :: "?"%char :: ":"%char :: s' =>
          match parseDisjunction fuel' s' g with
          | POk r (")"%char :: s'') g' => parseQuantifier r s'' g'
          | POk _ _ _ => PSyntaxError
          | e => e
          end
      | "("%char :: "?"%char :: _ => PUnmodelled
      | "("%char :: s' =>
          match parseDisjunction fuel' s' (S g) with
          | POk r (")"%char :: s'') g' => parseQuantifier (RGroup g r) s'' g'
          | POk _ _ _ => PSyntaxError
          | e => e
          end
      | "."%char :: s' => parseQuantifier RDot s' g
      | "["%char :: s' =>
          match parseClass s' with
          | POk r s'' _ => parseQuantifier r s'' g
          | PSyntaxError => PSyntaxError
          | PUnmodelled => PUnmodelled
          end
      | "\"%char :: [] => PSyntaxError
      | "\"%char :: c :: s' =>
          match parseEscape c with
          | EscSet it => parseQuantifier (RClass false [it]) s' g
          | EscChar x => parseQuantifier (RChar x) s' g
          | EscUnmodelled => PUnmodelled
          end
      | c :: s' => parseQuantifier (RChar c) s' g
      end
  end.

(** Exceptions a call can raise. *)
Inductive Exn :=
| SyntaxError
| HostFailure.

(** The outcome of a computation that may throw. [Unmodelled] is not a
    behaviour of the program: it marks a run that leaves the modelled
    fragment of the pattern syntax. *)
Inductive Outcome (A : Type) :=
| Ok (x : A)
| Throws (e : Exn)
| Unmodelled.
Arguments Ok {A} x.
Arguments Throws {A} e.
Arguments Unmodelled {A}.

#[global] Instance outcome_ret : MRet Outcome := fun A x => Ok x.

#[global] Instance outcome_bind : MBind Outcome := fun A B f x =>
  match x with
  | Ok a => f a
  | Throws e => Throws e
  | Unmodelled => Unmodelled
  end.

(** [new RegExp(pattern)] and [new RegExp(pattern, "m")]. *)
Definition newRegExp (pattern : str) (multiline : bool) : Outcome RegExp :=
  match parseDisjunction (3 * length pattern + 3) pattern 0 with
  | POk r [] g => Ok (mkRegExp r g multiline)
  | POk _ (_ :: _) _ => Throws SyntaxError
  | PSyntaxError => Throws SyntaxError
  | PUnmodelled => Unmodelled
  end.

(** A regular-expression literal of the source: its pattern is fixed, so it
    compiles when the script is loaded; the fallback matches nothing. *)
Definition regexLiteral (pattern : str) (multiline : bool) : RegExp :=
  match newRegExp pattern multiline with
  | Ok re => re
  | _ => mkRegExp (RClass false []) 0 multiline
  end.

(* ===================================================================== *)
(** ** [String.prototype.replace], [padStart], [Number.prototype.toString] *)
(* ===================================================================== *)

Definition digitValue (c : ascii) : nat := nat_of_ascii c - 48.

(** The text a capture reference stands for: group [i] (from 1), the empty
    text when the group is undefined. *)
Definition captureText (caps : Captures) (i : nat) : str :=
  match caps !! (i - 1)%nat with
  | Some (Some s) => s
  | _ => []
  end.

(** GetSubstitution (22.1.3.19.1) without named captures: in the
    replacement template, [$$] stands for a dollar sign, [$&] for the
    matched text, [$`] and [$'] for the text before and after the match,
    and [$n], [$nn] for the text of a capture group when the pattern has one
    of that number. A two-digit reference beyond the number of groups is
    read as a one-digit reference followed by a digit. Any other [$] is
    literal. *)
Fixpoint getSubstitution (before matched after : str) (caps : Captures)
    (template : str) : str :=
  match template with
  | [] => []
  | "$"%char :: t1 =>
      match t1 with
      | [] => "$"
      | "$"%char :: t2 => "$" ++ getSubstitution before matched after caps t2
      | "`"%char :: t2 => before ++ getSubstitution before matched after caps t2
      | "&"%char :: t2 => matched ++ getSubstitution before matched after caps t2
      | "'"%char :: t2 => after ++ getSubstitution before matched after caps t2
      | d1 :: t2 =>
          if isDigit d1 then
            let m := length caps in
            let i := digitValue d1 in
            let oneDigit :=
              if (1 <=? i)%nat && (i <=? m)%nat
              then captureText caps i ++ getSubstitution before matched after caps t2
              else "$"%char :: d1 :: getSubstitution before matched after caps t2 in
            match t2 with
            | d2 :: t3 =>
                if isDigit d2 then
                  let ii := (10 * i + digitValue d2)%nat in
                  if (ii <=? m)%nat then
                    if (1 <=? ii)%nat
                    then captureText caps ii ++ getSubstitution before matched after caps t3
                    else "$"%char :: d1 :: d2 :: getSubstitution before matched after caps t3
                  else oneDigit
                else oneDigit
            | [] => oneDigit
            end
          else "$"%char :: getSubstitution before matched after caps t1
      end
  | c :: t1 => c :: getSubstitution before matched after caps t1
  end.

(** [s.replace(searchString, replaceValue)] with a string pattern: the
    first occurrence is replaced, by the expansion of the template. *)
Definition replaceStr (s searchString replaceValue : str) : str :=
  match splitAtFirst searchString s with
  | Some (before, after) =>
      before ++ getSubstitution before searchString after [] replaceValue ++ after
  | None => s
  end.

(** [s.replace(regexp, replaceValue)] for a pattern without the [g] flag. *)
Definition replaceRe (s : str) (re : RegExp) (replaceValue : str) : str :=
  match exec re s with
  | Some m =>
      m_before m
      ++ getSubstitution (m_before m) (m_matched m) (m_after m) (m_captures m) replaceValue
      ++ m_after m
  | None => s
  end.

(** [s.padStart(targetLength, fillString)]. *)
Fixpoint repeatTo (n : nat) (fill cur : str) : str :=
  match n with
  | O => []
  | S n' =>
      match cur with
      | [] => match fill with
              | [] => []
              | c :: cur' => c :: repeatTo n' fill cur'
              end
      | c :: cur' => c :: repeatTo n' fill cur'
      end
  end.

Definition padStart (targetLength : nat) (fillString s : str) : str :=
  if (targetLength <=? length s)%nat then s
  else match fillString with
       | [] => s
       | _ => repeatTo (targetLength - length s) fillString fillString ++ s
       end.

Definition digitChar (n : N) : ascii := ascii_of_N (48 + n).

Fixpoint digitsOf (fuel : nat) (n : N) (acc : str) : str :=
  match fuel with
  | O => acc
  | S fuel' =>
      if (n <? 10)%N then digitChar n :: acc
      else digitsOf fuel' (n / 10)%N (digitChar (n mod 10)%N :: acc)
  end.

(** [Number.prototype.toString()] of an integer in the range of the date
    components: decimal digits, with a minus sign when negative. *)
Definition toString (z : Z) : str :=
  let n := Z.abs_N z in
  let ds := digitsOf (S (N.size_nat n)) n [] in
  if (z <? 0)%Z then "-"%char :: ds else ds.

(** [===] on strings. *)
Fixpoint strEqb (s t : str) : bool :=
  match s, t with
  | [], [] => true
  | x :: s', y :: t' => Ascii.eqb x y && strEqb s' t'
  | _, _ => false
  end.

(** [Array.prototype.some] with a predicate that may throw: the elements
    after the first hit are not visited. *)
Fixpoint some {A} (f : A -> Outcome bool) (l : list A) : Outcome bool :=
  match l with
  | [] => Ok false
  | x :: l' => b ← f x; if b : bool then Ok true else some f l'
  end.

(* ===================================================================== *)
(** ** The plugin *)
(* ===================================================================== *)

Record AutoTimestampSettings := mkSettings {
  dateFormat : str;
  createdKey : str;
  modifiedKey : str;
  ignorePatterns : list str
}.

Definition DEFAULT_SETTINGS : AutoTimestampSettings :=
  mkSettings "yyyy-MM-ddTHH:mm:ss" "created" "modified" [].

(** A [Date], read through its local-time getters. [getMonth] counts from
    0. *)
Record Date := mkDate {
  getFullYear : Z;
  getMonth : Z;
  getDate : Z;
  getHours : Z;
  getMinutes : Z;
  getSeconds : Z
}.

Record TFile := mkTFile {
  path : str;
  extension : str
}.

Inductive TAbstractFile :=
| IsTFile (file : TFile)
| IsTFolder (folderPath : str).

Section Editor.
Variable settings : AutoTimestampSettings.

Definition formatDate (date : Date) : str :=
  let format := dateFormat settings in
  let year := toString (getFullYear date) in
  let month := padStart 2 "0" (toString (getMonth date + 1)) in
  let day := padStart 2 "0" (toString (getDate date)) in
  let hours := padStart 2 "0" (toString (getHours date)) in
  let minutes := padStart 2 "0" (toString (getMinutes date)) in
  let seconds := padStart 2 "0" (toString (getSeconds date)) in
  replaceStr
    (replaceStr
       (replaceStr
          (replaceStr
             (replaceStr
                (replaceStr format "yyyy" year)
                "MM" month)
             "dd" day)
          "HH" hours)
       "mm" minutes)
    "ss" seconds.

Definition shouldIgnoreFile (file : TFile) : Outcome bool :=
  some (fun pattern =>
          regex ← newRegExp pattern false;
          Ok (test regex (path file)))
       (ignorePatterns settings).

(** [shouldIgnoreFile] over the regular expressions of any engine:
    [compile pattern] is [new RegExp(pattern)], which returns a regular
    expression or throws. *)
Definition shouldIgnoreFileWith {R : Type} (compile : str -> Outcome R)
    (matcherAt : R -> str -> nat -> bool) (file : TFile) : Outcome bool :=
  some (fun pattern =>
          regex ← compile pattern;
          Ok (testWith matcherAt regex (path file)))
       (ignorePatterns settings).

(** The literal [/^---\n([\s\S]*?)\n---/]. *)
Definition frontmatterRegex : RegExp :=
  Eval vm_compute in regexLiteral "^---\n([\s\S]*?)\n---" false.

(** [match[1]]: the first group of a match (the text ["undefined"] if it
    did not take part, which [frontmatterRegex] excludes). *)
Definition group1 (m : MatchResult) : str :=
  match m_captures m with
  | Some g :: _ => g
  | _ => "undefined"
  end.

Definition addFrontmatter (content created modified : str) : Outcome str :=
  let createdKey := createdKey settings in
  let modifiedKey := modifiedKey settings in
  match exec frontmatterRegex content with
  | Some m =>
      let frontmatter := group1 m in
      createdRegex ← newRegExp ("^" ++ createdKey ++ ":") true;
      let frontmatter :=
        if negb (test createdRegex frontmatter)
        then createdKey ++ ": " ++ created ++ nl ++ frontmatter
        else frontmatter in
      modifiedRegex ← newRegExp ("^" ++ modifiedKey ++ ":") true;
      let frontmatter :=
        if negb (test modifiedRegex frontmatter)
        then frontmatter ++ nl ++ modifiedKey ++ ": " ++ modified
        else frontmatter in
      Ok (replaceRe content frontmatterRegex ("---" ++ nl ++ frontmatter ++ nl ++ "---"))
  | None =>
      let newFrontmatter :=
        "---" ++ nl ++ createdKey ++ ": " ++ created ++ nl
        ++ modifiedKey ++ ": " ++ modified ++ nl ++ "---" ++ nl in
      Ok (newFrontmatter ++ content)
  end.

Definition updateModifiedTime (content modified : str) : Outcome str :=
  let createdKey := createdKey settings in
  let modifiedKey := modifiedKey settings in
  match exec frontmatterRegex content with
  | None => Ok content
  | Some m =>
      let frontmatter := group1 m in
      modifiedRegex ← newRegExp ("^(" ++ modifiedKey ++ ":).*$") true;
      let frontmatter :=
        if test modifiedRegex frontmatter
        then replaceRe frontmatter modifiedRegex ("$1 " ++ modified)
        else frontmatter ++ nl ++ modifiedKey ++ ": " ++ modified in
      createdRegex ← newRegExp ("^" ++ createdKey ++ ":") true;
      let frontmatter :=
        if negb (test createdRegex frontmatter)
        then createdKey ++ ": " ++ modified ++ nl ++ frontmatter
        else frontmatter in
      Ok (replaceRe content frontmatterRegex ("---" ++ nl ++ frontmatter ++ nl ++ "---"))
  end.
End Editor.

(* ===================================================================== *)
(** ** The event handlers *)
(* ===================================================================== *)

(** The host application: its storage ([this.app.vault]) and its clock.
    A storage call succeeds or throws. *)
Class Host (W : Type) := {
  vaultRead : TFile -> W -> Outcome str;
  vaultModify : TFile -> str -> W -> Outcome unit * W;
  newDate : W -> Date
}.

Inductive HostCall :=
| CallRead (file : TFile)
| CallModify (file : TFile) (data : str).

(** The plugin object ([settings], [isUpdating]), the host it runs in, and
    the storage calls made so far, latest first. *)
Record State (W : Type) := mkState {
  settings : AutoTimestampSettings;
  isUpdating : bool;
  world : W;
  calls : list HostCall
}.
Arguments mkState {W} settings isUpdating world calls.
Arguments settings {W} s.
Arguments isUpdating {W} s.
Arguments world {W} s.
Arguments calls {W} s.

(** An [async] method: it runs on the state and returns or throws, leaving
    the state as it was when it stopped. The handlers are modelled run to
    completion: the points where they [await] are not interleaved with other
    handlers. *)
Definition Async (W A : Type) : Type := State W -> Outcome A * State W.

#[global] Instance async_ret {W} : MRet (Async W) := fun A x st => (Ok x, st).

#[global] Instance async_bind {W} : MBind (Async W) := fun A B f c st =>
  match c st with
  | (Ok a, st') => f a st'
  | (Throws e, st') => (Throws e, st')
  | (Unmodelled, st') => (Unmodelled, st')
  end.

Section Handlers.
Context {W : Type} `{Host W}.

(** A computation of the editor, on the current settings. *)
Definition editor {A} (f : AutoTimestampSettings -> Outcome A) : Async W A :=
  fun st => (f (settings st), st).

Definition getIsUpdating : Async W bool := fun st => (Ok (isUpdating st), st).

Definition setIsUpdating (b : bool) : Async W unit :=
  fun st => (Ok tt, mkState (settings st) b (world st) (calls st)).

Definition read (file : TFile) : Async W str :=
  fun st =>
    (vaultRead file (world st),
     mkState (settings st) (isUpdating st) (world st) (CallRead file :: calls st)).

Definition modify (file : TFile) (data : str) : Async W unit :=
  fun st =>
    let '(r, w') := vaultModify file data (world st) in
    (r, mkState (settings st) (isUpdating st) w' (CallModify file data :: calls st)).

Definition currentDate : Async W Date := fun st => (Ok (newDate (world st)), st).

Definition delay (ms : nat) : Async W unit := mret tt.

Definition handleFileCreate (file : TFile) : Async W unit :=
  updating ← getIsUpdating;
  skip ← (if updating : bool then mret true
          else editor (fun settings => shouldIgnoreFile settings file));
  if skip : bool then mret tt
  else
    _ ← delay 100;
    content ← read file;
    date ← currentDate;
    now ← editor (fun settings => Ok (formatDate settings date));
    updatedContent ← editor (fun settings => addFrontmatter settings content now now);
    if negb (strEqb updatedContent content) then
      _ ← setIsUpdating true;
      _ ← modify file updatedContent;
      setIsUpdating false
    else mret tt.

Definition handleFileModify (file : TFile) : Async W unit :=
  updating ← getIsUpdating;
  skip ← (if updating : bool then mret true
          else editor (fun settings => shouldIgnoreFile settings file));
  if skip : bool then mret tt
  else
    content ← read file;
    date ← currentDate;
    now ← editor (fun settings => Ok (formatDate settings date));
    updatedContent ← editor (fun settings => updateModifiedTime settings content now);
    if negb (strEqb updatedContent content) then
      _ ← setIsUpdating true;
      _ ← modify file updatedContent;
      setIsUpdating false
    else mret tt.

(** The events of the two listeners registered in [onload]. *)
Inductive VaultEvent :=
| OnCreate (file : TAbstractFile)
| OnModify (file : TAbstractFile).

Definition isMarkdown (file : TAbstractFile) : option TFile :=
  match file with
  | IsTFile f => if strEqb (extension f) "md" then Some f else None
  | IsTFolder _ => None
  end.
End Handlers.

(* ===================================================================== *)
(** ** The handlers between their [await]s *)
(* ===================================================================== *)

(** A handler is an [async] function: it runs up to its next [await] and
    goes on when the awaited promise settles; in between, other handlers
    run. [Await k] is a handler at an [await]: when the promise settles, the
    awaited host operation takes effect and [k] runs the handler up to its
    next [await]. [Return] is a handler that has returned. A part that
    throws rejects the handler's promise and ends it. *)
#[warnings="-register-all"]
Inductive Task (W : Type) :=
| Return
| Await (k : Async W (Task W)).
Arguments Return {W}.
Arguments Await {W} k.

(** What the event loop does next: it delivers an event to its listener,
    or it lets the promise settle that the handler at index [i] of the
    waiting handlers awaits. *)
Inductive Step :=
| Deliver (e : VaultEvent)
| Settle (i : nat).

Section Tasks.
Context {W : Type} `{Host W}.

(** After [await this.app.vault.modify(file, updatedContent)]. *)
Definition finishWrite (file : TFile) (updatedContent : str) : Async W (Task W) :=
  _ ← modify file updatedContent;
  _ ← setIsUpdating false;
  mret Return.

(** [if (updatedContent !== content) { ... }], the end of both handlers. *)
Definition writeIfChanged (file : TFile) (content updatedContent : str)
    : Async W (Task W) :=
  if negb (strEqb updatedContent content) then
    _ ← setIsUpdating true;
    mret (Await (finishWrite file updatedContent))
  else mret Return.

(** [handleFileCreate], with its three [await]s: the delay, the read and
    the write. *)
Definition handleFileCreateTask (file : TFile) : Async W (Task W) :=
  updating ← getIsUpdating;
  skip ← (if updating : bool then mret true
          else editor (fun settings => shouldIgnoreFile settings file));
  if skip : bool then mret Return
  else
    mret (Await (
      _ ← delay 100;
      mret (Await (
        content ← read file;
        date ← currentDate;
        now ← editor (fun settings => Ok (formatDate settings date));
        updatedContent ← editor (fun settings => addFrontmatter settings content now now);
        writeIfChanged file content updatedContent)))).

(** [handleFileModify], with its two [await]s: the read and the write. *)
Definition handleFileModifyTask (file : TFile) : Async W (Task W) :=
  updating ← getIsUpdating;
  skip ← (if updating : bool then mret true
          else editor (fun settings => shouldIgnoreFile settings file));
  if skip : bool then mret Return
  else
    mret (Await (
      content ← read file;
      date ← currentDate;
      now ← editor (fun settings => Ok (formatDate settings date));
      updatedContent ← editor (fun settings => updateModifiedTime settings content now);
      writeIfChanged file content updatedContent)).

(** The two listeners registered in [onload]. *)
Definition listener (e : VaultEvent) : Async W (Task W) :=
  match e with
  | OnCreate file =>
      match isMarkdown file with
      | Some f => handleFileCreateTask f
      | None => mret Return
      end
  | OnModify file =>
      match isMarkdown file with
      | Some f => handleFileModifyTask f
      | None => mret Return
      end
  end.

(** A handler that has run up to an [await] joins the waiting handlers; one
    that has returned or thrown (an unhandled rejection) is gone. *)
Definition park (r : Outcome (Task W) * State W) (pool : list (Async W (Task W)))
    : State W * list (Async W (Task W)) :=
  match r with
  | (Ok (Await k), st) => (st, pool ++ [k])
  | (_, st) => (st, pool)
  end.

(** One step of the event loop on the plugin's state and the waiting
    handlers. *)
Definition step (s : Step) (c : State W * list (Async W (Task W)))
    : State W * list (Async W (Task W)) :=
  match s with
  | Deliver e => park (listener e (fst c)) (snd c)
  | Settle i =>
      match (snd c !! i : option (Async W (Task W))) with
      | Some k => park (k (fst c)) (delete i (snd c))
      | None => c
      end
  end.

Definition runSchedule (steps : list Step) (c : State W * list (Async W (Task W)))
    : State W * list (Async W (Task W)) :=
  fold_left (fun c s => step s c) steps c.

(** A handler whose promises settle one after the other, with no other
    handler in between. *)
Fixpoint complete (t : Task W) (st : State W) {struct t} : Outcome unit * State W :=
  match t with
  | Return => (Ok tt, st)
  | Await k =>
      match k st with
      | (Ok t', st') => complete t' st'
      | (Throws e, st') => (Throws e, st')
      | (Unmodelled, st') => (Unmodelled, st')
      end
  end.
End Tasks.

(* ===================================================================== *)
(** ** The stored settings and the settings tab *)
(* ===================================================================== *)

(** The data the host keeps for the plugin, as [loadData] returns it:
    [None] is [null] (nothing stored yet), otherwise an object that holds
    some of the four settings. *)
Record PluginData := mkPluginData {
  data_dateFormat : option str;
  data_createdKey : option str;
  data_modifiedKey : option str;
  data_ignorePatterns : option (list str)
}.

(** [loadSettings]: [Object.assign({}, DEFAULT_SETTINGS, data)] takes a
    setting from the stored object when it is there and from the defaults
    otherwise. *)
Definition loadSettings (data : option PluginData) : AutoTimestampSettings :=
  match data with
  | None => DEFAULT_SETTINGS
  | Some d =>
      mkSettings
        (default (dateFormat DEFAULT_SETTINGS) (data_dateFormat d))
        (default (createdKey DEFAULT_SETTINGS) (data_createdKey d))
        (default (modifiedKey DEFAULT_SETTINGS) (data_modifiedKey d))
        (default (ignorePatterns DEFAULT_SETTINGS) (data_ignorePatterns d))
  end.


(** [value || fallback] on strings: the empty string is falsy. *)
Definition orFallback (value fallback : str) : str :=
  match value with
  | [] => fallback
  | _ :: _ => value
  end.

(** [String.prototype.trim]: white space and line terminators are removed
    at both ends. *)
Fixpoint trimStart (s : str) : str :=
  match s with
  | [] => []
  | c :: s' => if isSpace c then trimStart s' else s
  end.

Fixpoint trimEnd (s : str) : str :=
  match s with
  | [] => []
  | c :: s' =>
      match trimEnd s' with
      | [] => if isSpace c then [] else [c]
      | t => c :: t
      end
  end.

Definition trim (s : str) : str := trimEnd (trimStart s).

(** The text area of the ignore patterns: it shows
    [ignorePatterns.join("\n")], and a change stores
    [value.split("\n").map((p) => p.trim()).filter((p) => p.length > 0)]. *)
Definition shownIgnorePatterns (s : AutoTimestampSettings) : str :=
  joinLines (ignorePatterns s).

Definition enteredIgnorePatterns (value : str) : list str :=
  List.filter (fun p => (0 <? length p)%nat) (map trim (splitLines value)).

(** The [onChange] callbacks of the four fields of the tab. *)
Inductive TabEdit :=
| DateFormatChange (value : str)
| CreatedKeyChange (value : str)
| ModifiedKeyChange (value : str)
| IgnorePatternsChange (value : str).

Definition applyEdit (e : TabEdit) (s : AutoTimestampSettings) : AutoTimestampSettings :=
  match e with
  | DateFormatChange value =>
      mkSettings (orFallback value "yyyyMMddHHmmss") (createdKey s) (modifiedKey s)
        (ignorePatterns s)
  | CreatedKeyChange value =>
      mkSettings (dateFormat s) (orFallback value "created") (modifiedKey s)
        (ignorePatterns s)
  | ModifiedKeyChange value =>
      mkSettings (dateFormat s) (createdKey s) (orFallback value "modified")
        (ignorePatterns s)
  | IgnorePatternsChange value =>
      mkSettings (dateFormat s) (createdKey s) (modifiedKey s)
        (enteredIgnorePatterns value)
  end.




(* ===================================================================== *)
(** ** Specification vocabulary *)
(* ===================================================================== *)

(** [p] occurs in [s] between [before] and [after], and nowhere earlier. *)
Definition FirstOccurrence (p s before after : str) : Prop :=
  s = before ++ p ++ after /\
  forall b a, s = b ++ p ++ a -> length before <= length b.

Definition NoOccurrence (p s : str) : Prop :=
  forall b a, s <> b ++ p ++ a.

(** [s'] is [s] with the first occurrence of [token] replaced by [value];
    [s] itself when [token] does not occur. *)
Definition ReplacedFirst (token value s s' : str) : Prop :=
  (NoOccurrence token s /\ s' = s) \/
  (exists before after,
      FirstOccurrence token s before after /\ s' = before ++ value ++ after).

(** The pattern of a literal text [p] followed by [r]. *)
Fixpoint lits (p : str) (r : Regex) : Regex :=
  match p with
  | [] => r
  | c :: p' => RSeq (RChar c) (lits p' r)
  end.

(** The class [[\s\S]] matches every code unit. *)
Definition anyChar : Regex := RClass false [CiSpace true; CiSpace false].

(** The frontmatter block as text: the document starts with ["---\n"] and
    the block's inner text runs up to the first ["\n---"] after that. *)
Definition frontmatterSplit (content : str) : option (str * str) :=
  if startsWith ("---" ++ nl) content
  then splitAtFirst (nl ++ "---") (drop 4 content)
  else None.

(** A text without syntax characters of the pattern grammar: as a pattern
    it stands for itself. *)
Definition isPlain (s : str) : bool :=
  forallb (fun c => negb (isSyntaxCharacter c)) s.

Definition quantifierAhead (s : str) : bool :=
  match s with
  | c :: _ => existsb (Ascii.eqb c) "*+?{"
  | [] => false
  end.

(** The end of an alternative: the end of the pattern or a closing
    parenthesis. *)
Definition closes (tail : str) : Prop :=
  tail = [] \/ exists t, tail = ")"%char :: t.

(** A position is at the start of a line when nothing or a line terminator
    comes before it ([^] with the [m] flag); [b] is the text before the
    position, reversed. *)
Definition atLineStart (b : str) : bool :=
  match b with
  | [] => true
  | x :: _ => isLineTerminator x
  end.

(** The first position at the start of a line where [p] occurs: the text
    before it and the text after the occurrence. *)
Fixpoint findLine (p b a : str) : option (str * str) :=
  if atLineStart b && startsWith p a then Some (rev b, drop (length p) a)
  else match a with
       | [] => None
       | x :: a' => findLine p (x :: b) a'
       end.

(** The rest of the current line, and the text from its terminator on. *)
Fixpoint lineOf (a : str) : str :=
  match a with
  | [] => []
  | x :: a' => if isLineTerminator x then [] else x :: lineOf a'
  end.

Fixpoint afterLine (a : str) : str :=
  match a with
  | [] => []
  | x :: a' => if isLineTerminator x then a else afterLine a'
  end.

Definition keyLinePattern (p : str) : Regex :=
  RSeq RBol
    (RSeq (RGroup 0 (lits p REmpty))
       (RSeq (RRepeat 0 None true RDot) (RSeq REol REmpty))).

(** Whether a line of [fm] starts with [key:]. *)
Definition hasKeyLine (key fm : str) : bool :=
  match findLine (key ++ ":") [] fm with
  | Some _ => true
  | None => false
  end.

(** The frontmatter after the created check: the line is put first when
    no line starts with [key:]. *)
Definition withCreated (key value fm : str) : str :=
  if hasKeyLine key fm then fm else key ++ ": " ++ value ++ nl ++ fm.

(** The frontmatter after the modified check of [addFrontmatter]: the line
    is put last when no line starts with [key:]. *)
Definition withModified (key value fm : str) : str :=
  if hasKeyLine key fm then fm else fm ++ nl ++ key ++ ": " ++ value.

(** The frontmatter after the modified update of [updateModifiedTime]: the
    first line that starts with [key:] gets the new value, or the line is
    put last. *)
Definition setKeyLine (key value fm : str) : str :=
  match findLine (key ++ ":") [] fm with
  | Some (pre, post) => pre ++ (key ++ ":") ++ " " ++ value ++ afterLine post
  | None => fm ++ nl ++ key ++ ": " ++ value
  end.

(** The text [before] ends a line: it is empty or its last code unit is a
    line terminator. *)
Definition EndsLine (before : str) : Prop :=
  before = [] \/ exists b x, before = b ++ [x] /\ isLineTerminator x = true.

(** A line of [fm] starts with [key:], right after [before]. *)
Definition KeyLineAt (key fm before after : str) : Prop :=
  fm = before ++ (key ++ ":") ++ after /\ EndsLine before.

Definition HasKeyLine (key fm : str) : Prop :=
  exists before after, KeyLineAt key fm before after.

Definition FirstKeyLine (key fm before after : str) : Prop :=
  KeyLineAt key fm before after /\
  forall b a, KeyLineAt key fm b a -> length before <= length b.

(** The wire format in the specification's words: the first line is
    exactly [---] and a later line is exactly [---]. *)
Definition specHasFrontmatter (content : str) : bool :=
  match splitLines content with
  | first :: later => strEqb first "---" && existsb (fun l => strEqb l "---") later
  | [] => false
  end.

(** The number a decimal numeral denotes. *)
Definition decimalValue (s : str) : Z :=
  fold_left (fun acc c => 10 * acc + Z.of_nat (digitValue c))%Z s 0%Z.

Definition parseDecimal (s : str) : Z :=
  match s with
  | "-"%char :: ds => (- decimalValue ds)%Z
  | _ => decimalValue s
  end.

(** The two digits of a number below 100. *)
Definition twoDigits (n : Z) : str :=
  [digitChar (Z.to_N (n / 10)); digitChar (Z.to_N (n mod 10))].


(** The pattern matches a part of [s] that starts at index [i]. *)
Definition MatchesAt (re : RegExp) (s : str) (i : nat) : Prop :=
  matcher (re_multiline re) (re_pattern re) (rev (take i s)) (drop i s)
    (replicate (re_groups re) None) finalContinuation <> None.

(** With the regular expressions of an engine: the pattern compiles and
    its matcher succeeds at some index of [s]. *)
Definition MatchesWith {R : Type} (compile : str -> Outcome R)
    (matcherAt : R -> str -> nat -> bool) (pattern s : str) : Prop :=
  exists re, compile pattern = Ok re /\
             (exists i, i <= length s /\ matcherAt re s i = true).

(** The pattern compiles and its matcher succeeds at no index of [s]. *)
Definition FailsWith {R : Type} (compile : str -> Outcome R)
    (matcherAt : R -> str -> nat -> bool) (pattern s : str) : Prop :=
  exists re, compile pattern = Ok re /\
             (forall i, i <= length s -> matcherAt re s i = false).

(** The pattern, compiled without flags, matches somewhere in [s]. *)
Definition PatternMatches (pattern s : str) : Prop :=
  exists re, newRegExp pattern false = Ok re /\ test re s = true.

(** A host for running the handlers on examples: files in memory, a clock
    that stands still, and storage that refuses to write the files that are
    locked. *)
Record MemoryVault := mkMemoryVault {
  mv_files : gmap (list ascii) (list ascii);
  mv_clock : Date;
  mv_locked : list str
}.

#[global] Instance memoryHost : Host MemoryVault := {|
  vaultRead file w :=
    match mv_files w !! path file with
    | Some data => Ok data
    | None => Throws HostFailure
    end;
  vaultModify file data w :=
    if existsb (strEqb (path file)) (mv_locked w)
    then (Throws HostFailure, w)
    else (Ok tt, mkMemoryVault (<[path file := data]> (mv_files w)) (mv_clock w)
                               (mv_locked w));
  newDate w := mv_clock w
|}.





(** A vault with one new note, which can be written. *)
Definition newNote : State MemoryVault :=
  mkState DEFAULT_SETTINGS false
    (mkMemoryVault {[ ("note.md" : list ascii) := ("# Note" : list ascii) ]}
                   (mkDate 2024 11 29 14 30 52) [])
    [].


(** A text without line terminators. *)
Definition isOneLine (s : str) : bool :=
  forallb (fun c => negb (isLineTerminator c)) s.

(** A key name as YAML front matter has it: no pattern syntax character,
    no colon, no line terminator, and no three dashes in front. *)
Definition isKeyName (k : str) : bool :=
  isPlain k && isOneLine k && forallb (fun c => negb (Ascii.eqb c ":")) k
  && negb (startsWith "---" k).

(** A timestamp value: one line without a dollar sign. *)
Definition isValue (v : str) : bool :=
  isOneLine v && forallb (fun c => negb (Ascii.eqb c "$")) v.

(** No line of the text, after the first, starts with three dashes: the
    text holds no line feed followed by [---]. *)
Fixpoint dashLineFree (s : str) : bool :=
  match s with
  | [] => true
  | c :: s' =>
      (if Ascii.eqb c LF then negb (startsWith "---" s') else true) && dashLineFree s'
  end.

(** The result of [findLine], moved behind the text [pfx]. *)
Definition shift (pfx : str) (r : option (str * str)) : option (str * str) :=
  match r with
  | Some (pre, post) => Some (pfx ++ pre, post)
  | None => None
  end.

(** The block of the document, when there is one, holds no dollar sign
    and does not start with three dashes. *)
Definition QuietBlock (content : str) : Prop :=
  forall m, exec frontmatterRegex content = Some m ->
            ("$"%char ∉ group1 m) /\ startsWith "---" (group1 m) = false.

(** A text of white space only. *)
Definition isBlank (s : str) : bool := forallb isSpace s.

(** An ignore pattern as the tab stores it: not empty, without line feed,
    and without white space at either end. *)
Definition CleanPattern (p : str) : Prop :=
  p <> [] /\ (LF ∉ p) /\
  (forall c t, p = c :: t -> isSpace c = false) /\
  (forall t c, p = t ++ [c] -> isSpace c = false).

(** The components of a valid [Date], as its getters give them: the month
    counts from 0. *)
Definition inRange (date : Date) : Prop :=
  (0 <= getMonth date <= 11)%Z /\ (1 <= getDate date <= 31)%Z /\
  (0 <= getHours date <= 23)%Z /\ (0 <= getMinutes date <= 59)%Z /\
  (0 <= getSeconds date <= 59)%Z.

(** The text [p] occurs in [s]. *)
Definition Occurs (p s : str) : Prop :=
  exists before after, s = before ++ p ++ after.

(** A text made of digits and minus signs, as [toString] writes a number. *)
Definition isNumeral (s : str) : bool :=
  forallb (fun c => isDigit c || Ascii.eqb c "-") s.

(** Whether [p] occurs in [s] ([String.prototype.includes]). *)
Definition includes (p s : str) : bool :=
  match splitAtFirst p s with
  | Some _ => true
  | None => false
  end.

(** The file an event is about. *)
Definition eventFile (e : VaultEvent) : TAbstractFile :=
  match e with
  | OnCreate file => file
  | OnModify file => file
  end.

Section HandlerVocabulary.
Context {W : Type} `{Host W}.

(** The timestamp a handler computes in the state [st]. *)
Definition stamp (st : State W) : str :=
  formatDate (settings st) (newDate (world st)).

(** What a handler did to storage: the calls it added, none of them a
    write unless the editor's result [d] for the content read differs from
    that content; without a write the host is left as it was. *)
Definition WritesOnlyChanges (edit : AutoTimestampSettings -> str -> str -> Outcome str)
    (file : TFile) (st st' : State W) : Prop :=
  exists new,
    calls st' = new ++ calls st /\
    (forall f d, CallModify f d ∈ new ->
       f = file /\
       exists content,
         vaultRead file (world st) = Ok content /\
         edit (settings st) content (stamp st) = Ok d /\
         d <> content) /\
    ((forall f d, CallModify f d ∉ new) -> world st' = world st) /\
    (forall content,
        vaultRead file (world st) = Ok content ->
        edit (settings st) content (stamp st) = Ok content ->
        (forall f d, CallModify f d ∉ new) /\ world st' = world st).

(** The state a handler leaves when its write throws: the flag is set, the
    host is as the failed write left it, and the read and the write are
    recorded. *)
Definition afterFailedWrite (file : TFile) (updated : str) (w' : W) (st : State W)
    : State W :=
  mkState (settings st) true w' (CallModify file updated :: CallRead file :: calls st).

(** The state after a handler has read [file] and done nothing else. *)
Definition afterRead (file : TFile) (st : State W) : State W :=
  mkState (settings st) (isUpdating st) (world st) (CallRead file :: calls st).

(** The state after a handler has read [file] and written [updated], with
    [w'] the host after the write: the flag is reset. *)
Definition afterWrite (file : TFile) (updated : str) (w' : W) (st : State W) : State W :=
  mkState (settings st) false w' (CallModify file updated :: CallRead file :: calls st).
End HandlerVocabulary.

(* ===================================================================== *)
(** * Lemmas and theorems *)
(* ===================================================================== *)

(* ===================================================================== *)
(** ** Lemmas on strings *)
(* ===================================================================== *)

Lemma ascii_eqb_true (x y : ascii) : Ascii.eqb x y = true <-> x = y.
Proof. apply Ascii.eqb_eq. Qed.

Lemma startsWith_prefix (p s : str) :
  startsWith p s = true <-> exists t, s = p ++ t.
Proof.
  revert s. induction p as [|x p IH]; intros s; simpl.
  - split; [intros _; by exists s | done].
  - destruct s as [|y s].
    + split; [done | intros [t Ht]; discriminate].
    + rewrite andb_true_iff, ascii_eqb_true, IH. split.
      * intros [-> [t ->]]. by exists t.
      * intros [t Ht]. injection Ht as -> ->. split; [done | by exists t].
Qed.

Lemma startsWith_app (p t : str) : startsWith p (p ++ t) = true.
Proof. apply startsWith_prefix. by exists t. Qed.

Lemma startsWith_drop (p s : str) :
  startsWith p s = true -> s = p ++ drop (length p) s.
Proof.
  intros [t ->]%startsWith_prefix. by rewrite drop_app_length.
Qed.

Lemma startsWith_false (p s : str) :
  startsWith p s = false <-> forall t, s <> p ++ t.
Proof.
  split.
  - intros Hf t Ht. assert (startsWith p s = true) as Ht'.
    { apply startsWith_prefix. by exists t. }
    congruence.
  - intros Hn. destruct (startsWith p s) eqn:E; [|done].
    apply startsWith_prefix in E as [t Ht]. by destruct (Hn t).
Qed.

Lemma strEqb_eq (s t : str) : strEqb s t = true <-> s = t.
Proof.
  revert t. induction s as [|x s IH]; intros [|y t]; simpl; try done.
  rewrite andb_true_iff, ascii_eqb_true, IH. split.
  - by intros [-> ->].
  - intros Heq. by injection Heq.
Qed.

Lemma strEqb_refl (s : str) : strEqb s s = true.
Proof. by apply strEqb_eq. Qed.

Lemma strEqb_neq (s t : str) : strEqb s t = false <-> s <> t.
Proof.
  rewrite <- strEqb_eq. destruct (strEqb s t); split; congruence.
Qed.

Lemma splitAtFirst_Some (p s before after : str) :
  splitAtFirst p s = Some (before, after) -> FirstOccurrence p s before after.
Proof.
  revert before after. induction s as [|c s IH]; intros before after.
  - simpl. destruct (startsWith p []) eqn:E; [|done].
    intros [= <- <-]. split.
    + simpl. by apply startsWith_drop in E.
    + intros b a _. simpl. lia.
  - cbn [splitAtFirst]. destruct (startsWith p (c :: s)) eqn:E.
    + intros [= <- <-]. split.
      * rewrite app_nil_l. by apply startsWith_drop.
      * intros b a _. simpl. lia.
    + destruct (splitAtFirst p s) as [[pre post]|] eqn:Es; [|done].
      intros [= <- <-]. destruct (IH pre post eq_refl) as [Hs Hmin]. split.
      * simpl. by rewrite Hs.
      * intros [|c' b] a Hb.
        -- rewrite app_nil_l in Hb. apply startsWith_false with (t := a) in E.
           by destruct E.
        -- injection Hb as -> Hb. apply Hmin in Hb. simpl. lia.
Qed.

Lemma splitAtFirst_None (p s : str) :
  splitAtFirst p s = None -> NoOccurrence p s.
Proof.
  induction s as [|c s IH]; cbn [splitAtFirst].
  - destruct (startsWith p []) eqn:E; [done|]. intros _ b a Hb.
    destruct b; [|done]. rewrite app_nil_l in Hb.
    apply startsWith_false with (t := a) in E. by destruct E.
  - destruct (startsWith p (c :: s)) eqn:E; [done|].
    destruct (splitAtFirst p s) as [[pre post]|] eqn:Es; [done|].
    intros _ [|c' b] a Hb.
    + rewrite app_nil_l in Hb. apply startsWith_false with (t := a) in E.
      by destruct E.
    + injection Hb as -> Hb. by apply (IH eq_refl b a).
Qed.

Lemma FirstOccurrence_unique (p s b1 a1 b2 a2 : str) :
  FirstOccurrence p s b1 a1 -> FirstOccurrence p s b2 a2 -> b1 = b2 /\ a1 = a2.
Proof.
  intros [H1 M1] [H2 M2].
  assert (length b1 = length b2) as Hlen.
  { apply Nat.le_antisymm; [by apply (M1 b2 a2) | by apply (M2 b1 a1)]. }
  rewrite H1 in H2.
  apply app_inj_1 in H2 as [-> H2]; [|done].
  apply app_inv_head in H2. done.
Qed.

Lemma splitAtFirst_first (p s before after : str) :
  FirstOccurrence p s before after -> splitAtFirst p s = Some (before, after).
Proof.
  intros Hf. destruct (splitAtFirst p s) as [[b a]|] eqn:E.
  - apply splitAtFirst_Some in E.
    destruct (FirstOccurrence_unique _ _ _ _ _ _ E Hf) as [-> ->]. done.
  - apply splitAtFirst_None in E. destruct Hf as [Hs _]. by destruct (E before after).
Qed.

Lemma splitAtFirst_spec (p s : str) :
  match splitAtFirst p s with
  | Some (before, after) => FirstOccurrence p s before after
  | None => NoOccurrence p s
  end.
Proof.
  destruct (splitAtFirst p s) as [[b a]|] eqn:E.
  - by apply splitAtFirst_Some.
  - by apply splitAtFirst_None.
Qed.

Lemma getSubstitution_plain (before matched after : str) (caps : Captures) (t : str) :
  "$"%char ∉ t -> getSubstitution before matched after caps t = t.
Proof.
  induction t as [|c t IH]; [done|].
  intros [Hc Ht]%not_elem_of_cons. specialize (IH Ht).
  destruct c as [[] [] [] [] [] [] [] []]; simpl; by rewrite ?IH.
Qed.

Lemma replaceStr_spec (s token value : str) :
  "$"%char ∉ value -> ReplacedFirst token value s (replaceStr s token value).
Proof.
  intros Hv. unfold replaceStr.
  pose proof (splitAtFirst_spec token s) as Hs.
  destruct (splitAtFirst token s) as [[before after]|].
  - right. exists before, after. split; [done|].
    by rewrite getSubstitution_plain.
  - by left.
Qed.

(* ===================================================================== *)
(** ** Lemmas on the matcher *)
(* ===================================================================== *)

(** The matcher on examples of the ECMAScript specification (notes of
    22.2.2.3 and 22.2.2.7): alternatives are tried from the left, a group
    that did not take part is undefined, and an iteration that matches the
    empty text ends a loop. *)
Example matcher_examples :
  (re ← newRegExp "a|ab" false; Ok (exec re "abc"))
  = Ok (Some (mkMatch [] "a" "bc" [])) /\
  (re ← newRegExp "((a)|(ab))((c)|(bc))" false; Ok (exec re "abc"))
  = Ok (Some (mkMatch [] "abc" []
                [Some "a"; Some "a"; None; Some "bc"; None; Some "bc"])) /\
  (re ← newRegExp "(z)((a+)?(b+)?(c))*" false; Ok (exec re "zaacbbbcac"))
  = Ok (Some (mkMatch [] "zaacbbbcac" []
                [Some "z"; Some "ac"; Some "a"; None; Some "c"])) /\
  (re ← newRegExp "(a*)*" false; Ok (exec re "b"))
  = Ok (Some (mkMatch [] [] "b" [None])) /\
  (re ← newRegExp "\.excalidraw\.md$" false; Ok (test re "draw/a.excalidraw.md"))
  = Ok true.
Proof. by vm_compute. Qed.

Lemma matcher_lits (ml : bool) (p : str) (r : Regex) (b a : str) (cs : Captures)
    (k : Continuation) :
  matcher ml (lits p r) b a cs k =
  if startsWith p a then matcher ml r (rev p ++ b) (drop (length p) a) cs k else None.
Proof.
  revert b a. induction p as [|c p IH]; intros b a; [done|].
  cbn [lits matcher startsWith]. destruct a as [|x a]; [done|].
  rewrite Ascii.eqb_sym. destruct (Ascii.eqb c x) eqn:E; [|done].
  apply ascii_eqb_true in E as ->. rewrite IH. cbn [andb rev length drop].
  by rewrite <- app_assoc.
Qed.

Lemma matcher_seq (ml : bool) (r1 r2 : Regex) (b a : str) (cs : Captures)
    (k : Continuation) :
  matcher ml (RSeq r1 r2) b a cs k =
  matcher ml r1 b a cs (fun b' a' cs' => matcher ml r2 b' a' cs' k).
Proof. reflexivity. Qed.

Lemma matcher_group (ml : bool) (i : nat) (r : Regex) (b a : str) (cs : Captures)
    (k : Continuation) :
  matcher ml (RGroup i r) b a cs k =
  matcher ml r b a cs
    (fun b' a' cs' => k b' a' (<[i := Some (take (length a - length a') a)]> cs')).
Proof. reflexivity. Qed.

Lemma matcher_empty (ml : bool) (b a : str) (cs : Captures) (k : Continuation) :
  matcher ml REmpty b a cs k = k b a cs.
Proof. reflexivity. Qed.

Lemma matcher_bol (ml : bool) (b a : str) (cs : Captures) (k : Continuation) :
  matcher ml RBol b a cs k =
  match b with
  | [] => k b a cs
  | x :: _ => if ml && isLineTerminator x then k b a cs else None
  end.
Proof. reflexivity. Qed.

Lemma matcher_eol (ml : bool) (b a : str) (cs : Captures) (k : Continuation) :
  matcher ml REol b a cs k =
  match a with
  | [] => k b a cs
  | x :: _ => if ml && isLineTerminator x then k b a cs else None
  end.
Proof. reflexivity. Qed.

Lemma classMatches_any (x : ascii) :
  classMatches false [CiSpace true; CiSpace false] x = true.
Proof. unfold classMatches. simpl. by destruct (isSpace x). Qed.

(** One step of the lazy loop [[\s\S]*?]: the continuation first, then one
    more code unit. *)
Lemma matcher_lazy_any (ml : bool) (b a : str) (cs : Captures) (k : Continuation) :
  matcher ml (RRepeat 0 None false anyChar) b a cs k =
  orElse (k b a cs)
    (match a with
     | x :: a' => matcher ml (RRepeat 0 None false anyChar) (x :: b) a' cs k
     | [] => None
     end).
Proof.
  destruct a as [|x a]; [done|].
  cbn -[classMatches Nat.eqb]. rewrite classMatches_any.
  replace (length a =? S (length a))%nat with false; [done|].
  symmetry. apply Nat.eqb_neq. lia.
Qed.

(** One step of the greedy loop [.*]: one more code unit of the line
    first, then the continuation. *)
Lemma matcher_greedy_dot (ml : bool) (b a : str) (cs : Captures) (k : Continuation) :
  matcher ml (RRepeat 0 None true RDot) b a cs k =
  match a with
  | x :: a' =>
      if isLineTerminator x then k b a cs
      else orElse (matcher ml (RRepeat 0 None true RDot) (x :: b) a' cs k) (k b a cs)
  | [] => k b a cs
  end.
Proof.
  destruct a as [|x a]; [done|].
  cbn -[isLineTerminator Nat.eqb]. destruct (isLineTerminator x); [done|].
  replace (length a =? S (length a))%nat with false; [done|].
  symmetry. apply Nat.eqb_neq. lia.
Qed.

(** The lazy loop in front of a continuation that accepts exactly the
    positions where the text [p] starts: the match ends after the first
    occurrence of [p]. *)
Lemma matcher_lazy_any_search (ml : bool) (p : str) (f : str -> Captures -> MatchEnd)
    (k : Continuation) (cs : Captures) :
  (forall b a, k b a cs = if startsWith p a then Some (f a cs) else None) ->
  forall b a,
    matcher ml (RRepeat 0 None false anyChar) b a cs k =
    match splitAtFirst p a with
    | Some (_, after) => Some (f (p ++ after) cs)
    | None => None
    end.
Proof.
  intros Hk b a. revert b. induction a as [|x a IH]; intros b.
  - rewrite matcher_lazy_any, Hk. cbn [splitAtFirst].
    destruct (startsWith p []) eqn:E; [|done].
    cbn [orElse]. by rewrite <- (startsWith_drop _ _ E).
  - rewrite matcher_lazy_any, Hk, IH. cbn [splitAtFirst].
    destruct (startsWith p (x :: a)) eqn:E.
    + cbn [orElse]. by rewrite <- (startsWith_drop _ _ E).
    + cbn [orElse]. by destruct (splitAtFirst p a) as [[pre post]|].
Qed.

Lemma frontmatterRegex_literal :
  newRegExp "^---\n([\s\S]*?)\n---" false = Ok frontmatterRegex.
Proof. reflexivity. Qed.

Lemma frontmatterRegex_shape :
  frontmatterRegex =
  mkRegExp
    (RSeq RBol
       (lits ("---" ++ nl)
          (RSeq (RGroup 0 (RSeq (RRepeat 0 None false anyChar) REmpty))
             (lits (nl ++ "---") REmpty))))
    1 false.
Proof. reflexivity. Qed.

(** A pattern that starts with [^], without the [m] flag, matches at index
    0 only. *)
Lemma execFrom_anchored (r : Regex) (g : nat) (x : ascii) (b a : str) :
  execFrom (mkRegExp (RSeq RBol r) g false) (x :: b) a = None.
Proof.
  revert x b. induction a as [|y a IH]; intros x b; [done|].
  cbn [execFrom re_multiline re_pattern]. rewrite matcher_seq, matcher_bol.
  cbn [andb]. apply IH.
Qed.

Lemma take_before (before rest : str) :
  take (length (before ++ rest) - length rest) (before ++ rest) = before.
Proof.
  rewrite length_app. replace (length before + length rest - length rest)
    with (length before) by lia.
  by rewrite take_app_length.
Qed.

Lemma exec_frontmatterRegex (content : str) :
  exec frontmatterRegex content =
  match frontmatterSplit content with
  | Some (fm, rest) =>
      Some (mkMatch [] ("---" ++ nl ++ fm ++ nl ++ "---") rest [Some fm])
  | None => None
  end.
Proof.
  unfold exec. rewrite frontmatterRegex_shape.
  set (p1 := "---" ++ nl). set (p2 := nl ++ "---").
  assert (matcher false
            (RSeq RBol (lits p1 (RSeq (RGroup 0 (RSeq (RRepeat 0 None false anyChar) REmpty))
                                   (lits p2 REmpty))))
            [] content [None] finalContinuation
          = match frontmatterSplit content with
            | Some (fm, rest) => Some (rest, [Some fm])
            | None => None
            end) as Hm.
  { rewrite matcher_seq, matcher_bol, matcher_lits. unfold frontmatterSplit. fold p1 p2.
    destruct (startsWith p1 content) eqn:E; [|done].
    rewrite matcher_seq, matcher_group, matcher_seq.
    rewrite (matcher_lazy_any_search false p2
               (fun a' cs' =>
                  (drop 4 a',
                   <[0%nat := Some (take (length (drop (length p1) content) - length a')
                                 (drop (length p1) content))]> cs'))).
    - change (length p1) with 4%nat.
      pose proof (splitAtFirst_spec p2 (drop 4 content)) as Hs.
      destruct (splitAtFirst p2 (drop 4 content)) as [[fm rest]|]; [|done].
      destruct Hs as [Hs _]. rewrite Hs.
      rewrite take_before. done.
    - intros b a. rewrite matcher_empty, matcher_lits.
      by destruct (startsWith p2 a). }
  destruct content as [|c content].
  - done.
  - cbn [execFrom re_multiline re_pattern re_groups replicate].
    rewrite Hm. rewrite execFrom_anchored.
    unfold frontmatterSplit. fold p1 p2.
    destruct (startsWith p1 (c :: content)) eqn:E; [|done].
    pose proof (splitAtFirst_spec p2 (drop 4 (c :: content))) as Hs.
    destruct (splitAtFirst p2 (drop 4 (c :: content))) as [[fm rest]|]; [|done].
    destruct Hs as [Hs _].
    apply startsWith_drop in E. change (length p1) with 4%nat in E.
    rewrite Hs in E. f_equal. f_equal.
    rewrite E.
    replace (p1 ++ fm ++ p2 ++ rest) with ((p1 ++ fm ++ p2) ++ rest)
      by (by rewrite <- !app_assoc).
    by rewrite take_before.
Qed.

(* ===================================================================== *)
(** ** Patterns built from a key name *)
(* ===================================================================== *)

Lemma parseQuantifier_none (r : Regex) (s : str) (g : nat) :
  quantifierAhead s = false -> parseQuantifier r s g = POk r s g.
Proof.
  destruct s as [|c s]; [done|].
  destruct c as [[] [] [] [] [] [] [] []]; done.
Qed.

Lemma parseTerm_plain (fuel : nat) (c : ascii) (s : str) (g : nat) :
  isSyntaxCharacter c = false ->
  parseTerm (S fuel) (c :: s) g = parseQuantifier (RChar c) s g.
Proof. destruct c as [[] [] [] [] [] [] [] []]; done. Qed.

Lemma parseAlternative_plain_step (fuel : nat) (c : ascii) (s : str) (g : nat) :
  isSyntaxCharacter c = false ->
  parseAlternative (S fuel) (c :: s) g =
  match parseTerm fuel (c :: s) g with
  | POk t s' g' =>
      match parseAlternative fuel s' g' with
      | POk r s'' g'' => POk (RSeq t r) s'' g''
      | e => e
      end
  | e => e
  end.
Proof. destruct c as [[] [] [] [] [] [] [] []]; done. Qed.

Lemma quantifierAhead_plain (c : ascii) (s : str) :
  isSyntaxCharacter c = false -> quantifierAhead (c :: s) = false.
Proof. destruct c as [[] [] [] [] [] [] [] []]; done. Qed.

Lemma closes_quantifierAhead (tail : str) : closes tail -> quantifierAhead tail = false.
Proof. by intros [-> | [t ->]]. Qed.

Lemma parseAlternative_plain (p tail : str) (g fuel : nat) :
  isPlain p = true -> closes tail -> length p + 2 <= fuel ->
  parseAlternative fuel (p ++ tail) g = POk (lits p REmpty) tail g.
Proof.
  intros Hp Ht. revert fuel. induction p as [|c p IH]; intros fuel Hf.
  - destruct fuel as [|fuel]; [simpl in Hf; lia|].
    by destruct Ht as [-> | [t ->]].
  - simpl in Hp. apply andb_true_iff in Hp as [Hc Hp].
    apply negb_true_iff in Hc. simpl in Hf.
    destruct fuel as [|[|fuel]]; [lia | lia |].
    cbn [app]. rewrite parseAlternative_plain_step by done.
    rewrite parseTerm_plain by done.
    rewrite parseQuantifier_none.
    + rewrite (IH Hp) by (simpl; lia). done.
    + destruct p as [|c' p].
      * by apply closes_quantifierAhead.
      * simpl in Hp. apply andb_true_iff in Hp as [Hc' _].
        apply negb_true_iff in Hc'. by apply quantifierAhead_plain.
Qed.

Lemma isPlain_app (s t : str) : isPlain (s ++ t) = isPlain s && isPlain t.
Proof. apply forallb_app. Qed.

Lemma parseDisjunction_closed (fuel : nat) (s : str) (g g' : nat) (r : Regex) (tail : str) :
  parseAlternative fuel s g = POk r tail g' -> closes tail ->
  parseDisjunction (S fuel) s g = POk r tail g'.
Proof.
  intros Ha Ht. cbn [parseDisjunction]. rewrite Ha.
  by destruct Ht as [-> | [t ->]].
Qed.

Lemma parseAlternative_bol (fuel : nat) (s : str) (g : nat) :
  parseAlternative (S (S fuel)) ("^"%char :: s) g =
  match parseAlternative (S fuel) s g with
  | POk r s' g' => POk (RSeq RBol r) s' g'
  | e => e
  end.
Proof. reflexivity. Qed.

Lemma parse_key (p : str) (fuel : nat) :
  isPlain p = true -> length p + 1 <= fuel ->
  parseDisjunction (S (S (S fuel))) ("^"%char :: p) 0
  = POk (RSeq RBol (lits p REmpty)) [] 0.
Proof.
  intros Hp Hf. apply parseDisjunction_closed; [|by left].
  rewrite parseAlternative_bol.
  rewrite <- (app_nil_r p) at 1.
  rewrite parseAlternative_plain; [done | done | by left | lia].
Qed.

(** [new RegExp(`^${key}:`, "m")] for a plain key. *)
Lemma newRegExp_key (key : str) :
  isPlain key = true ->
  newRegExp ("^" ++ key ++ ":") true
  = Ok (mkRegExp (RSeq RBol (lits (key ++ ":") REmpty)) 0 true).
Proof.
  intros Hk. unfold newRegExp.
  assert (isPlain (key ++ ":") = true) as Hp by (by rewrite isPlain_app, Hk).
  set (p := key ++ ":") in *.
  change ("^" ++ p) with ("^"%char :: p).
  replace (3 * length ("^"%char :: p) + 3) with (S (S (S (3 * length p + 3))))
    by (simpl; lia).
  rewrite parse_key; [done | done | lia].
Qed.

Lemma parseAlternative_group (fuel : nat) (c : ascii) (s tail : str) (r : Regex) (g' : nat) :
  c <> "?"%char ->
  parseDisjunction fuel (c :: s) 1 = POk r (")"%char :: tail) g' ->
  parseAlternative (S (S fuel)) ("("%char :: c :: s) 0 =
  match parseQuantifier (RGroup 0 r) tail g' with
  | POk t s' g'' =>
      match parseAlternative (S fuel) s' g'' with
      | POk r' s'' g''' => POk (RSeq t r') s'' g'''
      | e => e
      end
  | e => e
  end.
Proof.
  intros Hc Hd. cbn [parseAlternative parseTerm].
  destruct c as [[] [] [] [] [] [] [] []]; try (by destruct Hc); by rewrite Hd.
Qed.

Lemma parse_keyLine (p : str) (fuel : nat) :
  isPlain p = true -> length p + 3 <= fuel ->
  parseDisjunction (S (S (S (S fuel)))) ("^"%char :: "("%char :: p ++ ").*$") 0
  = POk (RSeq RBol
           (RSeq (RGroup 0 (lits p REmpty))
              (RSeq (RRepeat 0 None true RDot) (RSeq REol REmpty)))) [] 1.
Proof.
  intros Hp Hf. apply parseDisjunction_closed; [|by left].
  rewrite parseAlternative_bol.
  assert (exists c s, p ++ ").*$" = c :: s /\ c <> "?"%char) as (c & s & Hs & Hc).
  { destruct p as [|c p']; [by exists ")"%char, ".*$" |].
    exists c, (p' ++ ").*$"). split; [done|]. intros ->. done. }
  rewrite Hs.
  destruct fuel as [|[|[|fuel]]]; [lia..|].
  rewrite (parseAlternative_group _ c s ".*$" (lits p REmpty) 1 Hc).
  - done.
  - rewrite <- Hs. apply parseDisjunction_closed; [|right; by eexists].
    apply parseAlternative_plain; [done | right; by eexists | lia].
Qed.

(** [new RegExp(`^(${key}:).*$`, "m")] for a plain key. *)
Lemma newRegExp_keyLine (key : str) :
  isPlain key = true ->
  newRegExp ("^(" ++ key ++ ":).*$") true
  = Ok (mkRegExp
          (RSeq RBol
             (RSeq (RGroup 0 (lits (key ++ ":") REmpty))
                (RSeq (RRepeat 0 None true RDot) (RSeq REol REmpty))))
          1 true).
Proof.
  intros Hk. unfold newRegExp.
  assert (isPlain (key ++ ":") = true) as Hp by (by rewrite isPlain_app, Hk).
  replace ("^(" ++ key ++ ":).*$") with ("^"%char :: "("%char :: (key ++ ":") ++ ").*$")
    by (by rewrite <- app_assoc).
  set (p := key ++ ":") in *.
  replace (3 * length ("^"%char :: "("%char :: p ++ ").*$") + 3)
    with (S (S (S (S (3 * length (p ++ ").*$") + 5))))) by (simpl; lia).
  rewrite parse_keyLine; [done | done | rewrite length_app; simpl; lia].
Qed.

(* ===================================================================== *)
(** ** Key lines: what the key patterns find *)
(* ===================================================================== *)

Lemma lineOf_afterLine (a : str) : lineOf a ++ afterLine a = a.
Proof.
  induction a as [|x a IH]; [done|]. simpl.
  destruct (isLineTerminator x); [done|]. simpl. by rewrite IH.
Qed.

Lemma matcher_key (p : str) (b a : str) (cs : Captures) :
  matcher true (RSeq RBol (lits p REmpty)) b a cs finalContinuation =
  if atLineStart b && startsWith p a then Some (drop (length p) a, cs) else None.
Proof.
  rewrite matcher_seq, matcher_bol.
  destruct b as [|x b]; cbn [atLineStart andb].
  - by rewrite matcher_lits.
  - destruct (isLineTerminator x); [|done]. by rewrite matcher_lits.
Qed.

Lemma take_startsWith (p a : str) :
  startsWith p a = true -> take (length a - length (drop (length p) a)) a = p.
Proof.
  intros E. apply startsWith_drop in E. rewrite E at 1 3. by rewrite take_before.
Qed.

Lemma execFrom_key (p : str) (g : nat) (b a : str) :
  execFrom (mkRegExp (RSeq RBol (lits p REmpty)) g true) b a =
  match findLine p b a with
  | Some (pre, post) => Some (mkMatch pre p post (replicate g None))
  | None => None
  end.
Proof.
  revert b. induction a as [|x a IH]; intros b;
    cbn [execFrom findLine re_multiline re_pattern re_groups];
    rewrite matcher_key;
    destruct (atLineStart b && startsWith p _) eqn:E; try done.
  - apply andb_true_iff in E as [_ E]. by rewrite take_startsWith.
  - apply andb_true_iff in E as [_ E]. by rewrite take_startsWith.
Qed.

Lemma matcher_restOfLine (b a : str) (cs : Captures) :
  matcher true (RRepeat 0 None true RDot) b a cs
    (fun b' a' cs' => matcher true (RSeq REol REmpty) b' a' cs' finalContinuation)
  = Some (afterLine a, cs).
Proof.
  revert b. induction a as [|x a IH]; intros b; rewrite matcher_greedy_dot.
  - done.
  - cbn [afterLine]. destruct (isLineTerminator x) eqn:E.
    + rewrite matcher_seq, matcher_eol. cbn [andb]. by rewrite E.
    + by rewrite IH.
Qed.

Lemma matcher_keyLine (p : str) (b a : str) :
  matcher true (keyLinePattern p) b a [None] finalContinuation =
  if atLineStart b && startsWith p a
  then Some (afterLine (drop (length p) a), [Some p])
  else None.
Proof.
  unfold keyLinePattern. rewrite matcher_seq, matcher_bol.
  assert (matcher true
            (RSeq (RGroup 0 (lits p REmpty))
               (RSeq (RRepeat 0 None true RDot) (RSeq REol REmpty)))
            b a [None] finalContinuation
          = if startsWith p a
            then Some (afterLine (drop (length p) a), [Some p]) else None) as Hm.
  { rewrite matcher_seq, matcher_group, matcher_lits.
    destruct (startsWith p a) eqn:E; [|done].
    rewrite matcher_empty, matcher_seq, matcher_restOfLine.
    by rewrite take_startsWith. }
  destruct b as [|x b]; cbn [atLineStart andb]; [done|].
  by destruct (isLineTerminator x).
Qed.

Lemma execFrom_keyLine (p : str) (b a : str) :
  execFrom (mkRegExp (keyLinePattern p) 1 true) b a =
  match findLine p b a with
  | Some (pre, post) => Some (mkMatch pre (p ++ lineOf post) (afterLine post) [Some p])
  | None => None
  end.
Proof.
  assert (forall a, startsWith p a = true ->
            take (length a - length (afterLine (drop (length p) a))) a
            = p ++ lineOf (drop (length p) a)) as Htake.
  { intros a' E. apply startsWith_drop in E.
    set (d := drop (length p) a') in *. rewrite E at 1 2.
    rewrite <- (lineOf_afterLine d) at 1 3.
    replace (p ++ lineOf d ++ afterLine d) with ((p ++ lineOf d) ++ afterLine d)
      by (by rewrite <- app_assoc).
    by rewrite take_before. }
  revert b. induction a as [|x a IH]; intros b;
    cbn [execFrom findLine re_multiline re_pattern re_groups replicate];
    rewrite matcher_keyLine;
    destruct (atLineStart b && startsWith p _) eqn:E; try done.
  - apply andb_true_iff in E as [_ E]. by rewrite Htake.
  - apply andb_true_iff in E as [_ E]. by rewrite Htake.
Qed.

Lemma test_key (key fm : str) (g : nat) :
  test (mkRegExp (RSeq RBol (lits (key ++ ":") REmpty)) g true) fm = hasKeyLine key fm.
Proof.
  unfold test, exec, hasKeyLine. rewrite execFrom_key.
  by destruct (findLine (key ++ ":") [] fm) as [[pre post]|].
Qed.

Lemma test_keyLine (key fm : str) :
  test (mkRegExp (keyLinePattern (key ++ ":")) 1 true) fm = hasKeyLine key fm.
Proof.
  unfold test, exec, hasKeyLine. rewrite execFrom_keyLine.
  by destruct (findLine (key ++ ":") [] fm) as [[pre post]|].
Qed.

Lemma getSubstitution_group1 (before matched after p v : str) :
  getSubstitution before matched after [Some p] ("$"%char :: "1"%char :: " "%char :: v)
  = p ++ " "%char :: getSubstitution before matched after [Some p] v.
Proof. reflexivity. Qed.

Lemma replaceRe_keyLine (key fm value : str) (pre post : str) :
  findLine (key ++ ":") [] fm = Some (pre, post) ->
  "$"%char ∉ value ->
  replaceRe fm (mkRegExp (keyLinePattern (key ++ ":")) 1 true) ("$1 " ++ value)
  = pre ++ (key ++ ":") ++ " " ++ value ++ afterLine post.
Proof.
  intros Hf Hv. unfold replaceRe, exec. rewrite execFrom_keyLine, Hf.
  cbn [m_before m_matched m_after m_captures].
  change ("$1 " ++ value) with ("$"%char :: "1"%char :: " "%char :: value).
  rewrite getSubstitution_group1, getSubstitution_plain by done.
  by rewrite <- !app_assoc.
Qed.

(* ===================================================================== *)
(** ** The editor on text, for plain key names *)
(* ===================================================================== *)

Lemma replaceRe_frontmatter (content fm rest template : str) :
  frontmatterSplit content = Some (fm, rest) ->
  "$"%char ∉ template ->
  replaceRe content frontmatterRegex template = template ++ rest.
Proof.
  intros Hs Ht. unfold replaceRe. rewrite exec_frontmatterRegex, Hs.
  cbn [m_before m_matched m_after m_captures].
  by rewrite getSubstitution_plain.
Qed.

Lemma not_elem_of_dashes : "$"%char ∉ ("---" : str).
Proof. intros H. repeat (apply elem_of_cons in H as [H|H]; [done|]). by apply elem_of_nil in H. Qed.

Lemma not_elem_of_nl : "$"%char ∉ nl.
Proof. intros H. repeat (apply elem_of_cons in H as [H|H]; [done|]). by apply elem_of_nil in H. Qed.

Lemma addFrontmatter_plain (settings : AutoTimestampSettings)
    (content created modified fm rest : str) :
  isPlain (createdKey settings) = true ->
  isPlain (modifiedKey settings) = true ->
  frontmatterSplit content = Some (fm, rest) ->
  let fm' := withModified (modifiedKey settings) modified
               (withCreated (createdKey settings) created fm) in
  "$"%char ∉ fm' ->
  addFrontmatter settings content created modified
  = Ok ("---" ++ nl ++ fm' ++ nl ++ "---" ++ rest).
Proof.
  intros Hck Hmk Hs fm' Hd. unfold addFrontmatter.
  rewrite exec_frontmatterRegex, Hs. cbn [group1 m_captures].
  rewrite (newRegExp_key _ Hck). cbn [mbind outcome_bind].
  rewrite test_key.
  rewrite (newRegExp_key _ Hmk). cbn [mbind outcome_bind].
  rewrite test_key.
  fold (withCreated (createdKey settings) created fm).
  replace (if negb (hasKeyLine (createdKey settings) fm)
           then createdKey settings ++ ": " ++ created ++ nl ++ fm else fm)
    with (withCreated (createdKey settings) created fm)
    by (unfold withCreated; by destruct (hasKeyLine _ fm)).
  set (fm1 := withCreated (createdKey settings) created fm) in *.
  replace (if negb (hasKeyLine (modifiedKey settings) fm1)
           then fm1 ++ nl ++ modifiedKey settings ++ ": " ++ modified else fm1)
    with fm' by (unfold fm', withModified; by destruct (hasKeyLine _ fm1)).
  rewrite (replaceRe_frontmatter _ fm rest); [by rewrite <- !app_assoc | done |].
  rewrite !not_elem_of_app. split_and!; auto using not_elem_of_dashes, not_elem_of_nl.
Qed.

Lemma updateModifiedTime_plain (settings : AutoTimestampSettings)
    (content modified fm rest : str) :
  isPlain (createdKey settings) = true ->
  isPlain (modifiedKey settings) = true ->
  frontmatterSplit content = Some (fm, rest) ->
  let fm' := withCreated (createdKey settings) modified
               (setKeyLine (modifiedKey settings) modified fm) in
  "$"%char ∉ modified ->
  "$"%char ∉ fm' ->
  updateModifiedTime settings content modified
  = Ok ("---" ++ nl ++ fm' ++ nl ++ "---" ++ rest).
Proof.
  intros Hck Hmk Hs fm' Hv Hd. unfold updateModifiedTime.
  rewrite exec_frontmatterRegex, Hs. cbn [group1 m_captures].
  rewrite (newRegExp_keyLine _ Hmk). cbn [mbind outcome_bind].
  fold (keyLinePattern (modifiedKey settings ++ ":")).
  rewrite test_keyLine.
  rewrite (newRegExp_key _ Hck). cbn [mbind outcome_bind].
  rewrite test_key.
  set (fm1 := if hasKeyLine (modifiedKey settings) fm then _ else _).
  assert (fm1 = setKeyLine (modifiedKey settings) modified fm) as ->.
  { unfold fm1, setKeyLine, hasKeyLine.
    destruct (findLine (modifiedKey settings ++ ":") [] fm) as [[pre post]|] eqn:Ef; [|done].
    by rewrite (replaceRe_keyLine _ _ _ pre post). }
  set (fm2 := setKeyLine (modifiedKey settings) modified fm) in *.
  replace (if negb (hasKeyLine (createdKey settings) fm2)
           then createdKey settings ++ ": " ++ modified ++ nl ++ fm2 else fm2)
    with fm' by (unfold fm', withCreated; by destruct (hasKeyLine _ fm2)).
  rewrite (replaceRe_frontmatter _ fm rest); [by rewrite <- !app_assoc | done |].
  rewrite !not_elem_of_app. split_and!; auto using not_elem_of_dashes, not_elem_of_nl.
Qed.

(* ===================================================================== *)
(** ** Key lines, declaratively *)
(* ===================================================================== *)

Lemma atLineStart_rev (before : str) :
  atLineStart (rev before) = true <-> EndsLine before.
Proof.
  destruct (rev before) as [|x r] eqn:E.
  - apply (f_equal (@rev ascii)) in E. rewrite rev_involutive in E. simpl in E.
    split; [by left | done].
  - apply (f_equal (@rev ascii)) in E. rewrite rev_involutive in E. simpl in E.
    simpl. split.
    + intros Hx. right. by exists (rev r), x.
    + intros [-> | (b & y & Hb & Hy)]; [by destruct (rev r) |].
      rewrite Hb in E. apply app_inj_tail in E as [_ ->]. done.
Qed.

Lemma atLineStart_app (mid b : str) :
  mid <> [] -> atLineStart (rev mid ++ b) = atLineStart (rev mid).
Proof.
  intros Hm. destruct (rev mid) as [|x r] eqn:E; [|done].
  apply (f_equal (@rev ascii)) in E. rewrite rev_involutive in E. by destruct Hm.
Qed.

(** [findLine] from a position inside a text: [b] is what was read. *)
Lemma findLine_spec (p b a : str) :
  match findLine p b a with
  | Some (pre, post) =>
      exists mid, pre = rev b ++ mid /\ a = mid ++ p ++ post /\
        atLineStart (rev mid ++ b) = true /\
        forall mid' post', a = mid' ++ p ++ post' ->
          atLineStart (rev mid' ++ b) = true -> length mid <= length mid'
  | None =>
      forall mid post, a = mid ++ p ++ post -> atLineStart (rev mid ++ b) = false
  end.
Proof.
  revert b. induction a as [|x a IH]; intros b; cbn [findLine].
  - destruct (atLineStart b && startsWith p []) eqn:E.
    + apply andb_true_iff in E as [Hb Hp]. exists []. rewrite app_nil_r.
      split_and!; [done | by apply startsWith_drop in Hp | done |].
      intros mid' post' _ _. simpl. lia.
    + intros mid post Hm. destruct mid; [|done]. simpl in *.
      apply andb_false_iff in E as [E | E]; [done|].
      apply startsWith_false with (t := post) in E. by destruct E.
  - destruct (atLineStart b && startsWith p (x :: a)) eqn:E.
    + apply andb_true_iff in E as [Hb Hp]. exists []. rewrite app_nil_r.
      split_and!; [done | by apply startsWith_drop in Hp | done |].
      intros mid' post' _ _. simpl. lia.
    + specialize (IH (x :: b)).
      destruct (findLine p (x :: b) a) as [[pre post]|].
      * destruct IH as (mid & -> & -> & Hs & Hmin). exists (x :: mid).
        split_and!.
        -- simpl. by rewrite <- app_assoc.
        -- done.
        -- simpl. by rewrite <- app_assoc.
        -- intros [|y mid'] post' Hm Hs'.
           ++ simpl in *. rewrite Hs' in E. simpl in E.
              apply startsWith_false with (t := post') in E. by destruct E.
           ++ injection Hm as -> Hm. simpl in Hs'. rewrite <- app_assoc in Hs'.
              specialize (Hmin mid' post' Hm Hs'). simpl. lia.
      * intros [|y mid] post Hm.
        -- simpl in *. apply andb_false_iff in E as [E | E]; [done|].
           apply startsWith_false with (t := post) in E. by destruct E.
        -- injection Hm as -> Hm. simpl. rewrite <- app_assoc. by apply IH with post.
Qed.

Lemma findLine_Some (key fm pre post : str) :
  findLine (key ++ ":") [] fm = Some (pre, post) -> FirstKeyLine key fm pre post.
Proof.
  intros Hf. pose proof (findLine_spec (key ++ ":") [] fm) as Hs. rewrite Hf in Hs.
  destruct Hs as (mid & -> & -> & Hs & Hmin). simpl. rewrite app_nil_r in Hs.
  split; [split; [done | by apply atLineStart_rev] |].
  intros b a [Hb Hl]. apply (Hmin b a Hb). rewrite app_nil_r. by apply atLineStart_rev.
Qed.

Lemma findLine_None (key fm : str) :
  findLine (key ++ ":") [] fm = None -> ~ HasKeyLine key fm.
Proof.
  intros Hf (b & a & Hb & Hl).
  pose proof (findLine_spec (key ++ ":") [] fm) as Hs. rewrite Hf in Hs.
  specialize (Hs b a Hb). rewrite app_nil_r in Hs.
  apply atLineStart_rev in Hl. congruence.
Qed.

Lemma hasKeyLine_true (key fm : str) : hasKeyLine key fm = true <-> HasKeyLine key fm.
Proof.
  unfold hasKeyLine. destruct (findLine (key ++ ":") [] fm) as [[pre post]|] eqn:E.
  - split; [|done]. intros _. apply findLine_Some in E as [Hk _]. by exists pre, post.
  - split; [done|]. intros Hk. by apply findLine_None in E.
Qed.

Lemma hasKeyLine_false (key fm : str) : hasKeyLine key fm = false <-> ~ HasKeyLine key fm.
Proof.
  rewrite <- hasKeyLine_true. by destruct (hasKeyLine key fm).
Qed.

Lemma FirstKeyLine_unique (key fm b1 a1 b2 a2 : str) :
  FirstKeyLine key fm b1 a1 -> FirstKeyLine key fm b2 a2 -> b1 = b2 /\ a1 = a2.
Proof.
  intros [[H1 L1] M1] [[H2 L2] M2].
  assert (length b1 = length b2) as Hlen.
  { apply Nat.le_antisymm; [by apply (M1 b2 a2) | by apply (M2 b1 a1)]. }
  rewrite H1 in H2. apply app_inj_1 in H2 as [-> H2]; [|done].
  by apply app_inv_head in H2.
Qed.

Lemma findLine_first (key fm pre post : str) :
  FirstKeyLine key fm pre post -> findLine (key ++ ":") [] fm = Some (pre, post).
Proof.
  intros Hf. destruct (findLine (key ++ ":") [] fm) as [[b a]|] eqn:E.
  - apply findLine_Some in E.
    by destruct (FirstKeyLine_unique _ _ _ _ _ _ E Hf) as [-> ->].
  - apply findLine_None in E. destruct Hf as [Hk _]. destruct E. by exists pre, post.
Qed.

(* ===================================================================== *)
(** ** Lines *)
(* ===================================================================== *)

Lemma splitLines_structure (s : str) :
  exists hd tl, splitLines s = hd :: tl /\
    (exists after, s = hd ++ after) /\
    forall l, l ∈ tl -> exists b0 a, s = (b0 ++ [LF]) ++ l ++ a.
Proof.
  induction s as [|c s (hd & tl & Hs & [after Ha] & Ht)].
  - exists [], []. split_and!; [done | by exists [] |]. intros l Hl. by apply elem_of_nil in Hl.
  - cbn [splitLines]. rewrite Hs. destruct (Ascii.eqb c LF) eqn:E.
    + apply ascii_eqb_true in E as ->. exists [], (hd :: tl).
      split_and!; [done | by exists (LF :: s) |].
      intros l [-> | Hl]%elem_of_cons.
      * exists [], after. by rewrite Ha.
      * destruct (Ht l Hl) as (b0 & a & Hb). exists (LF :: b0), a. by rewrite Hb.
    + exists (c :: hd), tl. split_and!; [done | exists after; by rewrite Ha |].
      intros l Hl. destruct (Ht l Hl) as (b0 & a & Hb). exists (c :: b0), a. by rewrite Hb.
Qed.

Lemma splitLines_elem (s l : str) :
  l ∈ splitLines s ->
  exists before after, s = before ++ l ++ after /\ EndsLine before.
Proof.
  destruct (splitLines_structure s) as (hd & tl & -> & [after Ha] & Ht).
  intros [-> | Hl]%elem_of_cons.
  - exists [], after. split; [done | by left].
  - destruct (Ht l Hl) as (b0 & a & Hb). exists (b0 ++ [LF]), a.
    split; [done|]. right. by exists b0, LF.
Qed.

(** A line (in the sense of [split("\n")]) that starts with [key:] is a key
    line. *)
Lemma splitLines_keyLine (key fm l : str) :
  l ∈ splitLines fm -> startsWith (key ++ ":") l = true -> HasKeyLine key fm.
Proof.
  intros (before & after & -> & Hb)%splitLines_elem [t ->]%startsWith_prefix.
  exists before, (t ++ after). split; [|done]. by rewrite <- !app_assoc.
Qed.

Lemma splitLines_line (l s : str) :
  LF ∉ l -> splitLines (l ++ nl ++ s) = l :: splitLines s.
Proof.
  induction l as [|c l IH]; intros Hl; [done|].
  apply not_elem_of_cons in Hl as [Hc Hl]. cbn [app splitLines].
  destruct (Ascii.eqb c LF) eqn:E; [apply ascii_eqb_true in E; congruence|].
  by rewrite (IH Hl).
Qed.

(* ===================================================================== *)
(** ** A document without a frontmatter block *)
(* ===================================================================== *)

(** C2 (amended). For a document in which [frontmatterRegex] finds no
    block (the document does not start with [---] and a line feed, or no
    line feed with [---] behind it follows), [addFrontmatter] with the value
    [V] for both keys returns the four lines [---], [createdKey: V],
    [modifiedKey: V], [---] followed by the document itself; when the keys
    and the value hold no line feed these are the first four lines of the
    result and the lines of the document follow unchanged. *)
Theorem addFrontmatter_without_block (settings : AutoTimestampSettings)
    (content V : str) :
  exec frontmatterRegex content = None ->
  exists result,
    addFrontmatter settings content V V = Ok result /\
    result = joinLines ["---";
                        createdKey settings ++ ": " ++ V;
                        modifiedKey settings ++ ": " ++ V;
                        "---";
                        content] /\
    (LF ∉ createdKey settings -> LF ∉ modifiedKey settings -> LF ∉ V ->
     splitLines result
     = ["---"; createdKey settings ++ ": " ++ V; modifiedKey settings ++ ": " ++ V; "---"]
       ++ splitLines content).
Proof.
  intros Hn. eexists. split_and!.
  - unfold addFrontmatter. rewrite Hn. reflexivity.
  - cbn [joinLines]. by rewrite <- !app_assoc.
  - intros Hc Hm Hv.
    replace (("---" ++ nl ++ createdKey settings ++ ": " ++ V ++ nl ++
              modifiedKey settings ++ ": " ++ V ++ nl ++ "---" ++ nl) ++ content)
      with ("---" ++ nl ++ (createdKey settings ++ ": " ++ V) ++ nl ++
            (modifiedKey settings ++ ": " ++ V) ++ nl ++ "---" ++ nl ++ content)
      by (by rewrite <- !app_assoc).
    assert (LF ∉ ("---" : str)) as Hd.
    { intros H. repeat (apply elem_of_cons in H as [H|H]; [done|]). by apply elem_of_nil in H. }
    assert (forall k, LF ∉ k -> LF ∉ k ++ ": " ++ V) as Hk.
    { intros k Hk. rewrite !not_elem_of_app. split_and!; [done | | done].
      intros H. repeat (apply elem_of_cons in H as [H|H]; [done|]). by apply elem_of_nil in H. }
    rewrite !splitLines_line by auto. done.
Qed.

Lemma addFrontmatter_without_block_witness :
  exists result,
    addFrontmatter DEFAULT_SETTINGS "# Note" "20241229143052" "20241229143052" = Ok result /\
    result = joinLines ["---"; "created: 20241229143052"; "modified: 20241229143052";
                        "---"; "# Note"].
Proof.
  destruct (addFrontmatter_without_block DEFAULT_SETTINGS "# Note" "20241229143052")
    as (result & Hr & -> & _).
  - vm_compute. reflexivity.
  - eexists. split; [exact Hr | reflexivity].
Defined.

(** C2 as stated fails for a document without a frontmatter block in the
    specification's sense (no later line is exactly [---]) in which the
    pattern finds one all the same: the line [---trailing] closes it, so
    the two lines are added to that block and the first four lines of the
    result are not the four lines of the claim. *)
Lemma addFrontmatter_without_block_counterexample :
  specHasFrontmatter (joinLines ["---"; "title: x"; "---trailing"; "body"]) = false /\
  addFrontmatter DEFAULT_SETTINGS (joinLines ["---"; "title: x"; "---trailing"; "body"])
    "V" "V"
  = Ok (joinLines ["---"; "created: V"; "title: x"; "modified: V"; "---trailing"; "body"]) /\
  take 4 (splitLines
            (joinLines ["---"; "created: V"; "title: x"; "modified: V"; "---trailing";
                        "body"]))
  <> ["---"; "created: V"; "modified: V"; "---"].
Proof. split_and!; [by vm_compute | by vm_compute | by vm_compute]. Qed.

(* ===================================================================== *)
(** ** Recognition of the frontmatter block *)
(* ===================================================================== *)

Lemma frontmatterSplit_Some (content fm rest : str) :
  frontmatterSplit content = Some (fm, rest) <->
  content = "---" ++ nl ++ fm ++ nl ++ "---" ++ rest /\
  FirstOccurrence (nl ++ "---") (fm ++ nl ++ "---" ++ rest) fm rest.
Proof.
  unfold frontmatterSplit. split.
  - destruct (startsWith ("---" ++ nl) content) eqn:E; [|done].
    intros Hs. apply splitAtFirst_Some in Hs. apply startsWith_drop in E.
    change (length ("---" ++ nl)) with 4 in E.
    destruct Hs as [Hd Hmin]. rewrite Hd in E.
    split; [by rewrite E |]. split; [done|].
    intros b a Hb. apply (Hmin b a). by rewrite Hd.
  - intros [-> Hf]. change (startsWith _ _) with true. cbn iota.
    change (drop 4 _) with (fm ++ nl ++ "---" ++ rest).
    by apply splitAtFirst_first.
Qed.

Lemma frontmatterSplit_None (content : str) :
  frontmatterSplit content = None <->
  forall fm rest, content <> "---" ++ nl ++ fm ++ nl ++ "---" ++ rest.
Proof.
  split.
  - intros Hn fm rest ->. unfold frontmatterSplit in Hn.
    change (startsWith _ _) with true in Hn. cbn iota in Hn.
    apply splitAtFirst_None in Hn. by destruct (Hn fm rest).
  - intros Hn. destruct (frontmatterSplit content) as [[fm rest]|] eqn:E; [|done].
    apply frontmatterSplit_Some in E as [-> _]. by destruct (Hn fm rest).
Qed.

(** C5 (as the code has it). Both editor operations look for the block
    with [frontmatterRegex]. It finds one exactly when the document starts
    with [---] and a line feed, and the text of a line feed followed by
    [---] occurs after that; the inner text of the block then ends at the
    first such occurrence, whatever follows the three dashes. *)
Theorem frontmatter_recognition (content : str) :
  match exec frontmatterRegex content with
  | Some m =>
      exists fm rest,
        content = "---" ++ nl ++ fm ++ nl ++ "---" ++ rest /\
        (forall fm' rest', content = "---" ++ nl ++ fm' ++ nl ++ "---" ++ rest' ->
                           length fm <= length fm') /\
        m = mkMatch [] ("---" ++ nl ++ fm ++ nl ++ "---") rest [Some fm]
  | None =>
      forall fm rest, content <> "---" ++ nl ++ fm ++ nl ++ "---" ++ rest
  end.
Proof.
  rewrite exec_frontmatterRegex.
  destruct (frontmatterSplit content) as [[fm rest]|] eqn:E.
  - apply frontmatterSplit_Some in E as [Hc [_ Hmin]].
    exists fm, rest. split_and!; [done | | done].
    intros fm' rest' Hc'. apply (Hmin fm' rest').
    rewrite Hc in Hc'. by injection Hc'.
  - by apply frontmatterSplit_None.
Qed.

(** C5 as stated fails in both directions: a line that only begins with
    [---] closes the block, and a [---] line right below the opening line
    does not. *)
Lemma frontmatter_recognition_counterexample :
  (specHasFrontmatter (joinLines ["---"; "title: x"; "---trailing"; "body"]) = false /\
   exec frontmatterRegex (joinLines ["---"; "title: x"; "---trailing"; "body"])
   = Some (mkMatch [] (joinLines ["---"; "title: x"; "---"])
                   (joinLines ["trailing"; "body"]) [Some "title: x"])) /\
  (specHasFrontmatter (joinLines ["---"; "---"; "body"]) = true /\
   exec frontmatterRegex (joinLines ["---"; "---"; "body"]) = None).
Proof. vm_compute. done. Qed.

(* ===================================================================== *)
(** ** [addFrontmatter] on a document with a frontmatter block *)
(* ===================================================================== *)

Lemma isPlain_no_dollar (k : str) : isPlain k = true -> "$"%char ∉ k.
Proof.
  induction k as [|c k IH]; intros Hk; [by apply not_elem_of_nil|].
  simpl in Hk. apply andb_true_iff in Hk as [Hc Hk].
  apply not_elem_of_cons. split; [|by apply IH]. intros <-. done.
Qed.

Lemma no_dollar_colon_space : "$"%char ∉ (": " : str).
Proof. intros H. repeat (apply elem_of_cons in H as [H|H]; [done|]). by apply elem_of_nil in H. Qed.

Lemma no_dollar_line (key value : str) :
  isPlain key = true -> "$"%char ∉ value -> "$"%char ∉ key ++ ": " ++ value.
Proof.
  intros Hk Hv. rewrite !not_elem_of_app.
  split_and!; auto using isPlain_no_dollar, no_dollar_colon_space.
Qed.

Lemma EndsLine_app (x before : str) :
  EndsLine x -> x <> [] -> EndsLine before -> EndsLine (x ++ before).
Proof.
  intros [-> | (b & c & -> & Hc)] Hx [-> | (b' & c' & -> & Hc')]; try done.
  - right. exists b, c. by rewrite app_nil_r.
  - right. exists ((b ++ [c]) ++ b'), c'. by rewrite <- !app_assoc.
Qed.

Lemma HasKeyLine_after (key x fm : str) :
  EndsLine x -> x <> [] -> HasKeyLine key fm -> HasKeyLine key (x ++ fm).
Proof.
  intros Hx Hne (before & after & -> & Hb). exists (x ++ before), after.
  split; [by rewrite <- !app_assoc | by apply EndsLine_app].
Qed.

Lemma EndsLine_nl (x : str) : EndsLine (x ++ nl).
Proof. right. by exists x, LF. Qed.

(** X17. For a document in which [frontmatterRegex] finds the
    block [fm], with key names free of pattern syntax characters and no
    dollar sign in the block or the value: [addFrontmatter] puts the line
    [createdKey: V] in front of the block exactly when no line of it starts
    with [createdKey:] (same code units, at the start of a line), and the
    line [modifiedKey: V] behind it exactly when no line of the block so
    far starts with [modifiedKey:]; the block itself stays as it is, in its
    order, and so does the rest of the document. An example is evaluated
    as well. *)
Theorem addFrontmatter_existing_block :
  (forall (settings : AutoTimestampSettings) (content fm rest V : str),
      isPlain (createdKey settings) = true ->
      isPlain (modifiedKey settings) = true ->
      "$"%char ∉ fm -> "$"%char ∉ V ->
      exec frontmatterRegex content
      = Some (mkMatch [] ("---" ++ nl ++ fm ++ nl ++ "---") rest [Some fm]) ->
      exists pre post,
        addFrontmatter settings content V V
        = Ok ("---" ++ nl ++ pre ++ fm ++ post ++ nl ++ "---" ++ rest) /\
        (pre = [] \/ pre = createdKey settings ++ ": " ++ V ++ nl) /\
        (post = [] \/ post = nl ++ modifiedKey settings ++ ": " ++ V) /\
        (pre = [] <-> HasKeyLine (createdKey settings) fm) /\
        (post = [] <-> HasKeyLine (modifiedKey settings) (pre ++ fm)) /\
        (pre <> [] -> forall l, l ∈ splitLines fm ->
                                startsWith (createdKey settings ++ ":") l = false) /\
        (post <> [] -> forall l, l ∈ splitLines fm ->
                                 startsWith (modifiedKey settings ++ ":") l = false)) /\
  addFrontmatter DEFAULT_SETTINGS (joinLines ["---"; "foo: bar"; "---"; "body"]) "X" "X"
  = Ok (joinLines ["---"; "created: X"; "foo: bar"; "modified: X"; "---"; "body"]).
Proof.
  split; [|by vm_compute].
  intros settings content fm rest V Hck Hmk Hfm HV Hx.
  assert (frontmatterSplit content = Some (fm, rest)) as Hs.
  { rewrite exec_frontmatterRegex in Hx.
    destruct (frontmatterSplit content) as [[fm0 rest0]|]; [|done].
    by simplify_eq. }
  set (ck := createdKey settings) in *. set (mk := modifiedKey settings) in *.
  set (pre := if hasKeyLine ck fm then [] else ck ++ ": " ++ V ++ nl).
  set (post := if hasKeyLine mk (pre ++ fm) then [] else nl ++ mk ++ ": " ++ V).
  assert (withCreated ck V fm = pre ++ fm) as Hc.
  { unfold withCreated, pre. destruct (hasKeyLine ck fm); [done|]. by rewrite <- !app_assoc. }
  assert (withModified mk V (pre ++ fm) = pre ++ fm ++ post) as Hm.
  { unfold withModified, post. destruct (hasKeyLine mk (pre ++ fm)).
    - by rewrite !app_nil_r.
    - by rewrite <- !app_assoc. }
  assert ("$"%char ∉ pre) as Hpre.
  { unfold pre. destruct (hasKeyLine ck fm); [by apply not_elem_of_nil|].
    rewrite !not_elem_of_app.
    split_and!; auto using isPlain_no_dollar, no_dollar_colon_space, not_elem_of_nl. }
  assert ("$"%char ∉ post) as Hpost.
  { unfold post. destruct (hasKeyLine mk (pre ++ fm)); [by apply not_elem_of_nil|].
    rewrite !not_elem_of_app.
    split_and!; auto using isPlain_no_dollar, no_dollar_colon_space, not_elem_of_nl. }
  exists pre, post. split_and!.
  - rewrite (addFrontmatter_plain settings content V V fm rest Hck Hmk Hs).
    + fold ck mk. rewrite Hc, Hm. by rewrite <- !app_assoc.
    + fold ck mk. rewrite Hc, Hm. rewrite !not_elem_of_app. done.
  - unfold pre. destruct (hasKeyLine ck fm); auto.
  - unfold post. destruct (hasKeyLine mk (pre ++ fm)); auto.
  - rewrite <- hasKeyLine_true. unfold pre. destruct (hasKeyLine ck fm) eqn:E; [done|].
    split; [|done]. intros Hp. by destruct ck.
  - rewrite <- hasKeyLine_true. unfold post.
    destruct (hasKeyLine mk (pre ++ fm)) eqn:E; [done|]. split; [|done]. done.
  - intros Hp l Hl. destruct (startsWith (ck ++ ":") l) eqn:E; [|done].
    apply (splitLines_keyLine ck fm l Hl) in E. apply hasKeyLine_true in E.
    unfold pre in Hp. rewrite E in Hp. done.
  - intros Hp l Hl. destruct (startsWith (mk ++ ":") l) eqn:E; [|done].
    apply (splitLines_keyLine mk fm l Hl) in E.
    assert (HasKeyLine mk (pre ++ fm)) as E'.
    { unfold pre. destruct (hasKeyLine ck fm); [done|].
      apply HasKeyLine_after; [| by destruct ck | done].
      replace (ck ++ ": " ++ V ++ nl) with ((ck ++ ": " ++ V) ++ nl)
        by (by rewrite <- !app_assoc).
      apply EndsLine_nl. }
    apply hasKeyLine_true in E'. unfold post in Hp. rewrite E' in Hp. done.
Qed.

Lemma addFrontmatter_existing_block_witness :
  exists pre post,
    addFrontmatter DEFAULT_SETTINGS (joinLines ["---"; "tags: a"; "created: 1"; "---"; "text"])
                   "2" "2"
    = Ok ("---" ++ nl ++ pre ++ "tags: a" ++ nl ++ "created: 1" ++ post ++ nl ++ "---"
          ++ nl ++ "text") /\
    pre = [] /\ post = nl ++ "modified: 2".
Proof.
  destruct (proj1 addFrontmatter_existing_block DEFAULT_SETTINGS
              (joinLines ["---"; "tags: a"; "created: 1"; "---"; "text"])
              (joinLines ["tags: a"; "created: 1"]) (nl ++ "text") "2")
    as (pre & post & Hr & Hpre & Hpost & Hc & Hm & _).
  - reflexivity.
  - reflexivity.
  - vm_compute. intros H. repeat (apply elem_of_cons in H as [H|H]; [done|]).
    by apply elem_of_nil in H.
  - vm_compute. intros H. repeat (apply elem_of_cons in H as [H|H]; [done|]).
    by apply elem_of_nil in H.
  - vm_compute. reflexivity.
  - assert (pre = []) as ->.
    { apply Hc. exists ("tags: a" ++ nl), " 1". split; [reflexivity|]. apply EndsLine_nl. }
    assert (post = nl ++ "modified: 2") as ->.
    { destruct Hpost as [-> | ->]; [|done]. exfalso.
      assert (HasKeyLine "modified" ([] ++ joinLines ["tags: a"; "created: 1"])) as Hk
        by (by apply Hm).
      apply hasKeyLine_true in Hk. vm_compute in Hk. done. }
    exists [], (nl ++ "modified: 2"). split_and!; [|done|done].
    rewrite Hr. reflexivity.
Defined.

(** C3 (the code at a failing input). The created key is spliced into the
    pattern [^createdKey:] as it is, so a key that holds pattern syntax is
    read as a pattern: [^created(utc):] does not match the line
    [created(utc): 1], which starts with the key and a colon, and
    [addFrontmatter] adds a second [created(utc)] line, although the code's
    comment says that the line is added when there is none. *)
Theorem created_key_is_read_as_pattern :
  addFrontmatter (mkSettings "yyyy-MM-dd" "created(utc)" "modified" [])
    (joinLines ["---"; "created(utc): 1"; "---"; "body"]) "X" "X"
  = Ok (joinLines ["---"; "created(utc): X"; "created(utc): 1"; "modified: X"; "---"; "body"])
  /\ "created(utc): 1" ∈ splitLines (joinLines ["created(utc): 1"])
  /\ startsWith ("created(utc)" ++ ":") "created(utc): 1" = true.
Proof. vm_compute. split_and!; [done | by left | done]. Qed.

(* ===================================================================== *)
(** ** [updateModifiedTime] *)
(* ===================================================================== *)

Lemma afterLine_suffix (a : str) : exists l, a = l ++ afterLine a.
Proof. exists (lineOf a). by rewrite lineOf_afterLine. Qed.

Lemma no_dollar_afterLine (a : str) : "$"%char ∉ a -> "$"%char ∉ afterLine a.
Proof.
  destruct (afterLine_suffix a) as [l Hl]. intros Ha. rewrite Hl in Ha.
  by apply not_elem_of_app in Ha as [_ Ha].
Qed.

Lemma no_dollar_setKeyLine (key value fm : str) :
  isPlain key = true -> "$"%char ∉ value -> "$"%char ∉ fm ->
  "$"%char ∉ setKeyLine key value fm.
Proof.
  intros Hk Hv Hfm. unfold setKeyLine.
  destruct (findLine (key ++ ":") [] fm) as [[pre post]|] eqn:E.
  - apply findLine_Some in E as [[-> _] _].
    rewrite !not_elem_of_app in Hfm. destruct Hfm as (Hpre & _ & Hpost).
    rewrite !not_elem_of_app. split_and!; auto using no_dollar_afterLine.
    + by apply isPlain_no_dollar.
    + intros H. repeat (apply elem_of_cons in H as [H|H]; [done|]). by apply elem_of_nil in H.
    + intros H. repeat (apply elem_of_cons in H as [H|H]; [done|]). by apply elem_of_nil in H.
  - rewrite !not_elem_of_app.
    split_and!; auto using isPlain_no_dollar, no_dollar_colon_space, not_elem_of_nl.
Qed.

Lemma no_dollar_withCreated (key value fm : str) :
  isPlain key = true -> "$"%char ∉ value -> "$"%char ∉ fm ->
  "$"%char ∉ withCreated key value fm.
Proof.
  intros Hk Hv Hfm. unfold withCreated. destruct (hasKeyLine key fm); [done|].
  rewrite !not_elem_of_app.
  split_and!; auto using isPlain_no_dollar, no_dollar_colon_space, not_elem_of_nl.
Qed.

Lemma exec_frontmatter_split (content fm rest : str) :
  exec frontmatterRegex content
  = Some (mkMatch [] ("---" ++ nl ++ fm ++ nl ++ "---") rest [Some fm]) ->
  frontmatterSplit content = Some (fm, rest).
Proof.
  rewrite exec_frontmatterRegex.
  destruct (frontmatterSplit content) as [[fm0 rest0]|]; [|done].
  intros Hx. by simplify_eq.
Qed.

(** X18. Without a frontmatter block [updateModifiedTime] returns
    the document as it is. With a block [fm], key names free of pattern
    syntax characters and no dollar sign in the block or the value: on the
    first line that starts with [modifiedKey:] the text after the colon, up
    to the end of that line, becomes a space and the value, and when there
    is no such line [modifiedKey: V] is added as the last line; then, when no
    line of the block so updated starts with [createdKey:], the line
    [createdKey: V] is put first. The rest of the document stays as it is. *)
Theorem updateModifiedTime_spec :
  (forall (settings : AutoTimestampSettings) (content V : str),
      exec frontmatterRegex content = None ->
      updateModifiedTime settings content V = Ok content) /\
  (forall (settings : AutoTimestampSettings) (content fm rest V : str),
      isPlain (createdKey settings) = true ->
      isPlain (modifiedKey settings) = true ->
      "$"%char ∉ fm -> "$"%char ∉ V ->
      exec frontmatterRegex content
      = Some (mkMatch [] ("---" ++ nl ++ fm ++ nl ++ "---") rest [Some fm]) ->
      exists pre fm1,
        updateModifiedTime settings content V
        = Ok ("---" ++ nl ++ pre ++ fm1 ++ nl ++ "---" ++ rest) /\
        ((exists before after,
             FirstKeyLine (modifiedKey settings) fm before after /\
             fm1 = before ++ (modifiedKey settings ++ ":") ++ " " ++ V ++ afterLine after)
         \/ (~ HasKeyLine (modifiedKey settings) fm /\
             fm1 = fm ++ nl ++ modifiedKey settings ++ ": " ++ V)) /\
        ((HasKeyLine (createdKey settings) fm1 /\ pre = [])
         \/ (~ HasKeyLine (createdKey settings) fm1 /\
             pre = createdKey settings ++ ": " ++ V ++ nl))).
Proof.
  split.
  - intros settings content V Hn. unfold updateModifiedTime. by rewrite Hn.
  - intros settings content fm rest V Hck Hmk Hfm HV Hx.
    apply exec_frontmatter_split in Hx as Hs.
    set (ck := createdKey settings) in *. set (mk := modifiedKey settings) in *.
    set (fm1 := setKeyLine mk V fm).
    set (pre := if hasKeyLine ck fm1 then [] else ck ++ ": " ++ V ++ nl).
    assert (withCreated ck V fm1 = pre ++ fm1) as Hc.
    { unfold withCreated, pre. destruct (hasKeyLine ck fm1); [done|].
      by rewrite <- !app_assoc. }
    exists pre, fm1. split_and!.
    + rewrite (updateModifiedTime_plain settings content V fm rest Hck Hmk Hs HV).
      * fold ck mk fm1. rewrite Hc. by rewrite <- !app_assoc.
      * fold ck mk fm1. apply no_dollar_withCreated; [done | done |].
        by apply no_dollar_setKeyLine.
    + unfold fm1, setKeyLine.
      destruct (findLine (mk ++ ":") [] fm) as [[before after]|] eqn:E.
      * left. exists before, after. split; [by apply findLine_Some | done].
      * right. split; [by apply findLine_None | done].
    + unfold pre. destruct (hasKeyLine ck fm1) eqn:E.
      * left. split; [by apply hasKeyLine_true | done].
      * right. split; [by apply hasKeyLine_false | done].
Qed.

Lemma updateModifiedTime_spec_witness :
  updateModifiedTime DEFAULT_SETTINGS "no block here" "2" = Ok "no block here" /\
  exists pre fm1,
    updateModifiedTime DEFAULT_SETTINGS
      (joinLines ["---"; "created: 1"; "modified: 1"; "tags: a"; "---"; "text"]) "2"
    = Ok ("---" ++ nl ++ pre ++ fm1 ++ nl ++ "---" ++ nl ++ "text").
Proof.
  split.
  - apply (proj1 updateModifiedTime_spec). vm_compute. reflexivity.
  - destruct (proj2 updateModifiedTime_spec DEFAULT_SETTINGS
                (joinLines ["---"; "created: 1"; "modified: 1"; "tags: a"; "---"; "text"])
                (joinLines ["created: 1"; "modified: 1"; "tags: a"]) (nl ++ "text") "2")
      as (pre & fm1 & Hr & _).
    + reflexivity.
    + reflexivity.
    + vm_compute. intros H. repeat (apply elem_of_cons in H as [H|H]; [done|]).
      by apply elem_of_nil in H.
    + vm_compute. intros H. repeat (apply elem_of_cons in H as [H|H]; [done|]).
      by apply elem_of_nil in H.
    + vm_compute. reflexivity.
    + exists pre, fm1. exact Hr.
Defined.

(** C6 (the code at a failing input). The modified key is spliced into the
    pattern [^(modifiedKey:).*$] as it is, so a key that holds pattern
    syntax is read as a pattern: the line [modified(utc): old] is present,
    yet [^(modified(utc):).*$] does not match it; its value is not replaced
    in place and a second line is added, although the code's comments say
    that an existing line is updated and a line is added when there is
    none. *)
Theorem modified_key_is_read_as_pattern :
  updateModifiedTime (mkSettings "yyyy-MM-dd" "created" "modified(utc)" [])
    (joinLines ["---"; "created: 1"; "modified(utc): old"; "---"; "body"]) "X"
  = Ok (joinLines ["---"; "created: 1"; "modified(utc): old"; "modified(utc): X";
                   "---"; "body"])
  /\ "modified(utc): old" ∈ splitLines (joinLines ["created: 1"; "modified(utc): old"])
  /\ startsWith ("modified(utc)" ++ ":") "modified(utc): old" = true.
Proof. vm_compute. split_and!; [done | right; by left | done]. Qed.

(* ===================================================================== *)
(** ** Dollar signs in the frontmatter *)
(* ===================================================================== *)

(** C1 (the code at a failing input). The rebuilt block is handed to
    [replace] as a replacement template, in which [$1] stands for the first
    capture group: the block as it was. A frontmatter line that holds
    [$1] is therefore rewritten by both operations, although its key is
    neither [created] nor [modified]. *)
Theorem dollar_line_is_rewritten :
  addFrontmatter DEFAULT_SETTINGS (joinLines ["---"; "price: $1"; "---"; "body"]) "X" "X"
  = Ok (joinLines ["---"; "created: X"; "price: price: $1"; "modified: X"; "---"; "body"])
  /\
  updateModifiedTime DEFAULT_SETTINGS
    (joinLines ["---"; "created: 1"; "modified: 1"; "price: $1"; "---"; "body"]) "2"
  = Ok (joinLines ["---"; "created: 1"; "modified: 2"; "price: created: 1"; "modified: 1";
                   "price: $1"; "---"; "body"]).
Proof. by vm_compute. Qed.

(* ===================================================================== *)
(** ** [formatDate] *)
(* ===================================================================== *)

Lemma digitChar_small (n : N) :
  (n < 10)%N -> isDigit (digitChar n) = true /\ digitValue (digitChar n) = N.to_nat n.
Proof.
  intros Hn.
  assert (forallb (fun k => isDigit (digitChar (N.of_nat k))
                            && (digitValue (digitChar (N.of_nat k)) =? k)%nat)
            (seq 0 10) = true) as Hall by (by vm_compute).
  rewrite forallb_forall in Hall.
  specialize (Hall (N.to_nat n)). rewrite N2Nat.id in Hall.
  destruct (andb_prop _ _ (Hall ltac:(apply in_seq; lia))) as [Hd Hv].
  split; [done | by apply Nat.eqb_eq].
Qed.

Lemma fold_decimal (s : str) (acc : Z) :
  fold_left (fun acc c => 10 * acc + Z.of_nat (digitValue c))%Z s acc
  = (acc * 10 ^ Z.of_nat (length s) + decimalValue s)%Z.
Proof.
  unfold decimalValue. revert acc. induction s as [|c s IH]; intros acc.
  - simpl. lia.
  - cbn [fold_left length]. rewrite IH, (IH (10 * 0 + _)%Z).
    rewrite Nat2Z.inj_succ, Z.pow_succ_r by lia. lia.
Qed.

Lemma decimalValue_cons (c : ascii) (s : str) :
  decimalValue (c :: s)
  = (Z.of_nat (digitValue c) * 10 ^ Z.of_nat (length s) + decimalValue s)%Z.
Proof.
  unfold decimalValue at 1. cbn [fold_left]. rewrite fold_decimal. lia.
Qed.

Lemma digitsOf_value (fuel : nat) (n : N) (acc : str) :
  (n < 2 ^ N.of_nat fuel)%N -> 0 < fuel ->
  decimalValue (digitsOf fuel n acc)
  = (Z.of_N n * 10 ^ Z.of_nat (length acc) + decimalValue acc)%Z
  /\ (Forall (fun c => isDigit c = true) acc ->
      Forall (fun c => isDigit c = true) (digitsOf fuel n acc))
  /\ digitsOf fuel n acc <> [].
Proof.
  revert n acc. induction fuel as [|fuel IH]; intros n acc Hn Hf; [lia|].
  cbn [digitsOf]. destruct (n <? 10)%N eqn:E.
  - apply N.ltb_lt in E. destruct (digitChar_small n E) as [Hd Hv].
    split_and!.
    + rewrite decimalValue_cons, Hv. lia.
    + intros Ha. by constructor.
    + done.
  - apply N.ltb_ge in E.
    assert (n mod 10 < 10)%N as Hm by (apply N.mod_lt; lia).
    destruct (digitChar_small _ Hm) as [Hd Hv].
    assert (n / 10 < 2 ^ N.of_nat fuel)%N as Hq.
    { rewrite Nat2N.inj_succ, N.pow_succ_r' in Hn.
      apply N.Div0.div_lt_upper_bound. lia. }
    assert (0 < fuel) as Hf'.
    { destruct fuel; [|lia]. simpl in Hq.
      assert (1 <= n / 10)%N; [|lia]. apply N.div_le_lower_bound; lia. }
    destruct (IH (n / 10)%N (digitChar (n mod 10) :: acc) Hq Hf') as (Hval & Hall & Hne).
    split_and!.
    + rewrite Hval, decimalValue_cons, Hv. cbn [length].
      rewrite Nat2Z.inj_succ, Z.pow_succ_r by lia.
      pose proof (N.div_mod n 10 ltac:(lia)) as Hdm. lia.
    + intros Ha. apply Hall. by constructor.
    + done.
Qed.

Lemma size_nat_bound (n : N) : (n < 2 ^ N.of_nat (S (N.size_nat n)))%N.
Proof.
  assert (forall p, (N.pos p < 2 ^ N.of_nat (Pos.size_nat p))%N) as Hp.
  { induction p as [p IH|p IH|]; cbn [Pos.size_nat].
    - rewrite Nat2N.inj_succ, N.pow_succ_r'. lia.
    - rewrite Nat2N.inj_succ, N.pow_succ_r'. lia.
    - done. }
  rewrite Nat2N.inj_succ, N.pow_succ_r'.
  destruct n as [|p]; [simpl; lia|]. specialize (Hp p). cbn [N.size_nat]. lia.
Qed.

(** [toString] writes the decimal numeral of its argument. *)
Lemma toString_value (z : Z) : parseDecimal (toString z) = z.
Proof.
  unfold toString.
  destruct (digitsOf_value (S (N.size_nat (Z.abs_N z))) (Z.abs_N z) []
              (size_nat_bound _) ltac:(lia)) as (Hv & Hd & Hne).
  specialize (Hd ltac:(by constructor)).
  set (ds := digitsOf _ _ _) in *.
  change (decimalValue []) with 0%Z in Hv. cbn [length] in Hv.
  destruct (z <? 0)%Z eqn:E.
  - apply Z.ltb_lt in E. cbn [parseDecimal]. rewrite Hv. lia.
  - apply Z.ltb_ge in E.
    destruct ds as [|c ds]; [done|].
    assert (parseDecimal (c :: ds) = decimalValue (c :: ds)) as ->.
    { apply Forall_cons in Hd as [Hc _].
      unfold parseDecimal. destruct c as [[] [] [] [] [] [] [] []]; done. }
    rewrite Hv. lia.
Qed.

Lemma toString_chars (z : Z) :
  Forall (fun c => isDigit c = true \/ c = "-"%char) (toString z).
Proof.
  unfold toString.
  destruct (digitsOf_value (S (N.size_nat (Z.abs_N z))) (Z.abs_N z) []
              (size_nat_bound _) ltac:(lia)) as (_ & Hd & _).
  specialize (Hd ltac:(by constructor)).
  assert (Forall (fun c => isDigit c = true \/ c = "-"%char)
            (digitsOf (S (N.size_nat (Z.abs_N z))) (Z.abs_N z) [])) as Hd'.
  { eapply Forall_impl; [exact Hd | by left]. }
  destruct (z <? 0)%Z; [|done]. constructor; [by right | done].
Qed.

Lemma toString_no_dollar (z : Z) : "$"%char ∉ toString z.
Proof.
  intros Hin. pose proof (toString_chars z) as Hc.
  rewrite Forall_forall in Hc. by destruct (Hc _ Hin).
Qed.

Lemma padStart_zero_cases (s : str) :
  padStart 2 "0" s = s \/ padStart 2 "0" s = "0" ++ s \/ padStart 2 "0" s = "00" ++ s.
Proof. destruct s as [|a [|b s]]; auto. Qed.

Lemma padStart_no_dollar (s : str) : "$"%char ∉ s -> "$"%char ∉ padStart 2 "0" s.
Proof.
  intros Hs. destruct (padStart_zero_cases s) as [-> | [-> | ->]]; [done | |].
  - apply not_elem_of_cons. done.
  - apply not_elem_of_cons. split; [done|]. apply not_elem_of_cons. done.
Qed.

(** Month, day, hour, minute and second are written with two digits. *)
Lemma padStart_twoDigits (n : Z) :
  (0 <= n < 100)%Z -> padStart 2 "0" (toString n) = twoDigits n.
Proof.
  intros Hn.
  assert (forallb (fun k => strEqb (padStart 2 "0" (toString (Z.of_nat k)))
                               (twoDigits (Z.of_nat k))) (seq 0 100) = true) as Hall
    by (by vm_compute).
  rewrite forallb_forall in Hall.
  specialize (Hall (Z.to_nat n)). rewrite Z2Nat.id in Hall by lia.
  apply strEqb_eq, Hall, in_seq. lia.
Qed.

(** X19. [formatDate] replaces the first occurrence of [yyyy],
    then of [MM], [dd], [HH], [mm] and [ss], each in the text the previous
    replacement left, and leaves the text before and after each occurrence
    as it is. The year is written as its decimal numeral, without padding;
    month (from 1), day, hours, minutes and seconds are written with two
    digits. Two examples are evaluated as well. *)
Theorem formatDate_spec :
  (forall (settings : AutoTimestampSettings) (date : Date),
      exists t1 t2 t3 t4 t5,
        ReplacedFirst "yyyy" (toString (getFullYear date)) (dateFormat settings) t1 /\
        ReplacedFirst "MM" (padStart 2 "0" (toString (getMonth date + 1))) t1 t2 /\
        ReplacedFirst "dd" (padStart 2 "0" (toString (getDate date))) t2 t3 /\
        ReplacedFirst "HH" (padStart 2 "0" (toString (getHours date))) t3 t4 /\
        ReplacedFirst "mm" (padStart 2 "0" (toString (getMinutes date))) t4 t5 /\
        ReplacedFirst "ss" (padStart 2 "0" (toString (getSeconds date))) t5
          (formatDate settings date)) /\
  (forall z : Z, parseDecimal (toString z) = z) /\
  (forall n : Z, (0 <= n < 100)%Z -> padStart 2 "0" (toString n) = twoDigits n) /\
  formatDate (mkSettings "yyyy-MM-ddTHH:mm:ss" "created" "modified" [])
    (mkDate 2024 11 29 14 30 52) = "2024-12-29T14:30:52" /\
  formatDate (mkSettings "yyyyMMddHHmmss" "created" "modified" [])
    (mkDate 2024 11 29 14 30 52) = "20241229143052".
Proof.
  split_and!; [| exact toString_value | exact padStart_twoDigits
               | by vm_compute | by vm_compute].
  intros settings date. unfold formatDate.
  do 5 eexists. split_and!; apply replaceStr_spec;
    auto using toString_no_dollar, padStart_no_dollar.
Qed.


(* ===================================================================== *)
(** ** [shouldIgnoreFile] *)
(* ===================================================================== *)

Lemma execFrom_None (re : RegExp) (b a : str) :
  execFrom re b a = None <->
  forall i, i <= length a ->
    matcher (re_multiline re) (re_pattern re) (rev (take i a) ++ b) (drop i a)
      (replicate (re_groups re) None) finalContinuation = None.
Proof.
  revert b. induction a as [|x a IH]; intros b; cbn [execFrom].
  - destruct (matcher _ _ b [] _ _) as [[a_end cs]|] eqn:E.
    + split; [done|]. intros Hn. specialize (Hn 0 ltac:(simpl; lia)).
      simpl in Hn. congruence.
    + split; [|done]. intros _ i Hi. simpl in Hi.
      assert (i = 0) as -> by lia. done.
  - destruct (matcher _ _ b (x :: a) _ _) as [[a_end cs]|] eqn:E.
    + split; [done|]. intros Hn. specialize (Hn 0 ltac:(simpl; lia)).
      simpl in Hn. congruence.
    + rewrite IH. split.
      * intros Hn [|i] Hi; [done|]. simpl in Hi. specialize (Hn i ltac:(lia)).
        cbn [take drop rev]. by rewrite <- app_assoc.
      * intros Hn i Hi. specialize (Hn (S i) ltac:(simpl; lia)).
        cbn [take drop rev] in Hn. by rewrite <- app_assoc in Hn.
Qed.

Lemma execFrom_Some (re : RegExp) (b a : str) (m : MatchResult) :
  execFrom re b a = Some m ->
  exists i, i <= length a /\
    matcher (re_multiline re) (re_pattern re) (rev (take i a) ++ b) (drop i a)
      (replicate (re_groups re) None) finalContinuation <> None.
Proof.
  revert b. induction a as [|x a IH]; intros b; cbn [execFrom].
  - destruct (matcher _ _ b [] _ _) as [[a_end cs]|] eqn:E; [|done].
    intros _. exists 0. split; [done|]. simpl. congruence.
  - destruct (matcher _ _ b (x :: a) _ _) as [[a_end cs]|] eqn:E.
    + intros _. exists 0. split; [simpl; lia|]. simpl. congruence.
    + intros (i & Hi & Hm)%IH. exists (S i). split; [simpl; lia|].
      cbn [take drop rev]. by rewrite <- app_assoc.
Qed.

(** [test] searches every start index: it is not anchored. *)
Lemma test_unanchored (re : RegExp) (s : str) :
  test re s = true <-> exists i, i <= length s /\ MatchesAt re s i.
Proof.
  unfold test, exec, MatchesAt.
  destruct (execFrom re [] s) as [m|] eqn:E.
  - split; [|done]. intros _. apply execFrom_Some in E as (i & Hi & Hm).
    exists i. split; [done|]. by rewrite app_nil_r in Hm.
  - split; [done|]. intros (i & Hi & Hm).
    pose proof (proj1 (execFrom_None re [] s) E i Hi) as Hn.
    rewrite app_nil_r in Hn. done.
Qed.

Lemma some_true {A} (f : A -> Outcome bool) (l : list A) :
  some f l = Ok true <->
  exists before x after,
    l = before ++ x :: after /\ f x = Ok true /\ Forall (fun y => f y = Ok false) before.
Proof.
  induction l as [|y l IH]; cbn [some].
  - split; [done|]. intros (before & x & after & Hl & _). by destruct before.
  - cbn [mbind outcome_bind]. destruct (f y) as [[]| |] eqn:E.
    + split; [|done]. intros _. exists [], y, l. split_and!; [done | done | constructor].
    + rewrite IH. split.
      * intros (before & x & after & -> & Hx & Hb). exists (y :: before), x, after.
        split_and!; [done | done | by constructor].
      * intros (before & x & after & Hl & Hx & Hb). destruct before as [|y' before].
        -- simplify_eq/=. congruence.
        -- simplify_eq/=. apply Forall_cons in Hb as [_ Hb]. by exists before, x, after.
    + split; [done|]. intros (before & x & after & Hl & Hx & Hb).
      destruct before as [|y' before]; simplify_eq/=; [congruence|].
      apply Forall_cons in Hb as [Hy _]. congruence.
    + split; [done|]. intros (before & x & after & Hl & Hx & Hb).
      destruct before as [|y' before]; simplify_eq/=; [congruence|].
      apply Forall_cons in Hb as [Hy _]. congruence.
Qed.

Lemma some_false {A} (f : A -> Outcome bool) (l : list A) :
  some f l = Ok false <-> Forall (fun y => f y = Ok false) l.
Proof.
  induction l as [|y l IH]; cbn [some].
  - split; [constructor | done].
  - cbn [mbind outcome_bind]. rewrite Forall_cons. destruct (f y) as [[]| |] eqn:E.
    + split; [done | by intros [? _]].
    + rewrite IH. split; [done | by intros [_ ?]].
    + split; [done | by intros [? _]].
    + split; [done | by intros [? _]].
Qed.

Lemma some_throws {A} (f : A -> Outcome bool) (l : list A) (e : Exn) :
  some f l = Throws e <->
  exists before x after,
    l = before ++ x :: after /\ f x = Throws e /\ Forall (fun y => f y = Ok false) before.
Proof.
  induction l as [|y l IH]; cbn [some].
  - split; [done|]. intros (before & x & after & Hl & _). by destruct before.
  - cbn [mbind outcome_bind]. destruct (f y) as [[]| |] eqn:E.
    + split; [done|]. intros (before & x & after & Hl & Hx & Hb).
      destruct before as [|y' before]; simplify_eq/=; [congruence|].
      apply Forall_cons in Hb as [Hy _]. congruence.
    + rewrite IH. split.
      * intros (before & x & after & -> & Hx & Hb). exists (y :: before), x, after.
        split_and!; [done | done | by constructor].
      * intros (before & x & after & Hl & Hx & Hb). destruct before as [|y' before].
        -- simplify_eq/=. congruence.
        -- simplify_eq/=. apply Forall_cons in Hb as [_ Hb]. by exists before, x, after.
    + split.
      * intros [= <-]. exists [], y, l. split_and!; [done | done | constructor].
      * intros (before & x & after & Hl & Hx & Hb).
        destruct before as [|y' before]; simplify_eq/=; [congruence|].
        apply Forall_cons in Hb as [Hy _]. congruence.
    + split; [done|]. intros (before & x & after & Hl & Hx & Hb).
      destruct before as [|y' before]; simplify_eq/=; [congruence|].
      apply Forall_cons in Hb as [Hy _]. congruence.
Qed.

Lemma some_modelled {A} (f : A -> Outcome bool) (l : list A) :
  (forall x, x ∈ l -> f x <> Unmodelled) -> some f l <> Unmodelled.
Proof.
  induction l as [|y l IH]; intros Hl; cbn [some]; [done|].
  cbn [mbind outcome_bind]. destruct (f y) as [[]| |] eqn:E; [done| |done|].
  - apply IH. intros x Hx. apply Hl. by right.
  - destruct (Hl y); [by left|done].
Qed.

Lemma some_ext {A} (f g : A -> Outcome bool) (l : list A) :
  (forall x, f x = g x) -> some f l = some g l.
Proof.
  intros Hfg. induction l as [|y l IH]; cbn [some]; [done|]. by rewrite Hfg, IH.
Qed.

Lemma testWith_true {R : Type} (matcherAt : R -> str -> nat -> bool) (regex : R) (s : str) :
  testWith matcherAt regex s = true <->
  exists i, i <= length s /\ matcherAt regex s i = true.
Proof.
  unfold testWith. rewrite existsb_exists. split.
  - intros (i & Hi%in_seq & Hm). exists i. split; [lia|done].
  - intros (i & Hi & Hm). exists i. split; [apply in_seq; lia|done].
Qed.

Lemma testWith_false {R : Type} (matcherAt : R -> str -> nat -> bool) (regex : R) (s : str) :
  testWith matcherAt regex s = false <->
  forall i, i <= length s -> matcherAt regex s i = false.
Proof.
  rewrite <- not_true_iff_false, testWith_true. split.
  - intros Hn i Hi. apply not_true_iff_false. intros Hm. apply Hn. by exists i.
  - intros Hall (i & Hi & Hm). rewrite (Hall i Hi) in Hm. done.
Qed.

(** [test] is [testWith] on the matcher of the embedding. *)
Lemma test_testWith (re : RegExp) (s : str) : test re s = testWith matchesAt re s.
Proof.
  apply eq_true_iff_eq. rewrite test_unanchored, testWith_true.
  unfold MatchesAt, matchesAt.
  split; intros (i & Hi & Hm); exists i; (split; [done|]).
  - by destruct (matcher _ _ _ _ _ _).
  - by destruct (matcher _ _ _ _ _ _).
Qed.

(** C8 (amended). [shouldIgnoreFile] compiles and tests the patterns in
    the order of the list, with the regular expressions of whatever engine
    runs it. It returns [true] exactly when some pattern compiles and
    matches at some index of the path (it is not anchored) and every
    pattern before it compiles and matches nowhere in the path; it returns
    [false] exactly when every pattern compiles and matches nowhere; and it
    throws exactly when [new RegExp] throws on some pattern and every
    pattern before that one compiles and matches nowhere. When all patterns
    compile this is the claim: [true] if and only if some pattern matches
    somewhere in the path. The plugin's function is the one for the
    patterns and the matcher of this embedding, on which the two examples
    of the claim are evaluated. *)
Theorem shouldIgnoreFile_spec :
  (forall (R : Type) (compile : str -> Outcome R) (matcherAt : R -> str -> nat -> bool)
          (settings : AutoTimestampSettings) (file : TFile),
      (shouldIgnoreFileWith settings compile matcherAt file = Ok true <->
       exists before p after,
         ignorePatterns settings = before ++ p :: after /\
         MatchesWith compile matcherAt p (path file) /\
         Forall (fun q => FailsWith compile matcherAt q (path file)) before) /\
      (shouldIgnoreFileWith settings compile matcherAt file = Ok false <->
       Forall (fun q => FailsWith compile matcherAt q (path file))
         (ignorePatterns settings)) /\
      (forall e : Exn,
          shouldIgnoreFileWith settings compile matcherAt file = Throws e <->
          exists before p after,
            ignorePatterns settings = before ++ p :: after /\
            compile p = Throws e /\
            Forall (fun q => FailsWith compile matcherAt q (path file)) before) /\
      ((forall p, p ∈ ignorePatterns settings -> compile p <> Unmodelled) ->
       shouldIgnoreFileWith settings compile matcherAt file <> Unmodelled) /\
      (Forall (fun q => exists re, compile q = Ok re) (ignorePatterns settings) ->
       (shouldIgnoreFileWith settings compile matcherAt file = Ok true <->
        exists p, p ∈ ignorePatterns settings /\
                  MatchesWith compile matcherAt p (path file)) /\
       (shouldIgnoreFileWith settings compile matcherAt file = Ok false <->
        ~ exists p, p ∈ ignorePatterns settings /\
                    MatchesWith compile matcherAt p (path file)))) /\
  (forall (settings : AutoTimestampSettings) (file : TFile),
      shouldIgnoreFile settings file
      = shouldIgnoreFileWith settings (fun pattern => newRegExp pattern false) matchesAt
          file) /\
  shouldIgnoreFile (mkSettings "yyyy-MM-dd" "created" "modified" ["templates/.*"])
    (mkTFile "templates/foo.md" "md") = Ok true /\
  shouldIgnoreFile (mkSettings "yyyy-MM-dd" "created" "modified" ["templates/.*"])
    (mkTFile "notes/foo.md" "md") = Ok false.
Proof.
  split_and!; [| | by vm_compute | by vm_compute].
  2:{ intros settings file. unfold shouldIgnoreFile, shouldIgnoreFileWith.
      apply some_ext. intros p. destruct (newRegExp p false); [|done..].
      cbn [mbind outcome_bind]. by rewrite test_testWith. }
  intros R compile matcherAt settings file. unfold shouldIgnoreFileWith.
  set (f := fun pattern => regex ← compile pattern;
                           Ok (testWith matcherAt regex (path file))).
  assert (forall p, f p = Ok true <-> MatchesWith compile matcherAt p (path file)) as Ht.
  { intros p. unfold f, MatchesWith.
    destruct (compile p) as [re| |]; cbn [mbind outcome_bind].
    - split.
      + intros [= Hm]. exists re. split; [done|]. by apply testWith_true.
      + intros (re' & [= <-] & Hm). f_equal. by apply testWith_true.
    - split; [done | by intros (re' & ? & _)].
    - split; [done | by intros (re' & ? & _)]. }
  assert (forall p, f p = Ok false <-> FailsWith compile matcherAt p (path file)) as Hf.
  { intros p. unfold f, FailsWith.
    destruct (compile p) as [re| |]; cbn [mbind outcome_bind].
    - split.
      + intros [= Hm]. exists re. split; [done|]. by apply testWith_false.
      + intros (re' & [= <-] & Hm). f_equal. by apply testWith_false.
    - split; [done | by intros (re' & ? & _)].
    - split; [done | by intros (re' & ? & _)]. }
  assert (forall p e, f p = Throws e <-> compile p = Throws e) as Hthrow.
  { intros p e. unfold f.
    destruct (compile p) as [re| |]; cbn [mbind outcome_bind]; split; congruence. }
  assert (forall p, f p = Unmodelled <-> compile p = Unmodelled) as Hun.
  { intros p. unfold f.
    destruct (compile p) as [re| |]; cbn [mbind outcome_bind]; split; congruence. }
  assert (forall l, Forall (fun y => f y = Ok false) l
                    <-> Forall (fun q => FailsWith compile matcherAt q (path file)) l) as HF.
  { intros l. apply Forall_proper; [|done]. intros q. apply Hf. }
  assert (some f (ignorePatterns settings) = Ok true <->
          exists before p after,
            ignorePatterns settings = before ++ p :: after /\
            MatchesWith compile matcherAt p (path file) /\
            Forall (fun q => FailsWith compile matcherAt q (path file)) before) as Htrue.
  { rewrite some_true. split.
    - intros (before & x & after & Hl & Hx & Hb). exists before, x, after.
      split_and!; [done | by apply Ht | by apply HF].
    - intros (before & x & after & Hl & Hx & Hb). exists before, x, after.
      split_and!; [done | by apply Ht | by apply HF]. }
  assert (some f (ignorePatterns settings) = Ok false <->
          Forall (fun q => FailsWith compile matcherAt q (path file))
            (ignorePatterns settings)) as Hfalse.
  { by rewrite some_false, HF. }
  split_and!; [done | done | | |].
  - intros e. rewrite some_throws. split.
    + intros (before & x & after & Hl & Hx & Hb). exists before, x, after.
      split_and!; [done | by apply Hthrow | by apply HF].
    + intros (before & x & after & Hl & Hx & Hb). exists before, x, after.
      split_and!; [done | by apply Hthrow | by apply HF].
  - intros Hall. apply some_modelled. intros p Hp E. by apply (Hall p Hp), Hun.
  - intros Hall.
    assert (forall q, q ∈ ignorePatterns settings ->
              MatchesWith compile matcherAt q (path file)
              \/ FailsWith compile matcherAt q (path file)) as Hdec.
    { intros q Hq. rewrite Forall_forall in Hall. destruct (Hall q Hq) as [re Hre].
      destruct (testWith matcherAt re (path file)) eqn:E.
      - left. exists re. split; [done|]. by apply testWith_true.
      - right. exists re. split; [done|]. by apply testWith_false. }
    assert (forall q, MatchesWith compile matcherAt q (path file) ->
                      FailsWith compile matcherAt q (path file) -> False) as Hexcl.
    { intros q (re & Hre & i & Hi & Hm) (re' & Hre' & Hn).
      assert (re' = re) as -> by congruence. rewrite (Hn i Hi) in Hm. done. }
    split.
    + rewrite Htrue. split.
      * intros (before & p & after & Hl & Hp & _). exists p. split; [|done].
        rewrite Hl. apply elem_of_app. right. by left.
      * intros (p & Hin & Hp). revert Hdec Hin. generalize (ignorePatterns settings).
        intros l. induction l as [|q l IH]; intros Hdec Hin; [by apply elem_of_nil in Hin|].
        destruct (Hdec q ltac:(by left)) as [Hq | Hq].
        -- exists [], q, l. split_and!; [done | done | constructor].
        -- apply elem_of_cons in Hin as [-> | Hin]; [by destruct (Hexcl q)|].
           destruct IH as (before & p' & after & -> & Hp' & Hb);
             [intros q' Hq'; apply Hdec; by right | done |].
           exists (q :: before), p', after. split_and!; [done | done | by constructor].
    + rewrite Hfalse, Forall_forall. split.
      * intros Hn (p & Hin & Hp). by apply (Hexcl p Hp), Hn.
      * intros Hn q Hq. destruct (Hdec q Hq) as [Hm | Hm]; [|done].
        destruct Hn. by exists q.
Qed.

Lemma shouldIgnoreFile_spec_witness :
  shouldIgnoreFileWith
    (mkSettings "yyyy-MM-dd" "created" "modified" ["templates/.*"; "daily/.*"])
    (fun pattern => newRegExp pattern false) matchesAt
    (mkTFile "daily/2024-12-29.md" "md") = Ok true.
Proof.
  destruct (proj1 shouldIgnoreFile_spec RegExp (fun pattern => newRegExp pattern false)
              matchesAt
              (mkSettings "yyyy-MM-dd" "created" "modified" ["templates/.*"; "daily/.*"])
              (mkTFile "daily/2024-12-29.md" "md")) as (_ & _ & _ & _ & Hall).
  apply Hall.
  - constructor; [eexists; by vm_compute|].
    constructor; [eexists; by vm_compute|]. constructor.
  - exists "daily/.*". split; [right; by left|].
    eexists. split; [by vm_compute|]. exists 0. split; [simpl; lia | by vm_compute].
Defined.

(** C8 as stated fails when a pattern is no regular expression:
    [*.md] does not compile, so [shouldIgnoreFile] throws although the next
    pattern of the list matches the path. *)
Lemma shouldIgnoreFile_spec_counterexample :
  shouldIgnoreFile (mkSettings "yyyy-MM-dd" "created" "modified" ["*.md"; "notes/.*"])
    (mkTFile "notes/foo.md" "md") = Throws SyntaxError
  /\ "notes/.*" ∈ ["*.md"; "notes/.*"]
  /\ PatternMatches "notes/.*" "notes/foo.md".
Proof.
  split_and!; [by vm_compute | right; by left |].
  eexists. split; [by vm_compute | by vm_compute].
Qed.

(* ===================================================================== *)
(** ** The handlers: writes *)
(* ===================================================================== *)

Section HandlerFacts.
Context {W : Type} `{Host W}.

Lemma writes_none (edit : AutoTimestampSettings -> str -> str -> Outcome str)
    (file : TFile) (st st' : State W) (new : list HostCall) :
  calls st' = new ++ calls st -> world st' = world st ->
  (forall f d, CallModify f d ∉ new) ->
  WritesOnlyChanges edit file st st'.
Proof.
  intros Hc Hw Hn. exists new. split_and!; [done | | done | done].
  intros f d Hin. by destruct (Hn f d).
Qed.

Lemma handler_writes (edit : AutoTimestampSettings -> str -> str -> Outcome str)
    (wait : Async W unit) (file : TFile) (st : State W) :
  (forall s, wait s = (Ok tt, s)) ->
  WritesOnlyChanges edit file st
    (snd ((updating ← getIsUpdating;
           skip ← (if updating : bool then mret true
                   else editor (fun settings => shouldIgnoreFile settings file));
           if skip : bool then mret tt
           else
             _ ← wait;
             content ← read file;
             date ← currentDate;
             now ← editor (fun settings => Ok (formatDate settings date));
             updatedContent ← editor (fun settings => edit settings content now);
             if negb (strEqb updatedContent content) then
               _ ← setIsUpdating true;
               _ ← modify file updatedContent;
               setIsUpdating false
             else mret tt) st)).
Proof.
  intros Hwait.
  assert (forall c : HostCall, forall f d, c = CallRead file -> CallModify f d ∉ [c]) as Hread.
  { intros c f d -> Hin. apply list_elem_of_singleton in Hin. done. }
  unfold mbind, async_bind, mret, async_ret, getIsUpdating, editor. cbn [fst snd].
  destruct (isUpdating st) eqn:Eu.
  { apply (writes_none _ _ _ _ []); [done | done |]. intros f d Hin. by apply elem_of_nil in Hin. }
  destruct (shouldIgnoreFile (settings st) file) as [[]| |] eqn:Ei;
    try (apply (writes_none _ _ _ _ []); [done | done |];
         intros f d Hin; by apply elem_of_nil in Hin).
  rewrite Hwait. unfold read, currentDate. cbn [settings isUpdating world calls].
  destruct (vaultRead file (world st)) as [content| |] eqn:Er;
    try (apply (writes_none _ _ _ _ [CallRead file]); [done | done | by auto]).
  cbn [settings isUpdating world calls].
  fold (stamp st).
  destruct (edit (settings st) content (stamp st)) as [updated| |] eqn:Ee;
    try (apply (writes_none _ _ _ _ [CallRead file]); [done | done | by auto]).
  destruct (strEqb updated content) eqn:Eq; cbn [negb].
  { apply (writes_none _ _ _ _ [CallRead file]); [done | done | by auto]. }
  apply strEqb_neq in Eq.
  unfold setIsUpdating, modify. cbn [settings isUpdating world calls].
  destruct (vaultModify file updated (world st)) as [r w'] eqn:Em.
  exists [CallModify file updated; CallRead file].
  assert (forall f d, CallModify f d ∈ [CallModify file updated; CallRead file] ->
                      f = file /\ d = updated) as Hin.
  { intros f d [Hc | Hc]%elem_of_cons; [by simplify_eq|].
    apply list_elem_of_singleton in Hc. done. }
  split_and!.
  - by destruct r as [[]| |].
  - intros f d [-> ->]%Hin. split; [done|]. by exists content.
  - intros Hn. destruct (Hn file updated). by left.
  - intros content' Hr' He'. simplify_eq. congruence.
Qed.

(** C9. Each handler writes to storage only the editor's result for the
    content it read, and only when that result differs from the content;
    when the editor maps the content to itself the handler makes no write
    and leaves the host as it was. *)
Theorem handlers_write_only_changes (file : TFile) (st : State W) :
  WritesOnlyChanges (fun settings content now => addFrontmatter settings content now now)
    file st (snd (handleFileCreate file st)) /\
  WritesOnlyChanges (fun settings content now => updateModifiedTime settings content now)
    file st (snd (handleFileModify file st)).
Proof.
  split.
  - apply (handler_writes
             (fun settings content now => addFrontmatter settings content now now)
             (delay 100)). done.
  - pose proof (handler_writes
                  (fun settings content now => updateModifiedTime settings content now)
                  (mret tt) file st ltac:(done)) as Hm.
    exact Hm.
Qed.
End HandlerFacts.

(* ===================================================================== *)
(** ** The handlers: a write that throws *)
(* ===================================================================== *)

Section WriteFailure.
Context {W : Type} `{Host W}.

(** The handlers between their [await]s are the handlers of the previous
    sections when nothing runs in between. *)
Lemma complete_create (file : TFile) (st : State W) :
  (t ← handleFileCreateTask file; complete t) st = handleFileCreate file st.
Proof.
  unfold handleFileCreateTask, handleFileCreate.
  cbv [mbind async_bind mret async_ret getIsUpdating editor delay].
  destruct (isUpdating st); [done|].
  destruct (shouldIgnoreFile (settings st) file) as [[]| |]; try done.
  cbn [complete]. unfold read, currentDate. cbn [settings isUpdating world calls].
  destruct (vaultRead file (world st)) as [content| |]; try done.
  cbn [settings isUpdating world calls].
  destruct (addFrontmatter _ _ _ _) as [updated| |]; try done.
  unfold writeIfChanged. destruct (strEqb updated content); cbn [negb]; [done|].
  cbv [mbind async_bind mret async_ret setIsUpdating]. cbn [complete].
  unfold finishWrite, modify. cbv [mbind async_bind mret async_ret setIsUpdating].
  cbn [settings isUpdating world calls].
  destruct (vaultModify _ _ _) as [[[]| |] w']; done.
Qed.

Lemma complete_modify (file : TFile) (st : State W) :
  (t ← handleFileModifyTask file; complete t) st = handleFileModify file st.
Proof.
  unfold handleFileModifyTask, handleFileModify.
  cbv [mbind async_bind mret async_ret getIsUpdating editor].
  destruct (isUpdating st); [done|].
  destruct (shouldIgnoreFile (settings st) file) as [[]| |]; try done.
  cbn [complete]. unfold read, currentDate. cbn [settings isUpdating world calls].
  destruct (vaultRead file (world st)) as [content| |]; try done.
  cbn [settings isUpdating world calls].
  destruct (updateModifiedTime _ _ _) as [updated| |]; try done.
  unfold writeIfChanged. destruct (strEqb updated content); cbn [negb]; [done|].
  cbv [mbind async_bind mret async_ret setIsUpdating]. cbn [complete].
  unfold finishWrite, modify. cbv [mbind async_bind mret async_ret setIsUpdating].
  cbn [settings isUpdating world calls].
  destruct (vaultModify _ _ _) as [[[]| |] w']; done.
Qed.




Lemma isMarkdown_md (file : TFile) :
  extension file = "md" -> isMarkdown (IsTFile file) = Some file.
Proof. intros E. cbn [isMarkdown]. by rewrite E. Qed.

End WriteFailure.



(* ===================================================================== *)
(** ** Applying [updateModifiedTime] twice *)
(* ===================================================================== *)

Lemma forallb_not_elem (c : ascii) (s : str) :
  forallb (fun x => negb (Ascii.eqb x c)) s = true <-> c ∉ s.
Proof.
  induction s as [|x s IH]; simpl.
  - split; [intros _; apply not_elem_of_nil | done].
  - rewrite andb_true_iff, IH, not_elem_of_cons, negb_true_iff.
    split; intros [Hx Hs]; (split; [|done]).
    + intros ->. by rewrite Ascii.eqb_refl in Hx.
    + destruct (Ascii.eqb x c) eqn:E; [|done]. apply ascii_eqb_true in E. by subst.
Qed.

Lemma isOneLine_app (s t : str) : isOneLine (s ++ t) = isOneLine s && isOneLine t.
Proof. apply forallb_app. Qed.

Lemma isOneLine_LF (s : str) : isOneLine s = true -> LF ∉ s.
Proof.
  induction s as [|x s IH]; intros Hs; [apply not_elem_of_nil|].
  simpl in Hs. apply andb_true_iff in Hs as [Hx Hs].
  apply not_elem_of_cons. split; [|by apply IH]. intros <-. done.
Qed.

(** A prefix test does not look behind a code unit the prefix lacks. *)
Lemma startsWith_cut (p u v : str) (c : ascii) :
  c ∉ p -> startsWith p (u ++ c :: v) = startsWith p u.
Proof.
  revert u. induction p as [|a p IH]; intros u Hc; [done|].
  apply not_elem_of_cons in Hc as [Hca Hc]. destruct u as [|y u]; simpl.
  - destruct (Ascii.eqb a c) eqn:E; [|done]. apply ascii_eqb_true in E. by subst.
  - by rewrite IH.
Qed.

Lemma dash_not_terminator (t : ascii) :
  isLineTerminator t = true -> t ∉ ("---" : str).
Proof.
  intros Ht Hin. repeat (apply elem_of_cons in Hin as [-> | Hin]; [done|]).
  by apply elem_of_nil in Hin.
Qed.

Lemma LF_terminator : isLineTerminator LF = true.
Proof. reflexivity. Qed.

Lemma dashLineFree_app (x y : str) (t : ascii) :
  isLineTerminator t = true ->
  dashLineFree (x ++ t :: y) = dashLineFree x && dashLineFree (t :: y).
Proof.
  intros Ht. induction x as [|a x IH]; [done|].
  cbn [app dashLineFree]. rewrite IH.
  rewrite (startsWith_cut "---" x y t) by (by apply dash_not_terminator).
  by rewrite andb_assoc.
Qed.

Lemma dashLineFree_oneLine (s : str) : isOneLine s = true -> dashLineFree s = true.
Proof.
  induction s as [|c s IH]; [done|]. simpl. intros [Hc Hs]%andb_true_iff.
  rewrite (IH Hs), andb_true_r.
  destruct (Ascii.eqb c LF) eqn:E; [|done]. apply ascii_eqb_true in E. by subst.
Qed.

(** The block ends at the first line feed followed by [---]: the inner
    text is dash-line free, and a dash-line free text is found again. *)
Lemma splitAtFirst_close (s rest : str) :
  splitAtFirst (nl ++ "---") (s ++ nl ++ "---" ++ rest) = Some (s, rest)
  <-> dashLineFree s = true.
Proof.
  change (s ++ nl ++ "---" ++ rest) with (s ++ LF :: "---" ++ rest).
  set (D := nl ++ "---").
  induction s as [|c s IH]; [done|].
  assert (startsWith D (c :: s ++ LF :: "---" ++ rest)
          = Ascii.eqb c LF && startsWith "---" s) as Hst.
  { unfold D. cbn [nl app startsWith]. rewrite (Ascii.eqb_sym LF c). f_equal.
    apply (startsWith_cut "---" s ("---" ++ rest) LF).
    by apply dash_not_terminator. }
  change ((c :: s) ++ LF :: "---" ++ rest) with (c :: s ++ LF :: "---" ++ rest).
  cbn [splitAtFirst]. rewrite Hst.
  cbn [dashLineFree]. destruct (Ascii.eqb c LF); cbn [andb].
  - destruct (startsWith "---" s); cbn [negb andb]; [done|].
    destruct (splitAtFirst D (s ++ LF :: "---" ++ rest)) as [[pre post]|].
    + rewrite <- IH. split; [by intros [= -> ->] | by intros [= -> ->]].
    + rewrite <- IH. done.
  - destruct (splitAtFirst D (s ++ LF :: "---" ++ rest)) as [[pre post]|].
    + rewrite <- IH. split; [by intros [= -> ->] | by intros [= -> ->]].
    + rewrite <- IH. done.
Qed.

Lemma frontmatterSplit_dashLineFree (content fm rest : str) :
  frontmatterSplit content = Some (fm, rest) -> dashLineFree fm = true.
Proof.
  intros [-> Hf]%frontmatterSplit_Some.
  apply (splitAtFirst_close fm rest). by apply splitAtFirst_first.
Qed.

Lemma frontmatterSplit_rebuilt (fm rest : str) :
  dashLineFree fm = true ->
  frontmatterSplit ("---" ++ nl ++ fm ++ nl ++ "---" ++ rest) = Some (fm, rest).
Proof.
  intros Hd. apply frontmatterSplit_Some. split; [done|].
  by apply splitAtFirst_Some, splitAtFirst_close.
Qed.

Lemma findLine_shift (p b1 b2 a : str) :
  b1 <> [] -> findLine p (b1 ++ b2) a = shift (rev b2) (findLine p b1 a).
Proof.
  revert b1. induction a as [|x a IH]; intros b1 Hb; cbn [findLine].
  - assert (atLineStart (b1 ++ b2) = atLineStart b1) as -> by (by destruct b1).
    destruct (atLineStart b1 && startsWith p []); [|done].
    cbn [shift]. by rewrite rev_app_distr.
  - assert (atLineStart (b1 ++ b2) = atLineStart b1) as -> by (by destruct b1).
    destruct (atLineStart b1 && startsWith p (x :: a)).
    + cbn [shift]. by rewrite rev_app_distr.
    + by apply (IH (x :: b1)).
Qed.

(** At the start of a line the search does not depend on what was read. *)
Lemma findLine_lineStart (p b a : str) :
  atLineStart b = true -> findLine p b a = shift (rev b) (findLine p [] a).
Proof.
  intros Hb. destruct a as [|x a]; cbn [findLine atLineStart]; rewrite Hb.
  - destruct (true && startsWith p []); [|done]. cbn [shift rev]. by rewrite app_nil_r.
  - destruct (true && startsWith p (x :: a)).
    + cbn [shift rev]. by rewrite app_nil_r.
    + apply (findLine_shift p [x] b a). done.
Qed.

Lemma findLine_skip_inside (p s : str) (x b : str) :
  isOneLine x = true -> atLineStart b = false ->
  findLine p b (x ++ LF :: s) = shift (rev b ++ x ++ [LF]) (findLine p [] s).
Proof.
  revert b. induction x as [|c x IH]; intros b Hx Hb.
  - cbn [app findLine]. rewrite Hb. cbn [andb].
    by rewrite findLine_lineStart.
  - cbn [app findLine]. rewrite Hb. cbn [andb].
    simpl in Hx. apply andb_true_iff in Hx as [Hc Hx].
    rewrite IH; [|done | by apply negb_true_iff in Hc].
    cbn [rev]. by rewrite <- !app_assoc.
Qed.

(** A first line that does not start with [p] is skipped. *)
Lemma findLine_skip_line (p l s : str) :
  isOneLine l = true -> startsWith p (l ++ LF :: s) = false ->
  findLine p [] (l ++ LF :: s) = shift (l ++ [LF]) (findLine p [] s).
Proof.
  intros Hl Hp. destruct l as [|c l].
  - cbn [app findLine] in *. rewrite Hp. cbn [atLineStart andb].
    by rewrite findLine_lineStart.
  - cbn [app findLine] in *. rewrite Hp. cbn [atLineStart andb].
    simpl in Hl. apply andb_true_iff in Hl as [Hc Hl].
    rewrite findLine_skip_inside; [done | done |]. by apply negb_true_iff in Hc.
Qed.

Lemma startsWith_long (p t u v : str) :
  length p <= length t -> startsWith p (t ++ u) = startsWith p (t ++ v).
Proof.
  revert t. induction p as [|a p IH]; intros t Hl; [done|].
  destruct t as [|y t]; [simpl in Hl; lia|]. simpl in *.
  rewrite (IH t) by lia. done.
Qed.

Lemma findLine_post_length (p b a pre post : str) :
  findLine p b a = Some (pre, post) -> length p + length post <= length a.
Proof.
  assert (forall a', startsWith p a' = true ->
            length p + length (drop (length p) a') <= length a') as Hs.
  { intros a' E%startsWith_drop. apply (f_equal length) in E.
    rewrite length_app in E. lia. }
  revert b. induction a as [|x a IH]; intros b; cbn [findLine].
  - destruct (atLineStart b && startsWith p []) eqn:E; [|done].
    apply andb_true_iff in E as [_ E]. intros [= _ <-]. by apply Hs.
  - destruct (atLineStart b && startsWith p (x :: a)) eqn:E.
    + apply andb_true_iff in E as [_ E]. intros [= _ <-]. by apply Hs.
    + intros Hf%IH. simpl. lia.
Qed.

(** The search only reads up to the end of the occurrence it finds: the
    text behind it can be replaced. *)
Lemma findLine_replace_post (p b a pre post post' : str) :
  findLine p b a = Some (pre, post) ->
  findLine p b (take (length a - length post) a ++ post') = Some (pre, post').
Proof.
  revert b. induction a as [|x a IH]; intros b; cbn [findLine].
  - destruct (atLineStart b && startsWith p []) eqn:E; [|done].
    apply andb_true_iff in E as [Hb E]. destruct p; [|done].
    intros [= <- <-]. destruct post'; simpl; by rewrite Hb.
  - destruct (atLineStart b && startsWith p (x :: a)) eqn:E.
    + apply andb_true_iff in E as [Hb E]. intros [= <- <-].
      rewrite (take_startsWith p (x :: a) E).
      destruct p as [|c p].
      * destruct post'; simpl; by rewrite Hb.
      * cbn [app findLine]. change (c :: p ++ post') with ((c :: p) ++ post').
        rewrite Hb, (startsWith_app (c :: p)). cbn [andb].
        by rewrite drop_app_length.
    + intros Hf. pose proof (findLine_post_length _ _ _ _ _ Hf) as Hlen.
      specialize (IH _ Hf).
      replace (length (x :: a) - length post) with (S (length a - length post))
        by (simpl; lia).
      cbn [take app findLine]. rewrite IH.
      assert (atLineStart b &&
              startsWith p (x :: take (length a - length post) a ++ post') = false) as ->;
        [|done].
      apply andb_false_iff in E as [E | E]; [by rewrite E|].
      apply andb_false_iff. right. rewrite <- E.
      set (n := length a - length post).
      transitivity (startsWith p ((x :: take n a) ++ drop n a)).
      * apply (startsWith_long p (x :: take n a)).
        simpl. rewrite length_take. lia.
      * cbn [app]. by rewrite take_drop.
Qed.

(** When no line starts with [p], the search finds [p] on an added last
    line. *)
Lemma findLine_appended (p b a t : str) :
  p <> [] -> LF ∉ p -> findLine p b a = None ->
  findLine p b (a ++ LF :: p ++ t) = Some (rev b ++ a ++ [LF], t).
Proof.
  intros Hne Hp. revert b. induction a as [|x a IH]; intros b; cbn [findLine app].
  - intros _.
    assert (startsWith p (LF :: p ++ t) = false) as ->.
    { destruct p as [|c p]; [done|]. simpl.
      apply not_elem_of_cons in Hp as [Hc _].
      destruct (Ascii.eqb c LF) eqn:E; [|done]. apply ascii_eqb_true in E. by subst. }
    rewrite andb_false_r. destruct p as [|c p]; [done|].
    cbn [app findLine atLineStart]. change (c :: p ++ t) with ((c :: p) ++ t).
    rewrite startsWith_app, drop_app_length. done.
  - destruct (atLineStart b && startsWith p (x :: a)) eqn:E; [done|].
    intros Hf.
    assert (atLineStart b && startsWith p (x :: a ++ LF :: p ++ t) = false) as ->.
    { apply andb_false_iff in E as [E | E]; [by rewrite E|].
      apply andb_false_iff. right. rewrite <- E.
      by apply (startsWith_cut p (x :: a) (p ++ t) LF). }
    rewrite (IH _ Hf). cbn [rev]. by rewrite <- !app_assoc.
Qed.

Lemma afterLine_oneLine (x y : str) :
  isOneLine x = true -> afterLine (x ++ y) = afterLine y.
Proof.
  induction x as [|c x IH]; [done|]. simpl. intros [Hc Hx]%andb_true_iff.
  apply negb_true_iff in Hc. rewrite Hc. by apply IH.
Qed.

Lemma afterLine_idem (a : str) : afterLine (afterLine a) = afterLine a.
Proof.
  induction a as [|x a IH]; [done|]. cbn [afterLine].
  destruct (isLineTerminator x) eqn:E; [|done]. cbn [afterLine]. by rewrite E.
Qed.

Lemma afterLine_head (a : str) :
  afterLine a = [] \/ exists t a', afterLine a = t :: a' /\ isLineTerminator t = true.
Proof.
  induction a as [|x a IH]; [by left|]. cbn [afterLine].
  destruct (isLineTerminator x) eqn:E; [|done]. right. by exists x, a.
Qed.

Lemma isOneLine_lineOf (a : str) : isOneLine (lineOf a) = true.
Proof.
  induction a as [|x a IH]; [done|]. cbn [lineOf].
  destruct (isLineTerminator x) eqn:E; [done|]. simpl. by rewrite E, IH.
Qed.

Lemma findLine_at_start (p t : str) : findLine p [] (p ++ t) = Some ([], t).
Proof.
  destruct p as [|c p].
  - destruct t; done.
  - cbn [app findLine atLineStart]. change (c :: p ++ t) with ((c :: p) ++ t).
    by rewrite startsWith_app, drop_app_length.
Qed.

Section KeyNames.
Variables (key : str).
Hypothesis Hkey : isKeyName key = true.

Lemma keyName_plain : isPlain key = true.
Proof using Hkey. unfold isKeyName in Hkey. by repeat (apply andb_true_iff in Hkey as [Hkey ?]). Qed.

Lemma keyName_oneLine : isOneLine key = true.
Proof using Hkey. unfold isKeyName in Hkey. by repeat (apply andb_true_iff in Hkey as [Hkey ?]). Qed.

Lemma keyName_no_colon : ":"%char ∉ key.
Proof using Hkey.
  unfold isKeyName in Hkey. apply forallb_not_elem.
  by repeat (apply andb_true_iff in Hkey as [Hkey ?]).
Qed.

Lemma keyName_no_dashes (t : str) : startsWith "---" (key ++ ":" ++ t) = false.
Proof using Hkey.
  assert (startsWith "---" key = false) as Hd.
  { unfold isKeyName in Hkey. apply andb_true_iff in Hkey as [_ Hd].
    by apply negb_true_iff in Hd. }
  transitivity (startsWith "---" key); [|done].
  apply (startsWith_cut "---" key t ":"%char).
  intros Hin. repeat (apply elem_of_cons in Hin as [Hin | Hin]; [done|]).
  by apply elem_of_nil in Hin.
Qed.

Lemma keyName_pattern_oneLine : isOneLine (key ++ ":") = true.
Proof using Hkey. by rewrite isOneLine_app, keyName_oneLine. Qed.

Lemma keyName_pattern_nonempty : key ++ ":" <> [].
Proof using Hkey. by destruct key. Qed.

(** The block after the modified update: the key line it holds, found
    first, with the value and the end of its line. *)
Lemma setKeyLine_shape (value fm : str) :
  exists pre after,
    setKeyLine key value fm = pre ++ (key ++ ":") ++ " " ++ value ++ after /\
    findLine (key ++ ":") [] (setKeyLine key value fm) = Some (pre, " " ++ value ++ after) /\
    afterLine after = after /\
    EndsLine pre /\
    ((exists post, findLine (key ++ ":") [] fm = Some (pre, post) /\ after = afterLine post)
     \/ (findLine (key ++ ":") [] fm = None /\ pre = fm ++ [LF] /\ after = [])).
Proof using Hkey.
  unfold setKeyLine.
  destruct (findLine (key ++ ":") [] fm) as [[pre post]|] eqn:E.
  - exists pre, (afterLine post).
    pose proof (findLine_Some _ _ _ _ E) as [[Hfm Hends] _].
    split_and!; [done | | apply afterLine_idem | done | left; by exists post].
    pose proof (findLine_replace_post _ _ _ _ _ (" " ++ value ++ afterLine post) E) as Hr.
    assert (take (length fm - length post) fm = pre ++ key ++ ":") as Ht.
    { rewrite Hfm at 1 2.
      replace (pre ++ (key ++ ":") ++ post) with ((pre ++ key ++ ":") ++ post)
        by (by rewrite <- !app_assoc).
      apply take_before. }
    rewrite Ht in Hr. by rewrite <- !app_assoc in *.
  - exists (fm ++ [LF]), [].
    assert (fm ++ nl ++ key ++ ": " ++ value
            = fm ++ LF :: (key ++ ":") ++ " " ++ value) as Heq
      by (by rewrite <- !app_assoc).
    split_and!.
    + rewrite Heq, app_nil_r. by rewrite <- !app_assoc.
    + rewrite Heq, app_nil_r.
      apply (findLine_appended (key ++ ":") [] fm (" " ++ value));
        [apply keyName_pattern_nonempty | | done].
      apply isOneLine_LF, keyName_pattern_oneLine.
    + done.
    + right. by exists fm, LF.
    + right. done.
Qed.

Lemma setKeyLine_idem (value fm : str) :
  isOneLine value = true ->
  setKeyLine key value (setKeyLine key value fm) = setKeyLine key value fm.
Proof using Hkey.
  intros Hv. destruct (setKeyLine_shape value fm) as (pre & after & Hs & Hf & Ha & _).
  unfold setKeyLine at 1. rewrite Hf, Hs.
  change (" " ++ value ++ after) with ((" " ++ value) ++ after).
  rewrite afterLine_oneLine, Ha; [done|]. by rewrite isOneLine_app, Hv.
Qed.

Lemma setKeyLine_hasKeyLine (value fm : str) :
  hasKeyLine key (setKeyLine key value fm) = true.
Proof using Hkey.
  destruct (setKeyLine_shape value fm) as (pre & after & _ & Hf & _).
  unfold hasKeyLine. by rewrite Hf.
Qed.

(** A line put between the end of a line and the end of the text or a
    line terminator adds no dash line, unless it starts with dashes. *)
Lemma dashLineFree_line (P M A : str) :
  EndsLine P -> isOneLine M = true -> startsWith "---" M = false ->
  (A = [] \/ exists t A', A = t :: A' /\ isLineTerminator t = true) ->
  dashLineFree (P ++ M ++ A) = dashLineFree P && dashLineFree A.
Proof using Hkey.
  intros HP HM Hd HA.
  assert (dashLineFree (M ++ A) = dashLineFree A /\ startsWith "---" (M ++ A) = false)
    as [HMA HdA].
  { destruct HA as [-> | (t & A' & -> & Ht)].
    - rewrite app_nil_r. split; [by apply dashLineFree_oneLine | done].
    - split.
      + rewrite dashLineFree_app by done. by rewrite dashLineFree_oneLine.
      + transitivity (startsWith "---" M); [|done].
        apply startsWith_cut. by apply dash_not_terminator. }
  destruct HP as [-> | (p0 & t0 & -> & Ht0)]; [done|].
  rewrite <- !app_assoc. cbn [app].
  rewrite !dashLineFree_app by done. cbn [dashLineFree].
  rewrite HdA, HMA. cbn [negb andb startsWith].
  by destruct (Ascii.eqb t0 LF), (dashLineFree p0), (dashLineFree A).
Qed.

Lemma dashLineFree_setKeyLine (value fm : str) :
  isOneLine value = true -> dashLineFree fm = true ->
  dashLineFree (setKeyLine key value fm) = true.
Proof using Hkey.
  intros Hv Hfm.
  destruct (setKeyLine_shape value fm)
    as (pre & after & Hs & _ & _ & Hends & [(post & Hf & ->) | (Hf & -> & ->)]).
  - rewrite Hs. apply findLine_Some in Hf as [[Hfm' _] _].
    rewrite Hfm', <- (lineOf_afterLine post) in Hfm.
    replace (pre ++ (key ++ ":") ++ lineOf post ++ afterLine post)
      with (pre ++ ((key ++ ":") ++ lineOf post) ++ afterLine post) in Hfm
      by (by rewrite <- !app_assoc).
    rewrite dashLineFree_line in Hfm;
      [| done
       | by rewrite isOneLine_app, keyName_pattern_oneLine, isOneLine_lineOf
       | rewrite <- app_assoc; apply keyName_no_dashes
       | apply afterLine_head].
    replace (pre ++ (key ++ ":") ++ " " ++ value ++ afterLine post)
      with (pre ++ ((key ++ ":") ++ " " ++ value) ++ afterLine post)
      by (by rewrite <- !app_assoc).
    rewrite dashLineFree_line;
      [done | done
       | by rewrite !isOneLine_app, keyName_oneLine, Hv
       | rewrite <- app_assoc; apply keyName_no_dashes
       | apply afterLine_head].
  - rewrite Hs, app_nil_r.
    rewrite <- app_assoc. cbn [app]. rewrite dashLineFree_app by done.
    rewrite Hfm. cbn [dashLineFree andb]. rewrite Ascii.eqb_refl.
    rewrite <- app_assoc, keyName_no_dashes. cbn [negb andb].
    apply dashLineFree_oneLine. rewrite isOneLine_app, keyName_oneLine. simpl. exact Hv.
Qed.

Lemma no_dashes_setKeyLine (value fm : str) :
  startsWith "---" fm = false -> startsWith "---" (setKeyLine key value fm) = false.
Proof using Hkey.
  intros Hfm.
  destruct (setKeyLine_shape value fm)
    as (pre & after & Hs & _ & _ & Hends & [(post & Hf & ->) | (Hf & -> & ->)]).
  - rewrite Hs. apply findLine_Some in Hf as [[Hfm' _] _].
    destruct Hends as [-> | (p0 & t0 & -> & Ht0)].
    + rewrite app_nil_l, <- app_assoc. apply keyName_no_dashes.
    + rewrite Hfm', <- !app_assoc in Hfm. cbn [app] in Hfm.
      rewrite startsWith_cut in Hfm by (by apply dash_not_terminator).
      rewrite <- !app_assoc. cbn [app].
      by rewrite startsWith_cut by (by apply dash_not_terminator).
  - rewrite Hs, <- !app_assoc. cbn [app].
    by rewrite startsWith_cut by (by apply dash_not_terminator).
Qed.
End KeyNames.

Lemma key_prefix_eq (k1 k2 t : str) :
  ":"%char ∉ k1 -> ":"%char ∉ k2 ->
  startsWith (k1 ++ ":") (k2 ++ ":" ++ t) = true -> k1 = k2.
Proof.
  revert k2. induction k1 as [|a k1 IH]; intros k2 H1 H2 Hs.
  - destruct k2 as [|c k2]; [done|]. cbn [app startsWith] in Hs.
    apply not_elem_of_cons in H2 as [Hc _]. apply andb_true_iff in Hs as [Hs _].
    apply ascii_eqb_true in Hs. by subst.
  - apply not_elem_of_cons in H1 as [Ha H1].
    destruct k2 as [|c k2]; cbn [app startsWith] in Hs.
    + apply andb_true_iff in Hs as [Hs _]. apply ascii_eqb_true in Hs. by subst.
    + apply not_elem_of_cons in H2 as [_ H2]. apply andb_true_iff in Hs as [Hac Hs].
      apply ascii_eqb_true in Hac as ->. f_equal. by apply IH.
Qed.

(** The block [updateModifiedTime] builds is a fixed point of the
    operation. *)
Lemma updated_block_fixed (ck mk V fm : str) :
  isKeyName ck = true -> isKeyName mk = true -> isOneLine V = true ->
  let F := withCreated ck V (setKeyLine mk V fm) in
  withCreated ck V (setKeyLine mk V F) = F.
Proof.
  intros Hck Hmk HV F.
  set (F1 := setKeyLine mk V fm) in *.
  destruct (hasKeyLine ck F1) eqn:Ec.
  - assert (F = F1) as -> by (unfold F, withCreated; by rewrite Ec).
    unfold F1 at 1. rewrite (setKeyLine_idem mk Hmk) by done. fold F1.
    unfold withCreated. by rewrite Ec.
  - set (L := ck ++ ": " ++ V).
    assert (F = L ++ LF :: F1) as ->.
    { unfold F, withCreated, L. rewrite Ec. by rewrite <- !app_assoc. }
    assert (isOneLine L = true) as HL.
    { unfold L. rewrite !isOneLine_app, (keyName_oneLine ck Hck), HV. done. }
    assert (startsWith (mk ++ ":") (L ++ LF :: F1) = false) as Hno.
    { destruct (startsWith (mk ++ ":") (L ++ LF :: F1)) eqn:E; [|done].
      assert (mk = ck) as ->.
      { apply (key_prefix_eq mk ck (" " ++ V ++ LF :: F1));
          [by apply keyName_no_colon | by apply keyName_no_colon |].
        unfold L in E. by rewrite <- !app_assoc in E. }
      unfold F1 in Ec. rewrite (setKeyLine_hasKeyLine ck Hck) in Ec. done. }
    destruct (setKeyLine_shape mk Hmk V fm) as (pre & after & Hs & Hf & Ha & _).
    fold F1 in Hs, Hf.
    assert (setKeyLine mk V (L ++ LF :: F1) = L ++ LF :: F1) as ->.
    { unfold setKeyLine. rewrite (findLine_skip_line _ _ _ HL Hno), Hf. cbn [shift].
      change (" " ++ V ++ after) with ((" " ++ V) ++ after).
      rewrite afterLine_oneLine, Ha by (by rewrite isOneLine_app, HV).
      rewrite Hs. by rewrite <- !app_assoc. }
    unfold withCreated.
    assert (hasKeyLine ck (L ++ LF :: F1) = true) as ->; [|done].
    unfold hasKeyLine, L.
    replace ((ck ++ ": " ++ V) ++ LF :: F1) with ((ck ++ ":") ++ " " ++ V ++ LF :: F1)
      by (by rewrite <- !app_assoc).
    by rewrite findLine_at_start.
Qed.

Lemma updated_block_dashLineFree (ck mk V fm : str) :
  isKeyName ck = true -> isKeyName mk = true -> isOneLine V = true ->
  dashLineFree fm = true -> startsWith "---" fm = false ->
  dashLineFree (withCreated ck V (setKeyLine mk V fm)) = true.
Proof.
  intros Hck Hmk HV Hfm Hd. unfold withCreated.
  pose proof (dashLineFree_setKeyLine mk Hmk V fm HV Hfm) as H1.
  pose proof (no_dashes_setKeyLine mk Hmk V fm Hd) as H2.
  set (F1 := setKeyLine mk V fm) in *.
  destruct (hasKeyLine ck F1); [done|].
  replace (ck ++ ": " ++ V ++ nl ++ F1) with ((ck ++ ": " ++ V) ++ LF :: F1)
    by (by rewrite <- !app_assoc).
  rewrite dashLineFree_app by done. cbn [dashLineFree]. rewrite Ascii.eqb_refl, H1, H2.
  rewrite dashLineFree_oneLine; [done|].
  by rewrite !isOneLine_app, (keyName_oneLine ck Hck), HV.
Qed.

(** C7 (amended). For key names without pattern syntax characters, colons
    and line terminators that do not start with three dashes, a value of one
    line without a dollar sign, and a document whose block (if it has one)
    holds no dollar sign and does not start with three dashes:
    [updateModifiedTime] applied to its own result, with the same value,
    returns that result. *)
Theorem updateModifiedTime_idempotent (settings : AutoTimestampSettings)
    (content V : str) :
  isKeyName (createdKey settings) = true ->
  isKeyName (modifiedKey settings) = true ->
  isValue V = true ->
  QuietBlock content ->
  exists once,
    updateModifiedTime settings content V = Ok once /\
    updateModifiedTime settings once V = Ok once.
Proof.
  intros Hck Hmk HV Hq.
  apply andb_true_iff in HV as [HV Hdollar]. apply forallb_not_elem in Hdollar.
  pose proof (keyName_plain _ Hck) as Hpc. pose proof (keyName_plain _ Hmk) as Hpm.
  pose proof (exec_frontmatterRegex content) as Hx.
  destruct (frontmatterSplit content) as [[fm rest]|] eqn:Hs.
  - destruct (Hq _ Hx) as [Hfm Hd]. cbn [group1 m_captures] in Hfm, Hd.
    set (F := withCreated (createdKey settings) V (setKeyLine (modifiedKey settings) V fm)).
    assert ("$"%char ∉ F) as HF.
    { apply no_dollar_withCreated; [done | done |]. by apply no_dollar_setKeyLine. }
    exists ("---" ++ nl ++ F ++ nl ++ "---" ++ rest). split.
    + by apply updateModifiedTime_plain.
    + assert (frontmatterSplit ("---" ++ nl ++ F ++ nl ++ "---" ++ rest) = Some (F, rest))
        as Hs'.
      { apply frontmatterSplit_rebuilt, updated_block_dashLineFree; try done.
        by apply (frontmatterSplit_dashLineFree content fm rest). }
      rewrite (updateModifiedTime_plain settings _ V F rest Hpc Hpm Hs' Hdollar).
      * unfold F. by rewrite updated_block_fixed.
      * unfold F. by rewrite updated_block_fixed.
  - exists content. unfold updateModifiedTime. by rewrite Hx.
Qed.

Lemma updateModifiedTime_idempotent_witness :
  exists once,
    updateModifiedTime DEFAULT_SETTINGS
      (joinLines ["---"; "title: x"; "modified: 1"; "---"; "body"]) "2" = Ok once /\
    updateModifiedTime DEFAULT_SETTINGS once "2" = Ok once.
Proof.
  apply (updateModifiedTime_idempotent DEFAULT_SETTINGS
           (joinLines ["---"; "title: x"; "modified: 1"; "---"; "body"]) "2").
  - reflexivity.
  - reflexivity.
  - reflexivity.
  - intros m Hm. vm_compute in Hm. injection Hm as <-. split; [|reflexivity].
    cbn [group1 m_captures]. intros H.
    repeat (apply elem_of_cons in H as [H|H]; [done|]). by apply elem_of_nil in H.
Defined.

(** C7 as stated fails when the block starts with a [---] line: the line
    [created: X] put first makes that line close the block, so the second
    application works on another block and adds a [modified] line to it. *)
Lemma updateModifiedTime_idempotent_counterexample :
  updateModifiedTime DEFAULT_SETTINGS
    (joinLines ["---"; "---"; "title: x"; "---"; "body"]) "X"
  = Ok (joinLines ["---"; "created: X"; "---"; "title: x"; "modified: X"; "---"; "body"])
  /\
  updateModifiedTime DEFAULT_SETTINGS
    (joinLines ["---"; "created: X"; "---"; "title: x"; "modified: X"; "---"; "body"]) "X"
  = Ok (joinLines ["---"; "created: X"; "modified: X"; "---"; "title: x"; "modified: X";
                   "---"; "body"]).
Proof. by vm_compute. Qed.

(* ===================================================================== *)
(** ** The settings tab: ignore patterns *)
(* ===================================================================== *)

Lemma trimStart_blank (s : str) : isBlank s = true -> trimStart s = [].
Proof.
  induction s as [|c s IH]; simpl; [done|].
  intros [Hc Hs]%andb_true_iff. rewrite Hc. auto.
Qed.

Lemma trimStart_head (s : str) (c : ascii) (t : str) :
  trimStart s = c :: t -> isSpace c = false.
Proof.
  induction s as [|x s IH]; simpl; [done|].
  destruct (isSpace x) eqn:Hx; [done|]. intros; by simplify_eq.
Qed.

Lemma trimStart_fixed (c : ascii) (t : str) :
  isSpace c = false -> trimStart (c :: t) = c :: t.
Proof. intros Hc. simpl. by rewrite Hc. Qed.

Lemma trimStart_suffix (s : str) : exists w, isBlank w = true /\ s = w ++ trimStart s.
Proof.
  induction s as [|c s (w & Hw & IH)]; simpl.
  - by exists [].
  - destruct (isSpace c) eqn:Hc.
    + exists (c :: w). simpl. rewrite Hc, Hw. split; [done|]. by rewrite <- IH.
    + by exists [].
Qed.

Lemma trimEnd_snoc (s : str) (c : ascii) :
  trimEnd (s ++ [c]) = if isSpace c then trimEnd s else s ++ [c].
Proof.
  induction s as [|x s IH]; simpl.
  - by destruct (isSpace c).
  - rewrite IH. destruct (isSpace c) eqn:Hc; [done|].
    destruct (s ++ [c]) eqn:E; [by destruct s|done].
Qed.

Lemma trimEnd_last (s t : str) (c : ascii) :
  trimEnd s = t ++ [c] -> isSpace c = false.
Proof.
  revert t. induction s as [|x s IH] using rev_ind; intros t; simpl.
  - by destruct t.
  - rewrite trimEnd_snoc. destruct (isSpace x) eqn:Hx; [apply IH|].
    intros E. apply app_inj_tail in E as [_ ->]. done.
Qed.

Lemma trimEnd_prefix (s : str) : exists w, isBlank w = true /\ s = trimEnd s ++ w.
Proof.
  induction s as [|x s (w & Hw & IH)] using rev_ind.
  - by exists [].
  - rewrite trimEnd_snoc. destruct (isSpace x) eqn:Hx.
    + exists (w ++ [x]). split.
      * unfold isBlank in *. rewrite forallb_app, Hw. simpl. by rewrite Hx.
      * by rewrite app_assoc, <- IH.
    + exists []. by rewrite app_nil_r.
Qed.

Lemma trimEnd_head (s : str) (c : ascii) (t : str) :
  trimEnd s = c :: t -> exists t', s = c :: t'.
Proof.
  destruct (trimEnd_prefix s) as (w & _ & E). intros Ht. rewrite Ht in E.
  exists (t ++ w). by rewrite E.
Qed.

Lemma trimEnd_fixed (s : str) (c : ascii) :
  isSpace c = false -> trimEnd (s ++ [c]) = s ++ [c].
Proof. intros Hc. by rewrite trimEnd_snoc, Hc. Qed.

(** What [trim] leaves has no white space at either end, and a text
    without white space at its ends is left as it is. *)
Lemma trim_ends (s : str) :
  (forall c t, trim s = c :: t -> isSpace c = false) /\
  (forall t c, trim s = t ++ [c] -> isSpace c = false).
Proof.
  unfold trim. split.
  - intros c t Ht. destruct (trimEnd_head _ _ _ Ht) as (t' & E).
    by apply trimStart_head in E.
  - intros t c. apply trimEnd_last.
Qed.

Lemma trim_fixed (p : str) :
  (forall c t, p = c :: t -> isSpace c = false) ->
  (forall t c, p = t ++ [c] -> isSpace c = false) ->
  trim p = p.
Proof.
  intros Hh Hl. unfold trim. destruct p as [|c t]; [done|].
  rewrite trimStart_fixed by eauto.
  destruct (exists_last (l := c :: t) ltac:(done)) as (t' & x & E).
  rewrite E. apply trimEnd_fixed. eauto.
Qed.

Lemma trim_sublist (s : str) : exists w1 w2, s = w1 ++ trim s ++ w2.
Proof.
  destruct (trimStart_suffix s) as (w1 & _ & E1).
  destruct (trimEnd_prefix (trimStart s)) as (w2 & _ & E2).
  exists w1, w2. unfold trim. by rewrite <- E2.
Qed.

Lemma trim_blank (s : str) : isBlank s = true -> trim s = [].
Proof. intros Hs. unfold trim. by rewrite trimStart_blank. Qed.

Lemma splitLines_no_LF (s : str) : Forall (fun l => LF ∉ l) (splitLines s).
Proof.
  induction s as [|c s IH]; simpl.
  - constructor; [apply not_elem_of_nil|constructor].
  - destruct (Ascii.eqb c LF) eqn:Hc.
    + constructor; [apply not_elem_of_nil|done].
    + destruct (splitLines s) as [|l ls]; inversion IH; subst.
      * constructor; [|done]. intros E%list_elem_of_singleton.
        rewrite <- E in Hc. by rewrite Ascii.eqb_refl in Hc.
      * constructor; [|done]. intros [E|?]%elem_of_cons; [|done].
        rewrite <- E in Hc. by rewrite Ascii.eqb_refl in Hc.
Qed.

Lemma splitLines_oneLine (l : str) : LF ∉ l -> splitLines l = [l].
Proof.
  induction l as [|c l IH]; simpl; [done|].
  intros Hn. apply not_elem_of_cons in Hn as [Hc Hl].
  destruct (Ascii.eqb c LF) eqn:E; [by apply Ascii.eqb_eq in E|].
  by rewrite IH.
Qed.

Lemma splitLines_app (a b : str) :
  splitLines (a ++ nl ++ b) = splitLines a ++ splitLines b.
Proof.
  induction a as [|c a IH]; [done|]. cbn [app splitLines].
  - destruct (Ascii.eqb c LF); [by rewrite IH|].
    rewrite IH. destruct (splitLines a) eqn:E; [|done].
    exfalso. by destruct a as [|x a]; simpl in E;
      [|destruct (Ascii.eqb x LF); [|destruct (splitLines a)]].
Qed.

Lemma splitLines_joinLines (ps : list str) :
  ps <> [] -> Forall (fun p => LF ∉ p) ps -> splitLines (joinLines ps) = ps.
Proof.
  induction ps as [|p ps IH]; [done|]. intros _ Hps. inversion Hps; subst.
  destruct ps as [|q ps].
  - simpl. by apply splitLines_oneLine.
  - change (joinLines (p :: q :: ps)) with (p ++ nl ++ joinLines (q :: ps)).
    rewrite splitLines_app, splitLines_oneLine by done. by rewrite IH.
Qed.

Lemma enteredIgnorePatterns_app (a b : str) :
  enteredIgnorePatterns (a ++ nl ++ b) = enteredIgnorePatterns a ++ enteredIgnorePatterns b.
Proof.
  unfold enteredIgnorePatterns. by rewrite splitLines_app, map_app, List.filter_app.
Qed.

Lemma isBlank_app (s t : str) : isBlank (s ++ t) = isBlank s && isBlank t.
Proof. apply forallb_app. Qed.

Lemma enteredIgnorePatterns_blank (w : str) :
  isBlank w = true -> enteredIgnorePatterns w = [].
Proof.
  unfold enteredIgnorePatterns. intros Hw.
  assert (Hall : Forall (fun l => isBlank l = true) (splitLines w)).
  { induction w as [|c w IH]; simpl.
    - by constructor.
    - simpl in Hw. apply andb_true_iff in Hw as [Hc Hw'].
      destruct (Ascii.eqb c LF); [constructor; [done|auto]|].
      specialize (IH Hw'). destruct (splitLines w); inversion IH; subst.
      + constructor; [|done]. simpl. by rewrite Hc.
      + constructor; [|done]. simpl. by rewrite Hc. }
  induction Hall as [|l ls Hl _ IH]; simpl; [done|].
  by rewrite trim_blank.
Qed.

Lemma CleanPattern_trim (p : str) : CleanPattern p -> trim p = p.
Proof. intros (_ & _ & Hh & Hl). by apply trim_fixed. Qed.

Lemma CleanPattern_intro (p : str) :
  (0 <? length p)%nat = true -> forallb (fun x => negb (Ascii.eqb x LF)) p = true ->
  trim p = p -> CleanPattern p.
Proof.
  intros Hlen Hlf Ht. split_and!.
  - intros ->. done.
  - by apply forallb_not_elem.
  - rewrite <- Ht. apply trim_ends.
  - rewrite <- Ht. apply trim_ends.
Qed.

(** X7: whatever is typed into the ignore pattern area, the patterns that
    are stored are not empty, hold no line feed, and have no white space at
    either end. *)
Theorem entered_patterns_clean (value : str) (s : AutoTimestampSettings) :
  Forall CleanPattern (ignorePatterns (applyEdit (IgnorePatternsChange value) s)).
Proof.
  simpl. unfold enteredIgnorePatterns.
  apply Forall_forall. intros p [Hp Hlen]%list_elem_of_In%filter_In.
  apply in_map_iff in Hp as (l & <- & Hl%list_elem_of_In).
  pose proof (splitLines_no_LF value) as Hno.
  rewrite Forall_forall in Hno. specialize (Hno l Hl).
  split_and!.
  - intros E. by rewrite E in Hlen.
  - destruct (trim_sublist l) as (w1 & w2 & E). intros Hin. apply Hno.
    rewrite E. set_solver.
  - apply trim_ends.
  - apply trim_ends.
Qed.

(** X8: the patterns the tab shows are read back as they are: when the
    stored patterns are clean, a change event on the text shown leaves the
    settings as they were. *)
Theorem shown_patterns_read_back (s : AutoTimestampSettings) :
  Forall CleanPattern (ignorePatterns s) ->
  applyEdit (IgnorePatternsChange (shownIgnorePatterns s)) s = s.
Proof.
  intros Hclean. destruct s as [f ck mk ps]. simpl in *. f_equal.
  unfold enteredIgnorePatterns, shownIgnorePatterns. simpl.
  destruct ps as [|p ps]; [done|].
  rewrite splitLines_joinLines; [|done|].
  - induction Hclean as [|q qs Hq _ IH]; [done|].
    simpl. rewrite CleanPattern_trim by done.
    destruct Hq as (Hne & _). destruct q; [done|]. simpl. by rewrite IH.
  - eapply Forall_impl; [exact Hclean|]. by intros q (_ & Hq & _).
Qed.

Lemma shown_patterns_read_back_witness :
  let s := mkSettings "yyyyMMddHHmmss" "created" "modified" ["templates/.*"; "daily/.*"] in
  Forall CleanPattern (ignorePatterns s) /\
  shownIgnorePatterns s = joinLines ["templates/.*"; "daily/.*"] /\
  applyEdit (IgnorePatternsChange (shownIgnorePatterns s)) s = s.
Proof.
  assert (Hclean : Forall CleanPattern ["templates/.*"; "daily/.*"]).
  { constructor; [by apply CleanPattern_intro|].
    constructor; [by apply CleanPattern_intro|constructor]. }
  split; [exact Hclean|]. split; [reflexivity|].
  apply (shown_patterns_read_back
           (mkSettings "yyyyMMddHHmmss" "created" "modified" ["templates/.*"; "daily/.*"])).
  exact Hclean.
Defined.

Lemma splitLines_last_line (a : str) :
  LF ∉ a \/ exists a1 a2, a = a1 ++ nl ++ a2 /\ LF ∉ a2.
Proof.
  induction a as [|c a IH]; [left; apply not_elem_of_nil|].
  destruct IH as [Hn|(a1 & a2 & -> & Hn)].
  - destruct (Ascii.eqb c LF) eqn:Hc.
    + apply Ascii.eqb_eq in Hc as ->. right. by exists [], a.
    + left. apply not_elem_of_cons. split; [|done].
      intros E. rewrite <- E in Hc. by rewrite Ascii.eqb_refl in Hc.
  - right. by exists (c :: a1), a2.
Qed.

Lemma splitLines_first_line (a : str) :
  LF ∉ a \/ exists a1 a2, a = a1 ++ nl ++ a2 /\ LF ∉ a1.
Proof.
  induction a as [|c a IH]; [left; apply not_elem_of_nil|].
  destruct (Ascii.eqb c LF) eqn:Hc.
  - apply Ascii.eqb_eq in Hc as ->. right. exists [], a. split; [done|apply not_elem_of_nil].
  - assert (Hne : LF <> c).
    { intros E. rewrite <- E in Hc. by rewrite Ascii.eqb_refl in Hc. }
    destruct IH as [Hn|(a1 & a2 & -> & Hn)].
    + left. by apply not_elem_of_cons.
    + right. exists (c :: a1), a2. split; [done|]. by apply not_elem_of_cons.
Qed.

Lemma enteredIgnorePatterns_line (l : str) :
  LF ∉ l -> enteredIgnorePatterns l = List.filter (fun p => (0 <? length p)%nat) [trim l].
Proof. intros Hl. unfold enteredIgnorePatterns. by rewrite splitLines_oneLine. Qed.

Lemma trimEnd_blank_end (s w : str) : isBlank w = true -> trimEnd (s ++ w) = trimEnd s.
Proof.
  induction w as [|c w IH] using rev_ind; intros Hw; [by rewrite app_nil_r|].
  rewrite isBlank_app in Hw. apply andb_true_iff in Hw as [Hw Hc].
  simpl in Hc. rewrite andb_true_r in Hc.
  by rewrite app_assoc, trimEnd_snoc, Hc, IH.
Qed.

Lemma trimStart_app (s t : str) :
  trimStart (s ++ t) = if isBlank s then trimStart t else trimStart s ++ t.
Proof.
  induction s as [|c s IH]; simpl; [done|].
  destruct (isSpace c); simpl; [exact IH|done].
Qed.

Lemma trim_blank_end (s w : str) : isBlank w = true -> trim (s ++ w) = trim s.
Proof.
  intros Hw. unfold trim. rewrite trimStart_app.
  destruct (isBlank s) eqn:Hs.
  - by rewrite !trimStart_blank.
  - by apply trimEnd_blank_end.
Qed.

Lemma trim_blank_start (w s : str) : isBlank w = true -> trim (w ++ s) = trim s.
Proof. intros Hw. unfold trim. by rewrite trimStart_app, Hw. Qed.

Lemma isBlank_no_LF_snoc (c : ascii) : Ascii.eqb c LF = false -> LF ∉ [c].
Proof.
  intros Hc E%list_elem_of_singleton. rewrite <- E in Hc.
  by rewrite Ascii.eqb_refl in Hc.
Qed.

Lemma enteredIgnorePatterns_space_end (a : str) (c : ascii) :
  isSpace c = true -> enteredIgnorePatterns (a ++ [c]) = enteredIgnorePatterns a.
Proof.
  intros Hc. destruct (Ascii.eqb c LF) eqn:Hlf.
  - apply Ascii.eqb_eq in Hlf as ->.
    change (a ++ [LF]) with (a ++ nl ++ []).
    by rewrite enteredIgnorePatterns_app, app_nil_r.
  - assert (Hb : isBlank [c] = true) by (simpl; by rewrite Hc).
    destruct (splitLines_last_line a) as [Hn|(a1 & a2 & -> & Hn)].
    + assert (Hn' : LF ∉ a ++ [c]).
      { rewrite not_elem_of_app. split; [done|by apply isBlank_no_LF_snoc]. }
      rewrite (enteredIgnorePatterns_line a), (enteredIgnorePatterns_line (a ++ [c])) by done.
      by rewrite trim_blank_end.
    + assert (Hn' : LF ∉ a2 ++ [c]).
      { rewrite not_elem_of_app. split; [done|by apply isBlank_no_LF_snoc]. }
      rewrite <- !app_assoc, !enteredIgnorePatterns_app.
      rewrite (enteredIgnorePatterns_line a2), (enteredIgnorePatterns_line (a2 ++ [c])) by done.
      by rewrite trim_blank_end.
Qed.

Lemma enteredIgnorePatterns_space_start (c : ascii) (a : str) :
  isSpace c = true -> enteredIgnorePatterns (c :: a) = enteredIgnorePatterns a.
Proof.
  intros Hc. destruct (Ascii.eqb c LF) eqn:Hlf.
  - apply Ascii.eqb_eq in Hlf as ->.
    change (LF :: a) with ([] ++ nl ++ a).
    by rewrite enteredIgnorePatterns_app.
  - assert (Hb : isBlank [c] = true) by (simpl; by rewrite Hc).
    assert (Hne : LF <> c).
    { intros E. rewrite <- E in Hlf. by rewrite Ascii.eqb_refl in Hlf. }
    destruct (splitLines_first_line a) as [Hn|(a1 & a2 & -> & Hn)].
    + assert (Hn' : LF ∉ c :: a) by (by apply not_elem_of_cons).
      rewrite (enteredIgnorePatterns_line a), (enteredIgnorePatterns_line (c :: a)) by done.
      pose proof (trim_blank_start [c] a Hb) as E.
      change ([c] ++ a) with (c :: a) in E. by rewrite E.
    + assert (Hn' : LF ∉ c :: a1) by (by apply not_elem_of_cons).
      change (c :: a1 ++ nl ++ a2) with ((c :: a1) ++ nl ++ a2).
      rewrite !enteredIgnorePatterns_app.
      rewrite (enteredIgnorePatterns_line a1), (enteredIgnorePatterns_line (c :: a1)) by done.
      pose proof (trim_blank_start [c] a1 Hb) as E.
      change ([c] ++ a1) with (c :: a1) in E. by rewrite E.
Qed.

Lemma enteredIgnorePatterns_blank_end (a w : str) :
  isBlank w = true -> enteredIgnorePatterns (a ++ w) = enteredIgnorePatterns a.
Proof.
  revert a. induction w as [|c w IH]; intros a Hw; [by rewrite app_nil_r|].
  simpl in Hw. apply andb_true_iff in Hw as [Hc Hw].
  change (a ++ c :: w) with (a ++ [c] ++ w).
  by rewrite app_assoc, IH, enteredIgnorePatterns_space_end.
Qed.

Lemma enteredIgnorePatterns_blank_start (w a : str) :
  isBlank w = true -> enteredIgnorePatterns (w ++ a) = enteredIgnorePatterns a.
Proof.
  induction w as [|c w IH]; intros Hw; [done|].
  simpl in Hw. apply andb_true_iff in Hw as [Hc Hw].
  simpl. by rewrite enteredIgnorePatterns_space_start, IH.
Qed.

(** X9: the ignore pattern area is read line by line: the patterns of two
    texts joined by a line feed are the patterns of the first followed by
    those of the second; white space before or after a text, blank lines
    among them, adds nothing; and a carriage return before the line feed
    makes no difference. *)
Theorem entered_patterns_by_line :
  (forall a b : str,
      enteredIgnorePatterns (a ++ nl ++ b)
      = enteredIgnorePatterns a ++ enteredIgnorePatterns b) /\
  (forall a w : str,
      isBlank w = true ->
      enteredIgnorePatterns (a ++ w) = enteredIgnorePatterns a /\
      enteredIgnorePatterns (w ++ a) = enteredIgnorePatterns a) /\
  (forall a b : str,
      enteredIgnorePatterns (a ++ [CR] ++ nl ++ b)
      = enteredIgnorePatterns (a ++ nl ++ b)).
Proof.
  split_and!.
  - apply enteredIgnorePatterns_app.
  - intros a w Hw. split.
    + by apply enteredIgnorePatterns_blank_end.
    + by apply enteredIgnorePatterns_blank_start.
  - intros a b. rewrite app_assoc, !enteredIgnorePatterns_app.
    by rewrite (enteredIgnorePatterns_blank_end a [CR]).
Qed.

Lemma entered_patterns_by_line_witness :
  enteredIgnorePatterns ("templates/.*" ++ [CR] ++ nl ++ "  " ++ nl ++ " daily/.* ")
  = ["templates/.*"; "daily/.*"] /\
  enteredIgnorePatterns (" daily/.*" ++ "  ") = enteredIgnorePatterns " daily/.*".
Proof.
  split; [by vm_compute|].
  apply (proj1 (proj2 entered_patterns_by_line) " daily/.*" "  "). reflexivity.
Defined.

Lemma test_empty_pattern (s : str) : test (mkRegExp REmpty 0 false) s = true.
Proof. by destruct s. Qed.

(** X6: an empty ignore pattern matches every path, so settings that hold
    one first make the plugin ignore every file; the settings tab cannot
    store it, and a text area of white space only leaves no pattern at all:
    no file is ignored. *)
Theorem empty_pattern_ignores_every_file :
  (forall (s : AutoTimestampSettings) (file : TFile) (rest : list str),
      ignorePatterns s = [] :: rest -> shouldIgnoreFile s file = Ok true) /\
  (forall (value : str) (s : AutoTimestampSettings) (file : TFile),
      isBlank value = true ->
      shouldIgnoreFile (applyEdit (IgnorePatternsChange value) s) file = Ok false).
Proof.
  split.
  - intros s file rest Hp. unfold shouldIgnoreFile. rewrite Hp.
    cbn [some]. change (newRegExp [] false) with (Ok (mkRegExp REmpty 0 false)).
    cbn [mbind outcome_bind]. by rewrite test_empty_pattern.
  - intros value s file Hb. unfold shouldIgnoreFile. simpl.
    by rewrite enteredIgnorePatterns_blank.
Qed.

Lemma empty_pattern_ignores_every_file_witness :
  shouldIgnoreFile (mkSettings "yyyyMMddHHmmss" "created" "modified" [[]; "daily/.*"])
    (mkTFile "notes/today.md" "md") = Ok true /\
  shouldIgnoreFile
    (applyEdit (IgnorePatternsChange "   ")
       (mkSettings "yyyyMMddHHmmss" "created" "modified" ["daily/.*"]))
    (mkTFile "daily/today.md" "md") = Ok false.
Proof.
  split.
  - apply (proj1 empty_pattern_ignores_every_file _ _ ["daily/.*"]). reflexivity.
  - apply (proj2 empty_pattern_ignores_every_file). reflexivity.
Defined.

(* ===================================================================== *)
(** ** The settings tab: text fields and stored data *)
(* ===================================================================== *)



(** X11: a text field of the tab never stores the empty string: a value
    that is not empty is stored as typed, and clearing the field stores a
    fallback, which is the default of [DEFAULT_SETTINGS] for the two keys
    but not for the date format. *)
Theorem tab_text_fields :
  (forall (value : str) (s : AutoTimestampSettings),
      dateFormat (applyEdit (DateFormatChange value) s) <> [] /\
      createdKey (applyEdit (CreatedKeyChange value) s) <> [] /\
      modifiedKey (applyEdit (ModifiedKeyChange value) s) <> [] /\
      (value <> [] ->
       dateFormat (applyEdit (DateFormatChange value) s) = value /\
       createdKey (applyEdit (CreatedKeyChange value) s) = value /\
       modifiedKey (applyEdit (ModifiedKeyChange value) s) = value)) /\
  (forall s : AutoTimestampSettings,
      createdKey (applyEdit (CreatedKeyChange []) s) = createdKey (loadSettings None) /\
      modifiedKey (applyEdit (ModifiedKeyChange []) s) = modifiedKey (loadSettings None) /\
      dateFormat (applyEdit (DateFormatChange []) s) = "yyyyMMddHHmmss" /\
      dateFormat (applyEdit (DateFormatChange []) s) <> dateFormat (loadSettings None)).
Proof.
  split.
  - intros value s. destruct value as [|c v]; simpl; split_and!; done.
  - intros s. simpl. split_and!; done.
Qed.

Lemma tab_text_fields_witness :
  createdKey (applyEdit (CreatedKeyChange " date created")
                        (mkSettings "yyyyMMddHHmmss" "created" "modified" []))
  = " date created".
Proof.
  apply (proj1 tab_text_fields " date created"
           (mkSettings "yyyyMMddHHmmss" "created" "modified" [])). done.
Defined.

(* ===================================================================== *)
(** ** [formatDate]: the timestamp as a value *)
(* ===================================================================== *)

Lemma isValue_app (s t : str) : isValue (s ++ t) = isValue s && isValue t.
Proof.
  unfold isValue, isOneLine. rewrite !forallb_app.
  repeat match goal with |- context [forallb ?f ?l] => generalize (forallb f l); intro end.
  by repeat match goal with b : bool |- _ => destruct b end.
Qed.

Lemma isValue_no_dollar (v : str) : isValue v = true -> "$"%char ∉ v.
Proof. intros [_ H]%andb_true_iff. by apply forallb_not_elem. Qed.

Lemma isNumeral_app (s t : str) : isNumeral (s ++ t) = isNumeral s && isNumeral t.
Proof. apply forallb_app. Qed.

Lemma isNumeral_isValue (s : str) : isNumeral s = true -> isValue s = true.
Proof.
  induction s as [|c s IH]; [done|]. intros [Hc Hs]%andb_true_iff.
  change (c :: s) with ([c] ++ s). rewrite isValue_app, (IH Hs), andb_true_r.
  clear -Hc. by destruct c as [[] [] [] [] [] [] [] []].
Qed.

Lemma toString_isNumeral (z : Z) : isNumeral (toString z) = true.
Proof.
  apply forallb_forall. intros c Hc%list_elem_of_In.
  pose proof (toString_chars z) as Hall. rewrite Forall_forall in Hall.
  destruct (Hall c Hc) as [-> | ->]; [done|]. by rewrite orb_true_r.
Qed.

Lemma padStart_isNumeral (s : str) : isNumeral s = true -> isNumeral (padStart 2 "0" s) = true.
Proof.
  intros Hs. destruct (padStart_zero_cases s) as [-> | [-> | ->]]; [done | |];
    by rewrite isNumeral_app, Hs.
Qed.

Lemma replaceStr_cases (s token value : str) :
  "$"%char ∉ value ->
  (splitAtFirst token s = None /\ replaceStr s token value = s) \/
  (exists before after,
      splitAtFirst token s = Some (before, after) /\
      s = before ++ token ++ after /\
      replaceStr s token value = before ++ value ++ after).
Proof.
  intros Hv. unfold replaceStr.
  destruct (splitAtFirst token s) as [[before after]|] eqn:E; [right|by left].
  exists before, after. split; [done|].
  apply splitAtFirst_Some in E as [E _]. by rewrite getSubstitution_plain.
Qed.

Lemma replaceStr_isValue (s token value : str) :
  isValue s = true -> isValue value = true -> isValue (replaceStr s token value) = true.
Proof.
  intros Hs Hv.
  destruct (replaceStr_cases s token value (isValue_no_dollar _ Hv))
    as [[_ ->] | (before & after & _ & E & ->)]; [done|].
  rewrite E, !isValue_app in Hs. rewrite !isValue_app, Hv.
  apply andb_true_iff in Hs as [-> [_ ->]%andb_true_iff]. done.
Qed.

(** Every value put in for a token is a numeral, so a format that is a
    value stays one. *)
Lemma formatDate_isValue (settings : AutoTimestampSettings) (date : Date) :
  isValue (dateFormat settings) = true ->
  isValue (formatDate settings date) = true.
Proof.
  intros Hf. unfold formatDate.
  repeat (apply replaceStr_isValue;
          [|by apply isNumeral_isValue; rewrite ?padStart_isNumeral;
               rewrite ?toString_isNumeral]).
  done.
Qed.

(** X1: when the configured date format is one line without a dollar sign,
    so is every timestamp: the values put in for the tokens are digits and
    minus signs. *)
Theorem formatDate_keeps_value (settings : AutoTimestampSettings) (date : Date) :
  isValue (dateFormat settings) = true ->
  isValue (formatDate settings date) = true.
Proof. apply formatDate_isValue. Qed.

Lemma formatDate_keeps_value_witness :
  isValue (formatDate DEFAULT_SETTINGS (mkDate 2024 11 29 14 30 52)) = true.
Proof.
  apply (formatDate_keeps_value DEFAULT_SETTINGS (mkDate 2024 11 29 14 30 52)).
  reflexivity.
Defined.

Lemma replaceStr_length (s token value : str) :
  "$"%char ∉ value -> length value = length token ->
  length (replaceStr s token value) = length s.
Proof.
  intros Hv Hl.
  destruct (replaceStr_cases s token value Hv)
    as [[_ ->] | (before & after & _ & E & ->)]; [done|].
  rewrite E, !length_app. lia.
Qed.

Lemma toString_fourDigits (y : Z) :
  (1000 <= y <= 9999)%Z -> length (toString y) = 4.
Proof.
  intros Hy.
  assert (forallb (fun k => (length (toString (Z.of_nat k)) =? 4)%nat) (seq 1000 (9 * 1000)) = true)
    as Hall by (by vm_compute).
  rewrite forallb_forall in Hall.
  specialize (Hall (Z.to_nat y)). rewrite Z2Nat.id in Hall by lia.
  apply Nat.eqb_eq, Hall, in_seq. lia.
Qed.

Lemma padStart_length (n : Z) :
  (0 <= n < 100)%Z -> length (padStart 2 "0" (toString n)) = 2.
Proof. intros Hn. by rewrite padStart_twoDigits. Qed.

(** X2: for a date with a year of four digits, the timestamp is as long as
    the format: every token is replaced by as many digits as it has
    letters. *)
Theorem formatDate_length (settings : AutoTimestampSettings) (date : Date) :
  (1000 <= getFullYear date <= 9999)%Z -> inRange date ->
  length (formatDate settings date) = length (dateFormat settings).
Proof.
  intros Hy (Hm & Hd & Hh & Hmi & Hs). unfold formatDate.
  repeat (rewrite replaceStr_length;
          [|by first [apply toString_no_dollar | apply padStart_no_dollar, toString_no_dollar]
           |first [by apply toString_fourDigits | apply padStart_length; lia]]).
  done.
Qed.

Lemma formatDate_length_witness :
  length (formatDate (mkSettings "yyyy/MM/dd (HH:mm)" "created" "modified" [])
                     (mkDate 2024 0 5 9 3 7)) = 18.
Proof.
  apply (formatDate_length (mkSettings "yyyy/MM/dd (HH:mm)" "created" "modified" [])
                           (mkDate 2024 0 5 9 3 7)).
  - simpl. lia.
  - unfold inRange. simpl. lia.
Defined.

Lemma splitAtFirst_skip (x : ascii) (t pre post : str) :
  x ∉ pre -> splitAtFirst (x :: t) (pre ++ (x :: t) ++ post) = Some (pre, post).
Proof.
  intros Hx. apply splitAtFirst_first. split; [done|].
  intros b a E. destruct (decide (length pre <= length b)) as [|Hlt]; [done|].
  exfalso. apply Hx.
  assert (Hl : (pre ++ (x :: t) ++ post) !! length b = Some x).
  { rewrite E. rewrite lookup_app_r by lia. by rewrite Nat.sub_diag. }
  rewrite lookup_app_l in Hl by lia. by eapply list_elem_of_lookup_2.
Qed.

Lemma replaceStr_at (s : str) (x : ascii) (t pre post value : str) :
  s = pre ++ (x :: t) ++ post -> x ∉ pre -> "$"%char ∉ value ->
  replaceStr s (x :: t) value = pre ++ value ++ post.
Proof.
  intros -> Hx Hv. unfold replaceStr.
  by rewrite splitAtFirst_skip, getSubstitution_plain.
Qed.

Lemma isNumeral_not_elem (x : ascii) (s : str) :
  isNumeral s = true -> isDigit x || Ascii.eqb x "-" = false -> x ∉ s.
Proof.
  intros Hs Hx Hin. unfold isNumeral in Hs. rewrite forallb_forall in Hs.
  apply list_elem_of_In, Hs in Hin. by rewrite Hin in Hx.
Qed.

Lemma isNumeral_no_dollar (s : str) : isNumeral s = true -> "$"%char ∉ s.
Proof. intros Hs. by apply isNumeral_not_elem. Qed.

Lemma isNumeral_pad (z : Z) : isNumeral (padStart 2 "0" (toString z)) = true.
Proof. apply padStart_isNumeral, toString_isNumeral. Qed.

(** X3: the two formats the plugin brings along. With the default format
    a timestamp is the year, as its decimal numeral, and month, day, hours,
    minutes and seconds with two digits each, separated as in
    [yyyy-MM-ddTHH:mm:ss]; with the format a cleared field falls back to it
    is the same numbers without separators. *)
Theorem formatDate_builtin_formats (date : Date) (s : AutoTimestampSettings) :
  inRange date ->
  formatDate (loadSettings None) date
  = toString (getFullYear date) ++ "-" ++ twoDigits (getMonth date + 1) ++ "-"
    ++ twoDigits (getDate date) ++ "T" ++ twoDigits (getHours date) ++ ":"
    ++ twoDigits (getMinutes date) ++ ":" ++ twoDigits (getSeconds date) /\
  formatDate (applyEdit (DateFormatChange []) s) date
  = toString (getFullYear date) ++ twoDigits (getMonth date + 1)
    ++ twoDigits (getDate date) ++ twoDigits (getHours date)
    ++ twoDigits (getMinutes date) ++ twoDigits (getSeconds date).
Proof.
  intros (Hm & Hd & Hh & Hmi & Hs).
  rewrite <- !padStart_twoDigits by lia.
  pose proof (toString_isNumeral (getFullYear date)) as HY.
  pose proof (isNumeral_pad (getMonth date + 1)) as HM.
  pose proof (isNumeral_pad (getDate date)) as HD.
  pose proof (isNumeral_pad (getHours date)) as HH.
  pose proof (isNumeral_pad (getMinutes date)) as HMi.
  pose proof (isNumeral_pad (getSeconds date)) as HS.
  unfold formatDate. cbn [loadSettings applyEdit orFallback dateFormat DEFAULT_SETTINGS].
  set (Y := toString (getFullYear date)) in *.
  set (M := padStart 2 "0" (toString (getMonth date + 1))) in *.
  set (D := padStart 2 "0" (toString (getDate date))) in *.
  set (H := padStart 2 "0" (toString (getHours date))) in *.
  set (Mi := padStart 2 "0" (toString (getMinutes date))) in *.
  set (S := padStart 2 "0" (toString (getSeconds date))) in *.
  assert (Hnum : forall x p, isNumeral p = true ->
                             isDigit x || Ascii.eqb x "-" = false -> x ∉ p)
    by (intros; by apply isNumeral_not_elem).
  split.
  - rewrite (replaceStr_at _ "y" "yyy" [] "-MM-ddTHH:mm:ss" Y)
      by (try apply not_elem_of_nil; by auto using isNumeral_no_dollar).
    rewrite (replaceStr_at _ "M" "M" (Y ++ "-") "-ddTHH:mm:ss" M)
      by (rewrite <- ?app_assoc, ?not_elem_of_app; split_and?;
          first [by auto using isNumeral_no_dollar | by apply forallb_not_elem]).
    rewrite <- !app_assoc.
    rewrite (replaceStr_at _ "d" "d" (Y ++ "-" ++ M ++ "-") "THH:mm:ss" D)
      by (rewrite <- ?app_assoc, ?not_elem_of_app; split_and?;
          first [by auto using isNumeral_no_dollar | by apply forallb_not_elem]).
    rewrite <- !app_assoc.
    rewrite (replaceStr_at _ "H" "H" (Y ++ "-" ++ M ++ "-" ++ D ++ "T") ":mm:ss" H)
      by (rewrite <- ?app_assoc, ?not_elem_of_app; split_and?;
          first [by auto using isNumeral_no_dollar | by apply forallb_not_elem]).
    rewrite <- !app_assoc.
    rewrite (replaceStr_at _ "m" "m" (Y ++ "-" ++ M ++ "-" ++ D ++ "T" ++ H ++ ":") ":ss" Mi)
      by (rewrite <- ?app_assoc, ?not_elem_of_app; split_and?;
          first [by auto using isNumeral_no_dollar | by apply forallb_not_elem]).
    rewrite <- !app_assoc.
    rewrite (replaceStr_at _ "s" "s"
               (Y ++ "-" ++ M ++ "-" ++ D ++ "T" ++ H ++ ":" ++ Mi ++ ":") [] S)
      by (rewrite <- ?app_assoc, ?not_elem_of_app; split_and?;
          first [by auto using isNumeral_no_dollar | by apply forallb_not_elem]).
    by rewrite <- !app_assoc, app_nil_r.
  - rewrite (replaceStr_at _ "y" "yyy" [] "MMddHHmmss" Y)
      by (try apply not_elem_of_nil; by auto using isNumeral_no_dollar).
    rewrite (replaceStr_at _ "M" "M" Y "ddHHmmss" M)
      by (by auto using isNumeral_no_dollar).
    rewrite (replaceStr_at _ "d" "d" (Y ++ M) "HHmmss" D)
      by (rewrite <- ?app_assoc, ?not_elem_of_app; split_and?;
          first [by auto using isNumeral_no_dollar | by apply forallb_not_elem]).
    rewrite <- !app_assoc.
    rewrite (replaceStr_at _ "H" "H" (Y ++ M ++ D) "mmss" H)
      by (rewrite <- ?app_assoc, ?not_elem_of_app; split_and?;
          first [by auto using isNumeral_no_dollar | by apply forallb_not_elem]).
    rewrite <- !app_assoc.
    rewrite (replaceStr_at _ "m" "m" (Y ++ M ++ D ++ H) "ss" Mi)
      by (rewrite <- ?app_assoc, ?not_elem_of_app; split_and?;
          first [by auto using isNumeral_no_dollar | by apply forallb_not_elem]).
    rewrite <- !app_assoc.
    rewrite (replaceStr_at _ "s" "s" (Y ++ M ++ D ++ H ++ Mi) [] S)
      by (rewrite <- ?app_assoc, ?not_elem_of_app; split_and?;
          first [by auto using isNumeral_no_dollar | by apply forallb_not_elem]).
    by rewrite <- !app_assoc, app_nil_r.
Qed.

Lemma formatDate_builtin_formats_witness :
  formatDate (loadSettings None) (mkDate 987 0 5 9 3 7) = "987-01-05T09:03:07".
Proof.
  apply (proj1 (formatDate_builtin_formats (mkDate 987 0 5 9 3 7) DEFAULT_SETTINGS
                  ltac:(unfold inRange; simpl; lia))).
Defined.

(* ===================================================================== *)
(** ** [shouldIgnoreFile]: patterns without operators *)
(* ===================================================================== *)

Lemma includes_Occurs (p s : str) : includes p s = true <-> Occurs p s.
Proof.
  unfold includes. pose proof (splitAtFirst_spec p s) as H.
  destruct (splitAtFirst p s) as [[before after]|].
  - split; [|done]. intros _. exists before, after. apply H.
  - split; [done|]. intros (b & a & E). by destruct (H b a).
Qed.

Lemma parseAlternative_plain_then (p tail : str) (g fuel : nat) (r : Regex) (rest : str)
    (g' : nat) :
  isPlain p = true -> quantifierAhead tail = false ->
  parseAlternative (S fuel) tail g = POk r rest g' ->
  parseAlternative (length p + S fuel) (p ++ tail) g = POk (lits p r) rest g'.
Proof.
  intros Hp Ht Hr. induction p as [|c p IH]; [done|].
  simpl in Hp. apply andb_true_iff in Hp as [Hc Hp]. apply negb_true_iff in Hc.
  cbn [length app Nat.add]. rewrite parseAlternative_plain_step by done.
  rewrite Nat.add_succ_r, parseTerm_plain by done.
  rewrite parseQuantifier_none.
  - rewrite <- Nat.add_succ_r, (IH Hp). done.
  - destruct p as [|c' p]; [done|].
    simpl in Hp. apply andb_true_iff in Hp as [Hc' _].
    apply negb_true_iff in Hc'. by apply quantifierAhead_plain.
Qed.

(** [new RegExp(p)] for a text without syntax characters. *)
Lemma newRegExp_plain (p : str) (ml : bool) :
  isPlain p = true -> newRegExp p ml = Ok (mkRegExp (lits p REmpty) 0 ml).
Proof.
  intros Hp. unfold newRegExp.
  replace (3 * length p + 3) with (S (3 * length p + 2)) by lia.
  rewrite (parseDisjunction_closed _ _ _ 0 (lits p REmpty) []); [done| |by left].
  rewrite <- (app_nil_r p) at 2.
  apply parseAlternative_plain; [done|by left|lia].
Qed.

(** [new RegExp(p + ".*")]. *)
Lemma newRegExp_dot_star (p : str) (ml : bool) :
  isPlain p = true ->
  newRegExp (p ++ ".*") ml
  = Ok (mkRegExp (lits p (RSeq (RRepeat 0 None true RDot) REmpty)) 0 ml).
Proof.
  intros Hp. unfold newRegExp. rewrite length_app.
  replace (3 * (length p + length (".*" : str)) + 3)
    with (S (length p + S (2 * length p + 7))) by (simpl; lia).
  rewrite (parseDisjunction_closed _ _ _ 0
             (lits p (RSeq (RRepeat 0 None true RDot) REmpty)) []); [done| |by left].
  apply parseAlternative_plain_then; [done|done|].
  replace (2 * length p + 7) with (S (2 * length p + 6)) by lia. reflexivity.
Qed.

Lemma matcher_dots (ml : bool) (b a : str) (cs : Captures) :
  matcher ml (RSeq (RRepeat 0 None true RDot) REmpty) b a cs finalContinuation <> None.
Proof.
  rewrite matcher_seq.
  revert b. induction a as [|x a IH]; intros b; rewrite matcher_greedy_dot.
  - by rewrite matcher_empty.
  - destruct (isLineTerminator x); [by rewrite matcher_empty|].
    destruct (matcher ml (RRepeat 0 None true RDot) (x :: b) a cs _) eqn:E; [done|].
    by destruct (IH (x :: b)).
Qed.

Lemma test_lits (p : str) (r : Regex) (g : nat) (ml : bool) (s : str) :
  (forall b a cs, matcher ml r b a cs finalContinuation <> None) ->
  test (mkRegExp (lits p r) g ml) s = includes p s.
Proof.
  intros Hr. unfold test, exec, includes. generalize (@nil ascii) as b.
  induction s as [|x s IH]; intros b;
    cbn [execFrom splitAtFirst re_multiline re_pattern re_groups];
    rewrite matcher_lits; destruct (startsWith p _) eqn:E.
  - by destruct (matcher ml r _ _ _ _) as [[]|] eqn:M; [|destruct (Hr _ _ _ M)].
  - done.
  - by destruct (matcher ml r _ _ _ _) as [[]|] eqn:M; [|destruct (Hr _ _ _ M)].
  - rewrite (IH (x :: b)). by destruct (splitAtFirst p s) as [[]|].
Qed.

Lemma pattern_plain (p s : str) :
  isPlain p = true ->
  (regex ← newRegExp p false; Ok (test regex s)) = Ok (includes p s).
Proof.
  intros Hp. rewrite newRegExp_plain by done. cbn [mbind outcome_bind].
  rewrite test_lits; [done|]. intros b a cs. by rewrite matcher_empty.
Qed.

Lemma pattern_dot_star (p s : str) :
  isPlain p = true ->
  (regex ← newRegExp (p ++ ".*") false; Ok (test regex s)) = Ok (includes p s).
Proof.
  intros Hp. rewrite newRegExp_dot_star by done. cbn [mbind outcome_bind].
  rewrite test_lits; [done|]. apply matcher_dots.
Qed.

Lemma some_plain (f : str -> Outcome bool) (g : str -> bool) (l : list str) :
  Forall (fun p => f p = Ok (g p)) l -> some f l = Ok (existsb g l).
Proof.
  induction 1 as [|p l Hp _ IH]; [done|].
  cbn [some existsb]. rewrite Hp. cbn [mbind outcome_bind].
  destruct (g p); [done|exact IH].
Qed.

Lemma some_same (f : str -> Outcome bool) (before after : list str) (x y : str) :
  f x = f y -> some f (before ++ x :: after) = some f (before ++ y :: after).
Proof.
  intros E. induction before as [|z before IH]; cbn [app some].
  - by rewrite E.
  - by rewrite IH.
Qed.

(** X4: ignore patterns without syntax characters of the pattern grammar
    are searched as texts: the plugin compiles every one of them, and it
    ignores a file exactly when one of them occurs somewhere in the path,
    not only at its start or as a folder name. *)
Theorem plain_patterns_are_substrings (settings : AutoTimestampSettings) (file : TFile) :
  Forall (fun p => isPlain p = true) (ignorePatterns settings) ->
  exists ignored : bool,
    shouldIgnoreFile settings file = Ok ignored /\
    (ignored = true <->
     exists p, p ∈ ignorePatterns settings /\ Occurs p (path file)).
Proof.
  intros Hplain. exists (existsb (fun p => includes p (path file)) (ignorePatterns settings)).
  split.
  - unfold shouldIgnoreFile. apply some_plain.
    eapply Forall_impl; [exact Hplain|]. intros p Hp. by apply pattern_plain.
  - rewrite existsb_exists. split.
    + intros (p & Hin & Hp). exists p. split; [by apply list_elem_of_In|].
      by apply includes_Occurs.
    + intros (p & Hin & Hp). exists p. split; [by apply list_elem_of_In|].
      by apply includes_Occurs.
Qed.

Lemma plain_patterns_are_substrings_witness :
  exists ignored : bool,
    shouldIgnoreFile (mkSettings "yyyyMMddHHmmss" "created" "modified" ["daily/"; "templates"])
      (mkTFile "notes/my-templates-idea.md" "md") = Ok ignored /\
    (ignored = true <->
     exists p, p ∈ ["daily/"; "templates"] /\ Occurs p "notes/my-templates-idea.md").
Proof.
  apply (plain_patterns_are_substrings
           (mkSettings "yyyyMMddHHmmss" "created" "modified" ["daily/"; "templates"])
           (mkTFile "notes/my-templates-idea.md" "md")).
  constructor; [reflexivity|]. constructor; [reflexivity|constructor].
Defined.

(** X5: [.*] at the end of an ignore pattern changes nothing: for a text
    [p] without syntax characters, the pattern [p.*] gives what [p] gives,
    wherever it stands in the list. The pattern [templates/.*] of the
    settings tab's placeholder therefore matches every path that has
    [templates/] somewhere in it. *)
Theorem trailing_dot_star_is_redundant (s1 s2 : AutoTimestampSettings) (file : TFile)
    (before after : list str) (p : str) :
  isPlain p = true ->
  ignorePatterns s1 = before ++ (p ++ ".*") :: after ->
  ignorePatterns s2 = before ++ p :: after ->
  shouldIgnoreFile s1 file = shouldIgnoreFile s2 file.
Proof.
  intros Hp H1 H2. unfold shouldIgnoreFile. rewrite H1, H2.
  apply some_same. by rewrite pattern_dot_star, pattern_plain.
Qed.

Lemma trailing_dot_star_is_redundant_witness :
  shouldIgnoreFile (mkSettings "yyyyMMddHHmmss" "created" "modified" ["templates/.*"])
    (mkTFile "archive/templates/old.md" "md")
  = shouldIgnoreFile (mkSettings "yyyyMMddHHmmss" "created" "modified" ["templates/"])
      (mkTFile "archive/templates/old.md" "md").
Proof.
  apply (trailing_dot_star_is_redundant
           (mkSettings "yyyyMMddHHmmss" "created" "modified" ["templates/.*"])
           (mkSettings "yyyyMMddHHmmss" "created" "modified" ["templates/"])
           (mkTFile "archive/templates/old.md" "md") [] [] "templates/");
    reflexivity.
Defined.

(** [new RegExp("^" + p)]. *)
Lemma newRegExp_anchored (p : str) (ml : bool) :
  isPlain p = true ->
  newRegExp ("^" ++ p) ml = Ok (mkRegExp (RSeq RBol (lits p REmpty)) 0 ml).
Proof.
  intros Hp. unfold newRegExp. change ("^" ++ p) with ("^"%char :: p).
  replace (3 * length ("^"%char :: p) + 3) with (S (S (S (3 * length p + 3))))
    by (simpl; lia).
  rewrite parse_key; [done | done | lia].
Qed.

Lemma test_anchored (p s : str) :
  test (mkRegExp (RSeq RBol (lits p REmpty)) 0 false) s = startsWith p s.
Proof.
  unfold test, exec.
  destruct s as [|x s]; cbn [execFrom re_multiline re_pattern re_groups];
    rewrite matcher_seq, matcher_bol, matcher_lits, matcher_empty;
    destruct (startsWith p _); try done.
  by rewrite execFrom_anchored.
Qed.

(** X12: a pattern [^p], for a text [p] without syntax characters, ignores
    exactly the files whose path starts with [p]. *)
Theorem anchored_pattern_is_prefix (settings : AutoTimestampSettings) (file : TFile)
    (p : str) :
  isPlain p = true ->
  ignorePatterns settings = ["^" ++ p] ->
  shouldIgnoreFile settings file = Ok (startsWith p (path file)).
Proof.
  intros Hp Hs. unfold shouldIgnoreFile. rewrite Hs. cbn [some].
  rewrite newRegExp_anchored by done. cbn [mbind outcome_bind].
  rewrite test_anchored. by destruct (startsWith p (path file)).
Qed.

Lemma anchored_pattern_is_prefix_witness :
  shouldIgnoreFile (mkSettings "yyyyMMddHHmmss" "created" "modified" ["^templates/"])
    (mkTFile "archive/templates/old.md" "md") = Ok false.
Proof.
  apply (anchored_pattern_is_prefix
           (mkSettings "yyyyMMddHHmmss" "created" "modified" ["^templates/"])
           (mkTFile "archive/templates/old.md" "md") "templates/"); reflexivity.
Defined.

(* ===================================================================== *)
(** ** The editor: the block of the result *)
(* ===================================================================== *)






Lemma exec_frontmatter_cases (content : str) :
  (exec frontmatterRegex content = None /\ frontmatterSplit content = None) \/
  (exists fm rest,
      frontmatterSplit content = Some (fm, rest) /\
      exec frontmatterRegex content
      = Some (mkMatch [] ("---" ++ nl ++ fm ++ nl ++ "---") rest [Some fm])).
Proof.
  rewrite exec_frontmatterRegex.
  destruct (frontmatterSplit content) as [[fm rest]|]; [right|by left].
  by exists fm, rest.
Qed.





(* ===================================================================== *)
(** ** The editor: timestamps that are there already *)
(* ===================================================================== *)

Lemma isValue_parts (v : str) : isValue v = true -> isOneLine v = true /\ "$"%char ∉ v.
Proof. intros [H1 H2]%andb_true_iff. split; [done|by apply forallb_not_elem]. Qed.

Lemma keyLine_oneLine (key value : str) :
  isKeyName key = true -> isOneLine value = true ->
  isOneLine (key ++ ": " ++ value) = true.
Proof. intros Hk Hv. by rewrite !isOneLine_app, (keyName_oneLine key Hk), Hv. Qed.

Lemma keyLine_no_dashes (key value : str) :
  isKeyName key = true -> startsWith "---" (key ++ ": " ++ value) = false.
Proof. intros Hk. apply (keyName_no_dashes key Hk (" " ++ value)). Qed.

Lemma dashLineFree_LF (x y : str) :
  dashLineFree (x ++ LF :: y)
  = dashLineFree x && (negb (startsWith "---" y) && dashLineFree y).
Proof. by rewrite dashLineFree_app by apply LF_terminator. Qed.

Lemma hasKeyLine_at_start (key t : str) : hasKeyLine key (key ++ ":" ++ t) = true.
Proof. unfold hasKeyLine. by rewrite app_assoc, findLine_at_start. Qed.

Lemma HasKeyLine_before (key fm x : str) :
  HasKeyLine key fm -> HasKeyLine key (fm ++ x).
Proof.
  intros (before & after & -> & He). exists before, (after ++ x).
  split; [by rewrite <- !app_assoc|done].
Qed.

Lemma HasKeyLine_appended (key fm t : str) :
  HasKeyLine key (fm ++ nl ++ key ++ ":" ++ t).
Proof.
  exists (fm ++ nl), t. split; [by rewrite <- !app_assoc|apply EndsLine_nl].
Qed.

Lemma hasKeyLine_withCreated (key value fm : str) :
  hasKeyLine key (withCreated key value fm) = true.
Proof.
  unfold withCreated. destruct (hasKeyLine key fm) eqn:E; [done|].
  apply (hasKeyLine_at_start key (" " ++ value ++ nl ++ fm)).
Qed.

Lemma hasKeyLine_withModified (key value fm : str) :
  hasKeyLine key (withModified key value fm) = true.
Proof.
  unfold withModified. destruct (hasKeyLine key fm) eqn:E; [done|].
  apply hasKeyLine_true. apply (HasKeyLine_appended key fm (" " ++ value)).
Qed.

Lemma hasKeyLine_kept (k key value fm : str) :
  hasKeyLine k fm = true -> hasKeyLine k (withModified key value fm) = true.
Proof.
  intros Hk. unfold withModified. destruct (hasKeyLine key fm); [done|].
  apply hasKeyLine_true, HasKeyLine_before. by apply hasKeyLine_true.
Qed.

Lemma no_dollar_withModified (key value fm : str) :
  isPlain key = true -> "$"%char ∉ value -> "$"%char ∉ fm ->
  "$"%char ∉ withModified key value fm.
Proof.
  intros Hk Hv Hfm. unfold withModified. destruct (hasKeyLine key fm); [done|].
  rewrite !not_elem_of_app. split_and!; try done.
  - apply not_elem_of_nl.
  - by apply isPlain_no_dollar.
  - apply no_dollar_colon_space.
Qed.

Lemma dashLineFree_withCreated (key value fm : str) :
  isKeyName key = true -> isOneLine value = true ->
  dashLineFree fm = true -> startsWith "---" fm = false ->
  dashLineFree (withCreated key value fm) = true.
Proof.
  intros Hk Hv Hfm Hd. unfold withCreated. destruct (hasKeyLine key fm); [done|].
  replace (key ++ ": " ++ value ++ nl ++ fm) with ((key ++ ": " ++ value) ++ LF :: fm)
    by (by rewrite <- !app_assoc).
  rewrite dashLineFree_LF, Hd, Hfm, dashLineFree_oneLine; [done|].
  by apply keyLine_oneLine.
Qed.

Lemma dashLineFree_withModified (key value fm : str) :
  isKeyName key = true -> isOneLine value = true ->
  dashLineFree fm = true ->
  dashLineFree (withModified key value fm) = true.
Proof.
  intros Hk Hv Hfm. unfold withModified. destruct (hasKeyLine key fm); [done|].
  change (fm ++ nl ++ key ++ ": " ++ value) with (fm ++ LF :: (key ++ ": " ++ value)).
  rewrite dashLineFree_LF, Hfm, keyLine_no_dashes, dashLineFree_oneLine; [done| |done].
  by apply keyLine_oneLine.
Qed.

(** A block that has both key lines is left as it is. *)
Lemma addFrontmatter_settled (settings : AutoTimestampSettings)
    (block rest created modified : str) :
  isPlain (createdKey settings) = true -> isPlain (modifiedKey settings) = true ->
  hasKeyLine (createdKey settings) block = true ->
  hasKeyLine (modifiedKey settings) block = true ->
  "$"%char ∉ block -> dashLineFree block = true ->
  addFrontmatter settings ("---" ++ nl ++ block ++ nl ++ "---" ++ rest) created modified
  = Ok ("---" ++ nl ++ block ++ nl ++ "---" ++ rest).
Proof.
  intros Hpc Hpm Hc Hm Hd Hf.
  pose proof (frontmatterSplit_rebuilt block rest Hf) as Hs.
  rewrite (addFrontmatter_plain settings _ created modified block rest Hpc Hpm Hs);
    unfold withCreated, withModified; rewrite Hc, Hm; done.
Qed.

(** The block that [addFrontmatter] writes for a document without one. *)
Lemma addFrontmatter_new_block (settings : AutoTimestampSettings)
    (content created modified : str) :
  exec frontmatterRegex content = None ->
  addFrontmatter settings content created modified
  = Ok ("---" ++ nl
        ++ (createdKey settings ++ ": " ++ created ++ nl
            ++ modifiedKey settings ++ ": " ++ modified)
        ++ nl ++ "---" ++ nl ++ content).
Proof.
  intros Hx. unfold addFrontmatter. rewrite Hx. cbv zeta. f_equal.
  simpl. by repeat (rewrite <- app_assoc; simpl).
Qed.

Lemma new_block_facts (ck mk created modified : str) :
  isKeyName ck = true -> isKeyName mk = true ->
  isValue created = true -> isValue modified = true ->
  let block := ck ++ ": " ++ created ++ nl ++ mk ++ ": " ++ modified in
  hasKeyLine ck block = true /\ hasKeyLine mk block = true /\
  ("$"%char ∉ block) /\ dashLineFree block = true.
Proof.
  intros Hck Hmk [Hc1 Hc2]%isValue_parts [Hm1 Hm2]%isValue_parts block.
  pose proof (keyName_plain _ Hck) as Hpc. pose proof (keyName_plain _ Hmk) as Hpm.
  split_and!.
  - apply (hasKeyLine_at_start ck (" " ++ created ++ nl ++ mk ++ ": " ++ modified)).
  - apply hasKeyLine_true.
    replace block with ((ck ++ ": " ++ created) ++ nl ++ mk ++ ":" ++ " " ++ modified)
      by (unfold block; by rewrite <- !app_assoc).
    apply HasKeyLine_appended.
  - unfold block. rewrite !not_elem_of_app. split_and!; try done.
    + by apply isPlain_no_dollar.
    + apply no_dollar_colon_space.
    + apply not_elem_of_nl.
    + by apply isPlain_no_dollar.
    + apply no_dollar_colon_space.
  - replace block with ((ck ++ ": " ++ created) ++ LF :: (mk ++ ": " ++ modified))
      by (unfold block; by rewrite <- !app_assoc).
    rewrite dashLineFree_LF, keyLine_no_dashes by done.
    rewrite !dashLineFree_oneLine; [done|by apply keyLine_oneLine..].
Qed.

(** X15: timestamps that are in the document are never overwritten by
    [addFrontmatter]: applied to its own result, with whatever new values,
    it changes nothing. The key names are plain names, the values of the
    first application are one line without a dollar sign, and the block of
    the document, when it has one, is quiet. *)
Theorem addFrontmatter_never_overwrites (settings : AutoTimestampSettings)
    (content created modified created' modified' : str) :
  isKeyName (createdKey settings) = true ->
  isKeyName (modifiedKey settings) = true ->
  isValue created = true -> isValue modified = true ->
  QuietBlock content ->
  exists once,
    addFrontmatter settings content created modified = Ok once /\
    addFrontmatter settings once created' modified' = Ok once.
Proof.
  intros Hck Hmk Hc Hm Hq.
  pose proof (keyName_plain _ Hck) as Hpc. pose proof (keyName_plain _ Hmk) as Hpm.
  destruct (exec_frontmatter_cases content) as [[Hx _] | (fm & rest & Hs & Hx)].
  - destruct (new_block_facts _ _ _ _ Hck Hmk Hc Hm) as (H1 & H2 & H3 & H4).
    eexists. split; [by apply addFrontmatter_new_block|].
    by apply addFrontmatter_settled.
  - destruct (Hq _ Hx) as [Hfm Hd]. cbn [group1 m_captures] in Hfm, Hd.
    apply isValue_parts in Hc as [Hc1 Hc2]. apply isValue_parts in Hm as [Hm1 Hm2].
    set (F := withModified (modifiedKey settings) modified
                (withCreated (createdKey settings) created fm)).
    assert ("$"%char ∉ F) as HF.
    { apply no_dollar_withModified; [done | done |]. by apply no_dollar_withCreated. }
    exists ("---" ++ nl ++ F ++ nl ++ "---" ++ rest). split.
    + by apply addFrontmatter_plain.
    + apply addFrontmatter_settled; try done.
      * apply hasKeyLine_kept, hasKeyLine_withCreated.
      * apply hasKeyLine_withModified.
      * apply dashLineFree_withModified; [done|done|].
        apply dashLineFree_withCreated; try done.
        by apply (frontmatterSplit_dashLineFree content fm rest).
Qed.

Lemma addFrontmatter_never_overwrites_witness :
  exists once,
    addFrontmatter DEFAULT_SETTINGS (joinLines ["---"; "title: x"; "---"; "body"])
                   "2024-12-29T14:30:52" "2024-12-29T14:30:52" = Ok once /\
    addFrontmatter DEFAULT_SETTINGS once "2025-01-01T00:00:00" "2025-01-01T00:00:00"
    = Ok once.
Proof.
  apply (addFrontmatter_never_overwrites DEFAULT_SETTINGS
           (joinLines ["---"; "title: x"; "---"; "body"])
           "2024-12-29T14:30:52" "2024-12-29T14:30:52"); try reflexivity.
  intros m Hm. vm_compute in Hm. injection Hm as <-. split; [|reflexivity].
  apply forallb_not_elem. reflexivity.
Defined.

Lemma setKeyLine_new_block (ck mk created modified V : str) :
  isKeyName ck = true -> isKeyName mk = true -> ck <> mk ->
  isOneLine created = true -> isOneLine modified = true ->
  setKeyLine mk V (ck ++ ": " ++ created ++ nl ++ mk ++ ": " ++ modified)
  = ck ++ ": " ++ created ++ nl ++ mk ++ ": " ++ V.
Proof.
  intros Hck Hmk Hne Hc Hm. unfold setKeyLine.
  set (L := ck ++ ": " ++ created).
  assert (HL : isOneLine L = true) by (by apply keyLine_oneLine).
  replace (ck ++ ": " ++ created ++ nl ++ mk ++ ": " ++ modified)
    with (L ++ LF :: (mk ++ ":") ++ " " ++ modified)
    by (unfold L; by rewrite <- !app_assoc).
  assert (Hno : startsWith (mk ++ ":") (L ++ LF :: (mk ++ ":") ++ " " ++ modified) = false).
  { destruct (startsWith (mk ++ ":") _) eqn:E; [|done]. destruct Hne. symmetry.
    apply (key_prefix_eq mk ck (" " ++ created ++ LF :: (mk ++ ":") ++ " " ++ modified));
      [by apply keyName_no_colon | by apply keyName_no_colon |].
    unfold L in E. rewrite <- ?app_assoc in E. by rewrite <- ?app_assoc. }
  rewrite (findLine_skip_line _ _ _ HL Hno), findLine_at_start. cbn [shift].
  rewrite <- (app_nil_r (" " ++ modified)), afterLine_oneLine
    by (by rewrite isOneLine_app, Hm).
  cbn [afterLine]. unfold L. rewrite !app_nil_r.
  simpl. by repeat (rewrite <- app_assoc; simpl).
Qed.

(** The first modify after the create: on what [addFrontmatter] made of a
    document without a block, [updateModifiedTime] sets the modified line
    and leaves the created line. *)
Lemma update_after_add (settings : AutoTimestampSettings)
    (content created modified V : str) :
  isKeyName (createdKey settings) = true ->
  isKeyName (modifiedKey settings) = true ->
  createdKey settings <> modifiedKey settings ->
  isValue created = true -> isValue modified = true -> isValue V = true ->
  exec frontmatterRegex content = None ->
  exists stamped,
    addFrontmatter settings content created modified = Ok stamped /\
    updateModifiedTime settings stamped V = addFrontmatter settings content created V.
Proof.
  intros Hck Hmk Hne Hc Hm HV Hx.
  pose proof (keyName_plain _ Hck) as Hpc. pose proof (keyName_plain _ Hmk) as Hpm.
  destruct (new_block_facts _ _ _ _ Hck Hmk Hc Hm) as (_ & _ & _ & Hd).
  destruct (new_block_facts _ _ _ _ Hck Hmk Hc HV) as (Hk' & _ & Hdollar' & _).
  apply isValue_parts in Hc as [Hc1 Hc2]. apply isValue_parts in Hm as [Hm1 Hm2].
  apply isValue_parts in HV as [HV1 HV2].
  eexists. split; [by apply addFrontmatter_new_block|].
  rewrite (addFrontmatter_new_block settings content created V Hx).
  pose proof (frontmatterSplit_rebuilt _ (nl ++ content) Hd) as Hs.
  rewrite (updateModifiedTime_plain settings _ V _ _ Hpc Hpm Hs HV2);
    rewrite setKeyLine_new_block by done; unfold withCreated; rewrite Hk'; done.
Qed.

(** X16: the first modify after the create. When the two key names are
    plain names and differ, and the values are one line without a dollar
    sign, [updateModifiedTime] applied to what [addFrontmatter] made of a
    document without a block gives what [addFrontmatter] gives for the new
    modified value: the modified line is set and the created line stays.
    With the same value nothing changes. *)
Theorem updateModifiedTime_after_addFrontmatter (settings : AutoTimestampSettings)
    (content created modified V : str) :
  isKeyName (createdKey settings) = true ->
  isKeyName (modifiedKey settings) = true ->
  createdKey settings <> modifiedKey settings ->
  isValue created = true -> isValue modified = true -> isValue V = true ->
  exec frontmatterRegex content = None ->
  exists stamped,
    addFrontmatter settings content created modified = Ok stamped /\
    updateModifiedTime settings stamped V = addFrontmatter settings content created V /\
    (V = modified -> updateModifiedTime settings stamped V = Ok stamped).
Proof.
  intros Hck Hmk Hne Hc Hm HV Hx.
  destruct (update_after_add settings content created modified V Hck Hmk Hne Hc Hm HV Hx)
    as (stamped & Ha & Hu).
  exists stamped. split_and!; [done|done|]. intros ->. by rewrite Hu.
Qed.

Lemma updateModifiedTime_after_addFrontmatter_witness :
  exists stamped,
    addFrontmatter DEFAULT_SETTINGS "# Note" "2024-12-29T14:30:52" "2024-12-29T14:30:52"
    = Ok stamped /\
    updateModifiedTime DEFAULT_SETTINGS stamped "2025-01-01T00:00:00"
    = addFrontmatter DEFAULT_SETTINGS "# Note" "2024-12-29T14:30:52" "2025-01-01T00:00:00".
Proof.
  destruct (updateModifiedTime_after_addFrontmatter DEFAULT_SETTINGS "# Note"
              "2024-12-29T14:30:52" "2024-12-29T14:30:52" "2025-01-01T00:00:00")
    as (stamped & Ha & Hu & _); try reflexivity.
  - discriminate.
  - by exists stamped.
Defined.

(* ===================================================================== *)
(** ** The handlers: events that are not served, reads and errors *)
(* ===================================================================== *)

Section HandlerRuns.
Context {W : Type} `{Host W}.

(** A handler that passes the guard and reads the file goes on with the
    editor's result for the content. *)
Lemma handleFileCreate_read (file : TFile) (st : State W) (content : str) :
  isUpdating st = false ->
  shouldIgnoreFile (settings st) file = Ok false ->
  vaultRead file (world st) = Ok content ->
  handleFileCreate file st =
  match addFrontmatter (settings st) content (stamp st) (stamp st) with
  | Ok updated =>
      if strEqb updated content then (Ok tt, afterRead file st)
      else
        match vaultModify file updated (world st) with
        | (Ok _, w') => (Ok tt, afterWrite file updated w' st)
        | (Throws e, w') => (Throws e, afterFailedWrite file updated w' st)
        | (Unmodelled, w') => (Unmodelled, afterFailedWrite file updated w' st)
        end
  | Throws e => (Throws e, afterRead file st)
  | Unmodelled => (Unmodelled, afterRead file st)
  end.
Proof.
  intros Hu Hi Hr. unfold stamp, afterRead, afterWrite, afterFailedWrite.
  cbv [handleFileCreate delay mbind async_bind mret async_ret getIsUpdating editor
       read currentDate setIsUpdating modify].
  rewrite Hu. cbv beta iota. rewrite Hi. cbn [settings isUpdating world calls].
  rewrite Hr. cbn [settings isUpdating world calls]. rewrite Hu.
  destruct (addFrontmatter _ _ _ _) as [updated| |]; [|done..].
  destruct (strEqb updated content); cbn [negb settings isUpdating world calls]; [done|].
  by destruct (vaultModify file updated (world st)) as [[[]| |] w'].
Qed.

Lemma handleFileModify_read (file : TFile) (st : State W) (content : str) :
  isUpdating st = false ->
  shouldIgnoreFile (settings st) file = Ok false ->
  vaultRead file (world st) = Ok content ->
  handleFileModify file st =
  match updateModifiedTime (settings st) content (stamp st) with
  | Ok updated =>
      if strEqb updated content then (Ok tt, afterRead file st)
      else
        match vaultModify file updated (world st) with
        | (Ok _, w') => (Ok tt, afterWrite file updated w' st)
        | (Throws e, w') => (Throws e, afterFailedWrite file updated w' st)
        | (Unmodelled, w') => (Unmodelled, afterFailedWrite file updated w' st)
        end
  | Throws e => (Throws e, afterRead file st)
  | Unmodelled => (Unmodelled, afterRead file st)
  end.
Proof.
  intros Hu Hi Hr. unfold stamp, afterRead, afterWrite, afterFailedWrite.
  cbv [handleFileModify mbind async_bind mret async_ret getIsUpdating editor
       read currentDate setIsUpdating modify].
  rewrite Hu. cbv beta iota. rewrite Hi. cbn [settings isUpdating world calls].
  rewrite Hr. cbn [settings isUpdating world calls]. rewrite Hu.
  destruct (updateModifiedTime _ _ _) as [updated| |]; [|done..].
  destruct (strEqb updated content); cbn [negb settings isUpdating world calls]; [done|].
  by destruct (vaultModify file updated (world st)) as [[[]| |] w'].
Qed.

(** X20: an event for a folder, for a file whose extension is not [md]
    (in these very letters), or for a file that an ignore pattern matches
    is not served: nothing is read or written, no handler is left waiting,
    and the state stays as it is. *)
Theorem unserved_events_change_nothing (st : State W) (pool : list (Async W (Task W)))
    (ev : VaultEvent) :
  match eventFile ev with
  | IsTFolder _ => True
  | IsTFile f => extension f <> "md" \/ shouldIgnoreFile (settings st) f = Ok true
  end ->
  step (Deliver ev) (st, pool) = (st, pool).
Proof.
  intros Hev. unfold step. cbn [fst snd].
  assert (listener ev st = (Ok Return, st)) as ->; [|done].
  destruct ev as [[f|d] | [f|d]]; cbn [eventFile listener isMarkdown] in *; try done.
  - destruct (strEqb (extension f) "md") eqn:E.
    + destruct Hev as [Hn | Hi]; [by apply strEqb_eq in E|].
      cbv [handleFileCreateTask mbind async_bind mret async_ret getIsUpdating editor].
      destruct (isUpdating st); [done|]. by rewrite Hi.
    + done.
  - destruct (strEqb (extension f) "md") eqn:E.
    + destruct Hev as [Hn | Hi]; [by apply strEqb_eq in E|].
      cbv [handleFileModifyTask mbind async_bind mret async_ret getIsUpdating editor].
      destruct (isUpdating st); [done|]. by rewrite Hi.
    + done.
Qed.


(** X22: [handleFileModify] never gives a frontmatter block to a file that
    has none: whatever the settings, it reads the file and writes
    nothing. *)
Theorem handleFileModify_without_block (file : TFile) (st : State W) (content : str) :
  isUpdating st = false ->
  shouldIgnoreFile (settings st) file = Ok false ->
  vaultRead file (world st) = Ok content ->
  exec frontmatterRegex content = None ->
  handleFileModify file st = (Ok tt, afterRead file st).
Proof.
  intros Hu Hi Hr Hx. rewrite (handleFileModify_read file st content Hu Hi Hr).
  unfold updateModifiedTime. rewrite Hx. by rewrite strEqb_refl.
Qed.

Lemma longer_is_different (block content : str) : block <> [] -> block ++ content <> content.
Proof.
  intros Hb E. apply (f_equal length) in E. rewrite length_app in E.
  destruct block; [done|]. simpl in E. lia.
Qed.

(** X23: [handleFileCreate] always stamps a file that has no block,
    whatever the settings: it writes the new block, with the timestamp for
    both keys, in front of the content it read, and when the write returns
    the guard is clear again. *)
Theorem handleFileCreate_without_block (file : TFile) (st : State W) (content : str)
    (w' : W) :
  isUpdating st = false ->
  shouldIgnoreFile (settings st) file = Ok false ->
  vaultRead file (world st) = Ok content ->
  exec frontmatterRegex content = None ->
  let stamped := "---" ++ nl
                 ++ (createdKey (settings st) ++ ": " ++ stamp st ++ nl
                     ++ modifiedKey (settings st) ++ ": " ++ stamp st)
                 ++ nl ++ "---" ++ nl ++ content in
  vaultModify file stamped (world st) = (Ok tt, w') ->
  handleFileCreate file st = (Ok tt, afterWrite file stamped w' st).
Proof.
  intros Hu Hi Hr Hx stamped Hm. rewrite (handleFileCreate_read file st content Hu Hi Hr).
  rewrite (addFrontmatter_new_block _ _ _ _ Hx). fold stamped.
  assert (strEqb stamped content = false) as ->.
  { apply strEqb_neq. unfold stamped.
    replace ("---" ++ nl
             ++ (createdKey (settings st) ++ ": " ++ stamp st ++ nl
                 ++ modifiedKey (settings st) ++ ": " ++ stamp st)
             ++ nl ++ "---" ++ nl ++ content)
      with (("---" ++ nl
             ++ (createdKey (settings st) ++ ": " ++ stamp st ++ nl
                 ++ modifiedKey (settings st) ++ ": " ++ stamp st)
             ++ nl ++ "---" ++ nl) ++ content)
      by (simpl; by repeat (rewrite <- app_assoc; simpl)).
    by apply longer_is_different. }
  by rewrite Hm.
Qed.

End HandlerRuns.

Lemma unserved_events_change_nothing_witness :
  step (Deliver (OnModify (IsTFile (mkTFile "NOTE.MD" "MD")))) (newNote, [])
  = (newNote, []).
Proof.
  apply (unserved_events_change_nothing newNote []
           (OnModify (IsTFile (mkTFile "NOTE.MD" "MD")))).
  left. discriminate.
Defined.


Lemma handleFileModify_without_block_witness :
  handleFileModify (mkTFile "note.md" "md") newNote
  = (Ok tt, afterRead (mkTFile "note.md" "md") newNote).
Proof.
  apply (handleFileModify_without_block (mkTFile "note.md" "md") newNote "# Note");
    by vm_compute.
Defined.

Lemma handleFileCreate_without_block_witness :
  let file := mkTFile "note.md" "md" in
  let stamped := "---" ++ nl
                 ++ (createdKey (settings newNote) ++ ": " ++ stamp newNote ++ nl
                     ++ modifiedKey (settings newNote) ++ ": " ++ stamp newNote)
                 ++ nl ++ "---" ++ nl ++ "# Note" in
  let w' := mkMemoryVault (<[ path file := stamped ]> (mv_files (world newNote)))
                          (mv_clock (world newNote)) [] in
  handleFileCreate file newNote = (Ok tt, afterWrite file stamped w' newNote).
Proof.
  intros file stamped w'.
  apply (handleFileCreate_without_block file newNote "# Note" w'); by vm_compute.
Defined.


(* ===================================================================== *)
(** ** The handlers: the event of the plugin's own write *)
(* ===================================================================== *)

Section OwnWrite.
Context {W : Type} `{Host W}.

Lemma runSchedule_app (steps steps' : list Step) (c : State W * list (Async W (Task W))) :
  runSchedule (steps ++ steps') c = runSchedule steps' (runSchedule steps c).
Proof. apply fold_left_app. Qed.

(** A create event served alone, whose write returns. *)
Lemma create_alone_writes (file : TFile) (st : State W) (content updated : str) (w' : W) :
  extension file = "md" ->
  isUpdating st = false ->
  shouldIgnoreFile (settings st) file = Ok false ->
  vaultRead file (world st) = Ok content ->
  addFrontmatter (settings st) content (stamp st) (stamp st) = Ok updated ->
  updated <> content ->
  vaultModify file updated (world st) = (Ok tt, w') ->
  runSchedule [Deliver (OnCreate (IsTFile file)); Settle 0; Settle 0; Settle 0] (st, [])
  = (afterWrite file updated w' st, []).
Proof.
  intros Hmd Hu Hi Hr He Hne Hm.
  apply strEqb_neq in Hne. unfold stamp in He.
  unfold runSchedule. cbn [fold_left step fst snd listener].
  rewrite (isMarkdown_md file Hmd).
  cbv [handleFileCreateTask delay mbind async_bind mret async_ret getIsUpdating editor].
  rewrite Hu. cbv beta iota. rewrite Hi.
  cbn [park app lookup list_lookup delete list_delete fst snd].
  cbv [read currentDate]. cbn [settings isUpdating world calls].
  rewrite Hr. cbn [settings isUpdating world calls]. rewrite He.
  unfold writeIfChanged. rewrite Hne. cbn [negb].
  cbv [mbind async_bind mret async_ret setIsUpdating].
  cbn [park app lookup list_lookup delete list_delete fst snd settings isUpdating world calls].
  unfold finishWrite, modify. cbv [mbind async_bind mret async_ret setIsUpdating].
  cbn [settings isUpdating world calls]. by rewrite Hm.
Qed.

(** A modify event served alone, for a content the editor leaves as it is. *)
Lemma modify_alone_unchanged (file : TFile) (st : State W) (content : str) :
  extension file = "md" ->
  isUpdating st = false ->
  shouldIgnoreFile (settings st) file = Ok false ->
  vaultRead file (world st) = Ok content ->
  updateModifiedTime (settings st) content (stamp st) = Ok content ->
  runSchedule [Deliver (OnModify (IsTFile file)); Settle 0] (st, [])
  = (afterRead file st, []).
Proof.
  intros Hmd Hu Hi Hr He. unfold stamp in He.
  unfold runSchedule. cbn [fold_left step fst snd listener].
  rewrite (isMarkdown_md file Hmd).
  cbv [handleFileModifyTask mbind async_bind mret async_ret getIsUpdating editor].
  rewrite Hu. cbv beta iota. rewrite Hi.
  cbn [park app lookup list_lookup delete list_delete fst snd].
  cbv [read currentDate]. cbn [settings isUpdating world calls].
  rewrite Hr. cbn [settings isUpdating world calls]. rewrite He.
  unfold writeIfChanged. rewrite strEqb_refl. cbn [negb].
  cbv [mbind async_bind mret async_ret]. unfold afterRead. by rewrite Hu.
Qed.

(** X25: the modify event that the plugin's own write raises does not make
    it write again. A new note without a block is stamped by the create
    handler; when the modify event for that write is served once the
    handler has ended, on a host that gives back what was written and whose
    clock still formats to the same timestamp, the modify handler reads the
    file and writes nothing. The key names are plain names that differ and
    the date format is one line without a dollar sign. *)
Theorem own_write_is_not_repeated (file : TFile) (st : State W) (content : str) (w' : W) :
  extension file = "md" ->
  isUpdating st = false ->
  shouldIgnoreFile (settings st) file = Ok false ->
  isKeyName (createdKey (settings st)) = true ->
  isKeyName (modifiedKey (settings st)) = true ->
  createdKey (settings st) <> modifiedKey (settings st) ->
  isValue (dateFormat (settings st)) = true ->
  vaultRead file (world st) = Ok content ->
  exec frontmatterRegex content = None ->
  let stamped := "---" ++ nl
                 ++ (createdKey (settings st) ++ ": " ++ stamp st ++ nl
                     ++ modifiedKey (settings st) ++ ": " ++ stamp st)
                 ++ nl ++ "---" ++ nl ++ content in
  vaultModify file stamped (world st) = (Ok tt, w') ->
  vaultRead file w' = Ok stamped ->
  formatDate (settings st) (newDate w') = stamp st ->
  runSchedule [Deliver (OnCreate (IsTFile file)); Settle 0; Settle 0; Settle 0;
               Deliver (OnModify (IsTFile file)); Settle 0] (st, [])
  = (afterRead file (afterWrite file stamped w' st), []).
Proof.
  intros Hmd Hu Hi Hck Hmk Hne Hf Hr Hx stamped Hm Hr' Hclock.
  pose proof (formatDate_isValue (settings st) (newDate (world st)) Hf) as HV.
  fold (stamp st) in HV.
  destruct (update_after_add (settings st) content (stamp st) (stamp st) (stamp st)
              Hck Hmk Hne HV HV HV Hx) as (stamped' & Ha & Hup).
  rewrite (addFrontmatter_new_block _ _ _ _ Hx) in Ha. injection Ha as <-.
  rewrite (addFrontmatter_new_block _ _ _ _ Hx) in Hup. fold stamped in Hup.
  change [Deliver (OnCreate (IsTFile file)); Settle 0; Settle 0; Settle 0;
          Deliver (OnModify (IsTFile file)); Settle 0]
    with ([Deliver (OnCreate (IsTFile file)); Settle 0; Settle 0; Settle 0]
          ++ [Deliver (OnModify (IsTFile file)); Settle 0]).
  rewrite runSchedule_app.
  rewrite (create_alone_writes file st content stamped w' Hmd Hu Hi Hr); [| |  |done].
  - apply (modify_alone_unchanged file (afterWrite file stamped w' st) stamped); try done.
    unfold stamp at 1. cbn [afterWrite settings world]. by rewrite Hclock.
  - by apply addFrontmatter_new_block.
  - unfold stamped.
    replace ("---" ++ nl
             ++ (createdKey (settings st) ++ ": " ++ stamp st ++ nl
                 ++ modifiedKey (settings st) ++ ": " ++ stamp st)
             ++ nl ++ "---" ++ nl ++ content)
      with (("---" ++ nl
             ++ (createdKey (settings st) ++ ": " ++ stamp st ++ nl
                 ++ modifiedKey (settings st) ++ ": " ++ stamp st)
             ++ nl ++ "---" ++ nl) ++ content)
      by (simpl; by repeat (rewrite <- app_assoc; simpl)).
    by apply longer_is_different.
Qed.
End OwnWrite.

Lemma own_write_is_not_repeated_witness :
  let file := mkTFile "note.md" "md" in
  let stamped := "---" ++ nl
                 ++ (createdKey (settings newNote) ++ ": " ++ stamp newNote ++ nl
                     ++ modifiedKey (settings newNote) ++ ": " ++ stamp newNote)
                 ++ nl ++ "---" ++ nl ++ "# Note" in
  let w' := mkMemoryVault (<[ path file := stamped ]> (mv_files (world newNote)))
                          (mv_clock (world newNote)) [] in
  runSchedule [Deliver (OnCreate (IsTFile file)); Settle 0; Settle 0; Settle 0;
               Deliver (OnModify (IsTFile file)); Settle 0] (newNote, [])
  = (afterRead file (afterWrite file stamped w' newNote), []).
Proof.
  intros file stamped w'.
  apply (own_write_is_not_repeated file newNote "# Note" w'); by vm_compute.
Defined.
